(** * Velocity command generator of the moonshot tasks

    A shallow embedding of [velocity_command.py]
    ([UniformBodyVelocityCommand] and [LowPassFilter]) and the properties
    of its command sampling, post-processing and tracking metrics.

    Conventions of the embedding:
    - a tensor of per-environment values is a [list], indexed by [nat];
      the [N x 3] command tensor is a list of [vec3];
    - torch floats are real numbers ([R]): rounding, infinities and NaN are
      outside the model, except in [Float32] and [Float64], which run the
      metric accumulation and the filter in IEEE arithmetic;
    - a Python exception is a [Raise] in the [result] monad;
    - the in-place random draws [r.uniform_(lo, hi)] read a unit sample
      per position from an explicit source and scale it to [lo, hi]. *)

From Stdlib Require Import Reals Machin RNsatz Lra Lia ZArith SpecFloat.
From stdpp Require Import base tactics option list strings.

Local Open Scope R_scope.

(** ** Exceptions and the [result] monad *)

Inductive exn : Type :=
  | ValueError
  | IndexError
  | TypeError
  | RuntimeError
  | ZeroDivisionError.

Inductive result (A : Type) : Type :=
  | Ok (a : A)
  | Raise (e : exn).

Arguments Ok {A} a.
Arguments Raise {A} e.

#[global] Instance result_ret : MRet result := fun A a => Ok a.
#[global] Instance result_bind : MBind result := fun A B f m =>
  match m with
  | Ok a => f a
  | Raise e => Raise e
  end.

(** ** Comparisons on reals as booleans *)

Definition Rleb (a b : R) : bool := if Rle_dec a b then true else false.
Definition Rltb (a b : R) : bool := if Rlt_dec a b then true else false.
Definition Reqb (a b : R) : bool := if Req_dec_T a b then true else false.

(** ** Vectors and quaternions *)

Record vec3 : Type := Vec3 { vx : R; vy : R; vz : R }.

(** Quaternions in the (w, x, y, z) convention of [math_utils]. *)
Record quat : Type := Quat { qw : R; qx : R; qy : R; qz : R }.

Definition zero3 : vec3 := Vec3 0 0 0.

Definition set_vx (v : vec3) (a : R) : vec3 := Vec3 a (vy v) (vz v).
Definition set_vy (v : vec3) (a : R) : vec3 := Vec3 (vx v) a (vz v).
Definition set_vz (v : vec3) (a : R) : vec3 := Vec3 (vx v) (vy v) a.

(** A 3x3 matrix given by its rows, as [torch.tensor([[..],[..],[..]])]. *)
Record mat3 : Type := Mat3 { row0 : vec3; row1 : vec3; row2 : vec3 }.

(** ** Tensor operations *)

Module Tensor.

(** [mask.nonzero(as_tuple=False).flatten()]: the indices of the true
    entries, in increasing order. *)
Fixpoint nonzero_from (k : nat) (mask : list bool) : list nat :=
  match mask with
  | [] => []
  | b :: mask' =>
      if b then k :: nonzero_from (S k) mask' else nonzero_from (S k) mask'
  end.

Definition nonzero (mask : list bool) : list nat := nonzero_from 0 mask.

(** [t[ids]]: gather; an index outside the tensor raises [IndexError]. *)
Fixpoint index_select {A} (t : list A) (ids : list nat) : result (list A) :=
  match ids with
  | [] => Ok []
  | i :: ids' =>
      match t !! i with
      | Some a => rest ← index_select t ids'; Ok (a :: rest)
      | None => Raise IndexError
      end
  end.

(** [t[ids, col] = vals]: scatter, position by position; [upd] writes the
    value into the selected part of the row. An index outside the tensor
    raises [IndexError], a value tensor of another length than [ids]
    raises [RuntimeError] (shape mismatch). *)
Fixpoint index_put {A B} (upd : A -> B -> A) (t : list A)
    (ids : list nat) (vals : list B) : result (list A) :=
  match ids, vals with
  | [], [] => Ok t
  | i :: ids', v :: vals' =>
      match t !! i with
      | Some a => index_put upd (<[i := upd a v]> t) ids' vals'
      | None => Raise IndexError
      end
  | _, _ => Raise RuntimeError
  end.

(** [t[ids, :] = c]: scatter of one broadcast scalar. *)
Definition index_fill {A} (t : list A) (ids : list nat) (c : A)
    : result (list A) :=
  index_put (fun _ c' => c') t ids (replicate (length ids) c).

(** Elementwise binary operation; operands of different length raise
    [RuntimeError]. *)
Fixpoint map2 {A B C} (f : A -> B -> C) (l1 : list A) (l2 : list B)
    : result (list C) :=
  match l1, l2 with
  | [], [] => Ok []
  | a :: l1', b :: l2' => rest ← map2 f l1' l2'; Ok (f a b :: rest)
  | _, _ => Raise RuntimeError
  end.

End Tensor.

(** ** The rotation helpers of [math_utils]

    [velocity_command.py] imports [isaaclab.utils.math] as [math_utils];
    the helpers that the command generator calls are modelled here, on
    exact reals. *)

Module math_utils.

(** Modelled from the spec: [math_utils.quat_mul] is missing; "composes
    orientations directly" (4.3), the Hamilton product on (w, x, y, z). *)
Definition quat_mul (q1 q2 : quat) : quat :=
  let '(Quat w1 x1 y1 z1) := q1 in
  let '(Quat w2 x2 y2 z2) := q2 in
  Quat (w1 * w2 - x1 * x2 - y1 * y2 - z1 * z2)
       (w1 * x2 + x1 * w2 + y1 * z2 - z1 * y2)
       (w1 * y2 - x1 * z2 + y1 * w2 + z1 * x2)
       (w1 * z2 + x1 * y2 - y1 * x2 + z1 * w2).

Definition cross (a b : vec3) : vec3 :=
  Vec3 (vy a * vz b - vz a * vy b)
       (vz a * vx b - vx a * vz b)
       (vx a * vy b - vy a * vx b).

Definition dot (a b : vec3) : R := vx a * vx b + vy a * vy b + vz a * vz b.

(** Modelled from the spec: [math_utils.quat_rotate] is missing; the
    rotation of a vector by a unit quaternion. *)
Definition quat_rotate (q : quat) (v : vec3) : vec3 :=
  let q_w := qw q in
  let q_vec := Vec3 (qx q) (qy q) (qz q) in
  let s := 2 * q_w * q_w - 1 in
  let b := cross q_vec v in
  let d := dot q_vec v in
  Vec3 (vx v * s + vx b * q_w * 2 + vx q_vec * d * 2)
       (vy v * s + vy b * q_w * 2 + vy q_vec * d * 2)
       (vz v * s + vz b * q_w * 2 + vz q_vec * d * 2).

(** Modelled from the spec: [math_utils.quat_rotate_inverse] is missing;
    "applies the inverse of the composed rotation to a velocity vector"
    (4.3). *)
Definition quat_rotate_inverse (q : quat) (v : vec3) : vec3 :=
  let q_w := qw q in
  let q_vec := Vec3 (qx q) (qy q) (qz q) in
  let s := 2 * q_w * q_w - 1 in
  let b := cross q_vec v in
  let d := dot q_vec v in
  Vec3 (vx v * s - vx b * q_w * 2 + vx q_vec * d * 2)
       (vy v * s - vy b * q_w * 2 + vy q_vec * d * 2)
       (vz v * s - vz b * q_w * 2 + vz q_vec * d * 2).

Definition sqrt_positive_part (x : R) : R :=
  if Rlt_dec 0 x then sqrt x else 0.

(** Modelled from the spec: [math_utils.quat_from_matrix] is missing; it
    gives the "constant 3x3 rotation (expressed as an orientation)" of the
    frame correction table (3). The four candidates of the trace method,
    the one with the largest denominator chosen (the first among equals). *)
Definition quat_from_matrix (m : mat3) : quat :=
  let '(Mat3 (Vec3 m00 m01 m02) (Vec3 m10 m11 m12) (Vec3 m20 m21 m22)) := m in
  let a0 := sqrt_positive_part (1 + m00 + m11 + m22) in
  let a1 := sqrt_positive_part (1 + m00 - m11 - m22) in
  let a2 := sqrt_positive_part (1 - m00 + m11 - m22) in
  let a3 := sqrt_positive_part (1 - m00 - m11 + m22) in
  let den (a : R) := 2 * Rmax a (1 / 10) in
  if Rleb a1 a0 && Rleb a2 a0 && Rleb a3 a0 then
    Quat (a0 * a0 / den a0) ((m21 - m12) / den a0)
         ((m02 - m20) / den a0) ((m10 - m01) / den a0)
  else if Rleb a2 a1 && Rleb a3 a1 then
    Quat ((m21 - m12) / den a1) (a1 * a1 / den a1)
         ((m10 + m01) / den a1) ((m02 + m20) / den a1)
  else if Rleb a3 a2 then
    Quat ((m02 - m20) / den a2) ((m10 + m01) / den a2)
         (a2 * a2 / den a2) ((m12 + m21) / den a2)
  else
    Quat ((m10 - m01) / den a3) ((m20 + m02) / den a3)
         ((m21 + m12) / den a3) (a3 * a3 / den a3).

(** [torch.atan2]. *)
Definition atan2 (y x : R) : R :=
  if Rlt_dec 0 x then atan (y / x)
  else if Rlt_dec x 0 then
    (if Rle_dec 0 y then atan (y / x) + PI else atan (y / x) - PI)
  else if Rlt_dec 0 y then PI / 2
  else if Rlt_dec y 0 then - PI / 2
  else 0.

(** Modelled from the spec: [math_utils.euler_xyz_from_quat] is missing;
    only its third component, the "current yaw extracted from the agent's
    orientation" (4.2), is used. The formula is the one of
    [quaternion_to_yaw_torch] in the extension's [velocity_command.py]. *)
Definition euler_z_from_quat (q : quat) : R :=
  let '(Quat w x y z) := q in
  atan2 (2 * (w * z + x * y)) (1 - 2 * (y * y + z * z)).

(** Modelled from the spec: [math_utils.wrap_to_pi] is missing;
    "wrap-to-(-pi, pi]" (4.2). The angle is reduced modulo 2 pi to
    [0, 2 pi) and the upper half is shifted down, so an error of exactly
    pi stays +pi. *)
Definition wrap_to_pi (angle : R) : R :=
  let a := angle - 2 * PI * IZR (Zfloor (angle / (2 * PI))) in
  if Rlt_dec PI a then a - 2 * PI else a.

End math_utils.

(** [torch.clip(x, min=lo, max=hi)]. *)
Definition clip (x lo hi : R) : R := Rmin (Rmax x lo) hi.

(** ** Configuration, environment and simulation snapshot *)

(** [UniformVelocityCommandCfg.Ranges]: each range is a (min, max) pair;
    [heading] may be [None]. *)
Record Ranges : Type := {
  lin_vel_x : R * R;
  lin_vel_y : R * R;
  ang_vel_z : R * R;
  heading : option (R * R)
}.

Record UniformBodyVelocityCommandCfg : Type := {
  asset_name : string;
  body_name : string;
  resampling_time_range : R * R;
  rel_standing_envs : R;
  rel_heading_envs : R;
  heading_command : bool;
  heading_control_stiffness : R;
  ranges : Ranges
}.

(** What the generator reads of [ManagerBasedEnv]. *)
Record Env : Type := {
  num_envs : nat;
  step_dt : R
}.

(** [self.robot.data], already sliced at the reference body
    ([[:, self.body_link_idx, :]]): one row per environment. *)
Record RobotData : Type := {
  body_quat_w : list quat;
  body_lin_vel_w : list vec3;
  body_ang_vel_w : list vec3
}.

(** The unit samples behind one call of [_resample_command]: for each of
    the six in-place draws on [r], the sample of position [p]. *)
Record Draws : Type := {
  u_lin_vel_x : nat -> R;
  u_lin_vel_y : nat -> R;
  u_ang_vel_z : nat -> R;
  u_heading : nat -> R;
  u_is_heading : nat -> R;
  u_is_standing : nat -> R
}.

(** The values of [r.uniform_(lo, hi)] on a tensor of [n] entries: the
    unit sample of each position, scaled to the range. *)
Definition scaled (u : nat -> R) (n : nat) (range : R * R) : list R :=
  (fun p => fst range + (snd range - fst range) * u p) <$> seq 0 n.

(** [r.uniform_(lo, hi)]: torch refuses a range with [lo > hi]
    ([RuntimeError]), whatever the size of the tensor. *)
Definition uniform_ (u : nat -> R) (n : nat) (range : R * R)
    : result (list R) :=
  if Rltb (snd range) (fst range) then Raise RuntimeError
  else Ok (scaled u n range).

(** ** The command generator *)

(** The buffers of a [UniformBodyVelocityCommand] object. *)
Record UniformBodyVelocityCommand : Type := {
  vel_command_b : list vec3;
  heading_target : list R;
  is_heading_env : list bool;
  is_standing_env : list bool;
  error_vel_xy : list R;
  error_vel_yaw : list R
}.

Definition with_vel_command_b (self : UniformBodyVelocityCommand)
    (c : list vec3) : UniformBodyVelocityCommand :=
  {| vel_command_b := c;
     heading_target := heading_target self;
     is_heading_env := is_heading_env self;
     is_standing_env := is_standing_env self;
     error_vel_xy := error_vel_xy self;
     error_vel_yaw := error_vel_yaw self |}.

Definition with_heading_target (self : UniformBodyVelocityCommand)
    (h : list R) : UniformBodyVelocityCommand :=
  {| vel_command_b := vel_command_b self;
     heading_target := h;
     is_heading_env := is_heading_env self;
     is_standing_env := is_standing_env self;
     error_vel_xy := error_vel_xy self;
     error_vel_yaw := error_vel_yaw self |}.

Definition with_is_heading_env (self : UniformBodyVelocityCommand)
    (m : list bool) : UniformBodyVelocityCommand :=
  {| vel_command_b := vel_command_b self;
     heading_target := heading_target self;
     is_heading_env := m;
     is_standing_env := is_standing_env self;
     error_vel_xy := error_vel_xy self;
     error_vel_yaw := error_vel_yaw self |}.

Definition with_is_standing_env (self : UniformBodyVelocityCommand)
    (m : list bool) : UniformBodyVelocityCommand :=
  {| vel_command_b := vel_command_b self;
     heading_target := heading_target self;
     is_heading_env := is_heading_env self;
     is_standing_env := m;
     error_vel_xy := error_vel_xy self;
     error_vel_yaw := error_vel_yaw self |}.

Definition with_metrics (self : UniformBodyVelocityCommand)
    (exy eyaw : list R) : UniformBodyVelocityCommand :=
  {| vel_command_b := vel_command_b self;
     heading_target := heading_target self;
     is_heading_env := is_heading_env self;
     is_standing_env := is_standing_env self;
     error_vel_xy := exy;
     error_vel_yaw := eyaw |}.

Definition is_none {A} (o : option A) : bool :=
  match o with None => true | Some _ => false end.

(** [UniformBodyVelocityCommand.__init__]: the configuration check, then
    the zeroed buffers and metrics. The constructor of the base class and
    the lookup of the robot and of its reference body are taken to return.
    The advisory of the second check is [init_warns]. *)
Definition __init__ (cfg : UniformBodyVelocityCommandCfg) (env : Env)
    : result UniformBodyVelocityCommand :=
  if heading_command cfg && is_none (heading (ranges cfg)) then
    Raise ValueError
  else
    Ok {| vel_command_b := replicate (num_envs env) zero3;
          heading_target := replicate (num_envs env) 0;
          is_heading_env := replicate (num_envs env) false;
          is_standing_env := replicate (num_envs env) false;
          error_vel_xy := replicate (num_envs env) 0;
          error_vel_yaw := replicate (num_envs env) 0 |}.

Definition init_warns (cfg : UniformBodyVelocityCommandCfg) : bool :=
  negb (is_none (heading (ranges cfg))) && negb (heading_command cfg).

(** The branch on [cfg.body_name] that [_get_body_vel_d] and
    [_get_body_quat_d] both carry: the matrix of the reference link, as a
    quaternion; any other link name raises [ValueError]. *)
Definition tf_d_matrix (name : string) : result mat3 :=
  if String.eqb name "leg1link2" then
    Ok (Mat3 (Vec3 (-1) 0 0) (Vec3 0 0 1) (Vec3 0 1 0))
  else if String.eqb name "leg1link4" then
    Ok (Mat3 (Vec3 0 0 (-1)) (Vec3 (-1) 0 0) (Vec3 0 1 0))
  else Raise ValueError.

Definition tf_d_quat (cfg : UniformBodyVelocityCommandCfg) : result quat :=
  m ← tf_d_matrix (body_name cfg); Ok (math_utils.quat_from_matrix m).

(** [_get_body_quat_d]: the orientation of the reference body composed
    with the correction of its link, per environment. *)
Definition _get_body_quat_d (cfg : UniformBodyVelocityCommandCfg)
    (data : RobotData) : result (list quat) :=
  let body_quat_w := body_quat_w data in
  tf ← tf_d_quat cfg;
  Ok ((fun q => math_utils.quat_mul q tf) <$> body_quat_w).

(** [_get_body_vel_d]: a world-frame velocity of the reference body,
    expressed in the desired frame (x forwards, y left, z up). *)
Definition _get_body_vel_d (cfg : UniformBodyVelocityCommandCfg)
    (data : RobotData) (body_vel_w : list vec3) : result (list vec3) :=
  let body_quat_w := body_quat_w data in
  tf ← tf_d_quat cfg;
  let quat_w_d := (fun q => math_utils.quat_mul q tf) <$> body_quat_w in
  Tensor.map2 math_utils.quat_rotate_inverse quat_w_d body_vel_w.

(** The two error terms of one environment. *)
Definition err_xy (cmd vel : vec3) : R :=
  sqrt ((vx cmd - vx vel) * (vx cmd - vx vel)
        + (vy cmd - vy vel) * (vy cmd - vy vel)).

Definition err_yaw (cmd vel : vec3) : R := Rabs (vz cmd - vz vel).

(** [max_command_time / self._env.step_dt], a division of Python floats. *)
Definition max_command_step (cfg : UniformBodyVelocityCommandCfg) (env : Env)
    : result R :=
  let max_command_time := snd (resampling_time_range cfg) in
  if Reqb (step_dt env) 0 then Raise ZeroDivisionError
  else Ok (max_command_time / step_dt env).

(** [_update_metrics]. *)
Definition _update_metrics (cfg : UniformBodyVelocityCommandCfg) (env : Env)
    (data : RobotData) (self : UniformBodyVelocityCommand)
    : result UniformBodyVelocityCommand :=
  steps ← max_command_step cfg env;
  body_lin_vel_d ← _get_body_vel_d cfg data (body_lin_vel_w data);
  dxy ← Tensor.map2 err_xy (vel_command_b self) body_lin_vel_d;
  exy ← Tensor.map2 Rplus (error_vel_xy self) ((fun e => e / steps) <$> dxy);
  dyaw ← Tensor.map2 err_yaw (vel_command_b self) (body_ang_vel_w data);
  eyaw ← Tensor.map2 Rplus (error_vel_yaw self)
           ((fun e => e / steps) <$> dyaw);
  Ok (with_metrics self exy eyaw).

(** [_resample_command]. *)
Definition _resample_command (cfg : UniformBodyVelocityCommandCfg)
    (self : UniformBodyVelocityCommand) (env_ids : list nat) (d : Draws)
    : result UniformBodyVelocityCommand :=
  let n := length env_ids in
  r ← uniform_ (u_lin_vel_x d) n (lin_vel_x (ranges cfg));
  c ← Tensor.index_put set_vx (vel_command_b self) env_ids r;
  r ← uniform_ (u_lin_vel_y d) n (lin_vel_y (ranges cfg));
  c ← Tensor.index_put set_vy c env_ids r;
  r ← uniform_ (u_ang_vel_z d) n (ang_vel_z (ranges cfg));
  c ← Tensor.index_put set_vz c env_ids r;
  let self := with_vel_command_b self c in
  self ← (if heading_command cfg then
            match heading (ranges cfg) with
            | None => Raise TypeError
            | Some range =>
                r ← uniform_ (u_heading d) n range;
                h ← Tensor.index_put (fun _ v => v) (heading_target self)
                      env_ids r;
                r ← uniform_ (u_is_heading d) n (0, 1);
                m ← Tensor.index_put (fun _ b => b) (is_heading_env self)
                      env_ids
                      ((fun u => Rleb u (rel_heading_envs cfg)) <$> r);
                Ok (with_is_heading_env (with_heading_target self h) m)
            end
          else Ok self);
  r ← uniform_ (u_is_standing d) n (0, 1);
  m ← Tensor.index_put (fun _ b => b) (is_standing_env self) env_ids
        ((fun u => Rleb u (rel_standing_envs cfg)) <$> r);
  Ok (with_is_standing_env self m).

(** The angular velocity the heading controller commands for one
    environment. *)
Definition heading_ang_vel (cfg : UniformBodyVelocityCommandCfg)
    (target yaw : R) : R :=
  let heading_error := math_utils.wrap_to_pi (target - yaw) in
  clip (heading_control_stiffness cfg * heading_error)
       (fst (ang_vel_z (ranges cfg))) (snd (ang_vel_z (ranges cfg))).

(** The first half of [_update_command]: the angular velocity from the
    heading direction, for the heading environments. *)
Definition heading_step (cfg : UniformBodyVelocityCommandCfg)
    (data : RobotData) (self : UniformBodyVelocityCommand)
    : result UniformBodyVelocityCommand :=
  if heading_command cfg then
    let env_ids := Tensor.nonzero (is_heading_env self) in
    target ← Tensor.index_select (heading_target self) env_ids;
    quat_d ← _get_body_quat_d cfg data;
    yaw ← Tensor.index_select (math_utils.euler_z_from_quat <$> quat_d)
            env_ids;
    ang ← Tensor.map2 (heading_ang_vel cfg) target yaw;
    c ← Tensor.index_put set_vz (vel_command_b self) env_ids ang;
    Ok (with_vel_command_b self c)
  else Ok self.

(** The second half of [_update_command]: zero command for the standing
    environments. *)
Definition standing_step (self : UniformBodyVelocityCommand)
    : result UniformBodyVelocityCommand :=
  let standing_env_ids := Tensor.nonzero (is_standing_env self) in
  c ← Tensor.index_fill (vel_command_b self) standing_env_ids zero3;
  Ok (with_vel_command_b self c).

(** [_update_command]. *)
Definition _update_command (cfg : UniformBodyVelocityCommandCfg)
    (data : RobotData) (self : UniformBodyVelocityCommand)
    : result UniformBodyVelocityCommand :=
  self ← heading_step cfg data self;
  standing_step self.

(** The [command] property. *)
Definition command (self : UniformBodyVelocityCommand) : list vec3 :=
  vel_command_b self.

(** ** The calls of the stepping loop *)

Inductive call : Type :=
  | Resample (env_ids : list nat) (d : Draws)
  | UpdateCommand (data : RobotData)
  | UpdateMetrics (data : RobotData).

Definition step (cfg : UniformBodyVelocityCommandCfg) (env : Env)
    (self : UniformBodyVelocityCommand) (c : call)
    : result UniformBodyVelocityCommand :=
  match c with
  | Resample env_ids d => _resample_command cfg self env_ids d
  | UpdateCommand data => _update_command cfg data self
  | UpdateMetrics data => _update_metrics cfg env data self
  end.

Fixpoint run (cfg : UniformBodyVelocityCommandCfg) (env : Env)
    (self : UniformBodyVelocityCommand) (calls : list call)
    : result UniformBodyVelocityCommand :=
  match calls with
  | [] => Ok self
  | c :: calls' => self' ← step cfg env self c; run cfg env self' calls'
  end.

(** All buffers have one entry per environment. *)
Record well_shaped (n : nat) (self : UniformBodyVelocityCommand) : Prop := {
  ws_vel : length (vel_command_b self) = n;
  ws_target : length (heading_target self) = n;
  ws_heading : length (is_heading_env self) = n;
  ws_standing : length (is_standing_env self) = n;
  ws_xy : length (error_vel_xy self) = n;
  ws_yaw : length (error_vel_yaw self) = n
}.

Record data_shaped (n : nat) (data : RobotData) : Prop := {
  ds_quat : length (body_quat_w data) = n;
  ds_lin : length (body_lin_vel_w data) = n;
  ds_ang : length (body_ang_vel_w data) = n
}.

(** No range that [_resample_command] draws from is inverted. *)
Definition range_ok (range : R * R) : Prop := fst range <= snd range.

Definition ranges_ok (cfg : UniformBodyVelocityCommandCfg) : Prop :=
  range_ok (lin_vel_x (ranges cfg)) /\
  range_ok (lin_vel_y (ranges cfg)) /\
  range_ok (ang_vel_z (ranges cfg)) /\
  (heading_command cfg = true ->
   forall range, heading (ranges cfg) = Some range -> range_ok range).

Definition known_body (cfg : UniformBodyVelocityCommandCfg) : Prop :=
  body_name cfg = "leg1link2"%string \/ body_name cfg = "leg1link4"%string.

(** ** The extension's copy of the module

    [source/extensions/.../velocity_command.py] holds an earlier copy of the
    generator, which reads the world-frame state of the reference body
    without a frame correction, and the class [LowPassFilter]. Its
    [__init__] and [_resample_command] are those above. *)

Module Extension.

Module LowPassFilter.

Record t : Type := { alpha : R; prev_value : option R }.

(** [LowPassFilter.__init__]: the two assignments; no statement of it
    raises. *)
Definition __init__ (alpha : R) : result t :=
  Ok {| alpha := alpha; prev_value := None |}.

(** [LowPassFilter.apply]: the filter after the call and the value
    returned. *)
Definition apply (self : t) (value : R) : t * R :=
  let prev :=
    match prev_value self with
    | None => value
    | Some prev => alpha self * value + (1 - alpha self) * prev
    end in
  ({| alpha := alpha self; prev_value := Some prev |}, prev).

End LowPassFilter.

Definition _update_metrics (cfg : UniformBodyVelocityCommandCfg) (env : Env)
    (data : RobotData) (self : UniformBodyVelocityCommand)
    : result UniformBodyVelocityCommand :=
  steps ← max_command_step cfg env;
  dxy ← Tensor.map2 err_xy (vel_command_b self) (body_lin_vel_w data);
  exy ← Tensor.map2 Rplus (error_vel_xy self)
          ((fun e => e / steps) <$> dxy);
  dyaw ← Tensor.map2 err_yaw (vel_command_b self) (body_ang_vel_w data);
  eyaw ← Tensor.map2 Rplus (error_vel_yaw self)
           ((fun e => e / steps) <$> dyaw);
  Ok (with_metrics self exy eyaw).

Definition heading_step (cfg : UniformBodyVelocityCommandCfg)
    (data : RobotData) (self : UniformBodyVelocityCommand)
    : result UniformBodyVelocityCommand :=
  if heading_command cfg then
    let env_ids := Tensor.nonzero (is_heading_env self) in
    target ← Tensor.index_select (heading_target self) env_ids;
    yaw ← Tensor.index_select
            (math_utils.euler_z_from_quat <$> body_quat_w data) env_ids;
    ang ← Tensor.map2 (heading_ang_vel cfg) target yaw;
    c ← Tensor.index_put set_vz (vel_command_b self) env_ids ang;
    Ok (with_vel_command_b self c)
  else Ok self.

Definition _update_command (cfg : UniformBodyVelocityCommandCfg)
    (data : RobotData) (self : UniformBodyVelocityCommand)
    : result UniformBodyVelocityCommand :=
  self ← heading_step cfg data self;
  standing_step self.

End Extension.

(** ** The statements of the specification that the code is compared with *)

(** A command within the configured ranges, axis by axis. *)
Definition in_bounds (cfg : UniformBodyVelocityCommandCfg) (v : vec3) : Prop :=
  fst (lin_vel_x (ranges cfg)) <= vx v <= snd (lin_vel_x (ranges cfg)) /\
  fst (lin_vel_y (ranges cfg)) <= vy v <= snd (lin_vel_y (ranges cfg)) /\
  fst (ang_vel_z (ranges cfg)) <= vz v <= snd (ang_vel_z (ranges cfg)).

(** The metric update as the specification words it (4.4): both error
    terms compare the command with the velocity measured in the desired
    frame. *)
Definition spec_update_metrics (cfg : UniformBodyVelocityCommandCfg)
    (env : Env) (data : RobotData) (self : UniformBodyVelocityCommand)
    : result UniformBodyVelocityCommand :=
  steps ← max_command_step cfg env;
  body_lin_vel_d ← _get_body_vel_d cfg data (body_lin_vel_w data);
  body_ang_vel_d ← _get_body_vel_d cfg data (body_ang_vel_w data);
  dxy ← Tensor.map2 err_xy (vel_command_b self) body_lin_vel_d;
  exy ← Tensor.map2 Rplus (error_vel_xy self) ((fun e => e / steps) <$> dxy);
  dyaw ← Tensor.map2 err_yaw (vel_command_b self) body_ang_vel_d;
  eyaw ← Tensor.map2 Rplus (error_vel_yaw self)
           ((fun e => e / steps) <$> dyaw);
  Ok (with_metrics self exy eyaw).

(** The values of [vals] written at index [j] by a scatter over [ids], in
    the order of writing. *)
Fixpoint hits {B} (j : nat) (ids : list nat) (vals : list B) : list B :=
  match ids, vals with
  | i :: ids', v :: vals' =>
      if decide (i = j) then v :: hits j ids' vals' else hits j ids' vals'
  | _, _ => []
  end.

(** The entries of one environment, over all buffers. *)
Definition same_entry (j : nat) (self self' : UniformBodyVelocityCommand)
    : Prop :=
  vel_command_b self' !! j = vel_command_b self !! j /\
  heading_target self' !! j = heading_target self !! j /\
  is_heading_env self' !! j = is_heading_env self !! j /\
  is_standing_env self' !! j = is_standing_env self !! j /\
  error_vel_xy self' !! j = error_vel_xy self !! j /\
  error_vel_yaw self' !! j = error_vel_yaw self !! j.

(** The metrics after one call, from the command and the two velocities
    that the error terms read. *)
Definition accumulate (steps : R) (self : UniformBodyVelocityCommand)
    (lin ang : list vec3) : UniformBodyVelocityCommand :=
  with_metrics self
    (zip_with Rplus (error_vel_xy self)
       ((fun e => e / steps) <$> zip_with err_xy (vel_command_b self) lin))
    (zip_with Rplus (error_vel_yaw self)
       ((fun e => e / steps) <$> zip_with err_yaw (vel_command_b self) ang)).

(** The unit samples of a call lie in [0, 1). *)
Definition unit_call (c : call) : Prop :=
  match c with
  | Resample _ d =>
      (forall p, 0 <= u_lin_vel_x d p < 1) /\
      (forall p, 0 <= u_lin_vel_y d p < 1) /\
      (forall p, 0 <= u_ang_vel_z d p < 1)
  | _ => True
  end.

(** The command of environment [i] lies within the ranges, or the
    environment stands and its command is zero. *)
Definition bounded (cfg : UniformBodyVelocityCommandCfg)
    (self : UniformBodyVelocityCommand) (i : nat) : Prop :=
  forall v, vel_command_b self !! i = Some v ->
    in_bounds cfg v \/
    (v = zero3 /\ is_standing_env self !! i = Some true).

(** Quaternions of norm 1, the orientations. *)
Definition unit_quat (q : quat) : Prop :=
  qw q * qw q + qx q * qx q + qy q * qy q + qz q * qz q = 1.

(** The product of a matrix and a vector. *)
Definition mat_apply (m : mat3) (v : vec3) : vec3 :=
  Vec3 (math_utils.dot (row0 m) v) (math_utils.dot (row1 m) v)
       (math_utils.dot (row2 m) v).

(** The claim of the specification on the filter constructor: a smoothing
    factor is rejected. *)
Definition filter_rejects (a : R) : Prop :=
  exists e, Extension.LowPassFilter.__init__ a = Raise e.

(** ** Concrete configurations and states *)

Module Examples.

(** The ranges of the play configuration of [rough_env_cfg.py]. *)
Definition play_ranges : Ranges :=
  {| lin_vel_x := (1 / 10, 1 / 10);
     lin_vel_y := (0, 0);
     ang_vel_z := (0, 0);
     heading := Some (- PI, PI) |}.

(** The play configuration: heading mode off, 2% standing. *)
Definition play_cfg : UniformBodyVelocityCommandCfg :=
  {| asset_name := "robot";
     body_name := "leg1link4";
     resampling_time_range := (5, 15);
     rel_standing_envs := 2 / 100;
     rel_heading_envs := 1;
     heading_command := false;
     heading_control_stiffness := 1 / 2;
     ranges := play_ranges |}.

(** The command configuration of [vehicle_env_cfg.py], on a reference
    link of the frame correction: heading mode on. *)
Definition vehicle_cfg : UniformBodyVelocityCommandCfg :=
  {| asset_name := "robot";
     body_name := "leg1link4";
     resampling_time_range := (10, 10);
     rel_standing_envs := 2 / 100;
     rel_heading_envs := 1;
     heading_command := true;
     heading_control_stiffness := 1 / 2;
     ranges := {| lin_vel_x := (1 / 2, 1 / 2);
                  lin_vel_y := (- (1 / 2), 1 / 2);
                  ang_vel_z := (0, 0);
                  heading := Some (0, 0) |} |}.

(** Heading mode on without a heading range. *)
Definition no_range_cfg : UniformBodyVelocityCommandCfg :=
  {| asset_name := "robot";
     body_name := "leg1link4";
     resampling_time_range := (10, 10);
     rel_standing_envs := 2 / 100;
     rel_heading_envs := 1;
     heading_command := true;
     heading_control_stiffness := 1 / 2;
     ranges := {| lin_vel_x := (1 / 2, 1 / 2);
                  lin_vel_y := (- (1 / 2), 1 / 2);
                  ang_vel_z := (0, 0);
                  heading := None |} |}.

(** Two environments; 200 steps in the longest interval of
    [vehicle_cfg]. *)
Definition env2 : Env := {| num_envs := 2; step_dt := 1 / 20 |}.

(** Both bodies at the identity orientation and at rest, except for a
    roll rate of the first. *)
Definition data2 : RobotData :=
  {| body_quat_w := [Quat 1 0 0 0; Quat 1 0 0 0];
     body_lin_vel_w := [zero3; zero3];
     body_ang_vel_w := [Vec3 1 0 0; zero3] |}.

(** Commands sampled from [play_ranges]; the first environment stands. *)
Definition standing_self : UniformBodyVelocityCommand :=
  {| vel_command_b := [Vec3 (1 / 10) 0 0; Vec3 (1 / 10) 0 0];
     heading_target := [0; 0];
     is_heading_env := [false; false];
     is_standing_env := [true; false];
     error_vel_xy := [0; 0];
     error_vel_yaw := [0; 0] |}.

(** Commands sampled from the ranges of [vehicle_cfg]; the first
    environment is heading-controlled and stands. *)
Definition heading_self : UniformBodyVelocityCommand :=
  {| vel_command_b := [Vec3 (1 / 2) 0 0; Vec3 (1 / 2) (1 / 4) 0];
     heading_target := [0; 0];
     is_heading_env := [true; false];
     is_standing_env := [true; false];
     error_vel_xy := [0; 0];
     error_vel_yaw := [0; 0] |}.

(** The forward command (1, 0) with zeroed metrics. *)
Definition forward_self : UniformBodyVelocityCommand :=
  {| vel_command_b := [Vec3 1 0 0; Vec3 1 0 0];
     heading_target := [0; 0];
     is_heading_env := [false; false];
     is_standing_env := [false; false];
     error_vel_xy := [0; 0];
     error_vel_yaw := [0; 0] |}.

(** A generator at rest: zero command, zeroed metrics. *)
Definition rest_self : UniformBodyVelocityCommand :=
  {| vel_command_b := [zero3; zero3];
     heading_target := [0; 0];
     is_heading_env := [false; false];
     is_standing_env := [false; false];
     error_vel_xy := [0; 0];
     error_vel_yaw := [0; 0] |}.

(** Unit samples that are all one half. *)
Definition half_draws : Draws :=
  {| u_lin_vel_x := fun _ => 1 / 2;
     u_lin_vel_y := fun _ => 1 / 2;
     u_ang_vel_z := fun _ => 1 / 2;
     u_heading := fun _ => 1 / 2;
     u_is_heading := fun _ => 1 / 2;
     u_is_standing := fun _ => 1 / 2 |}.

End Examples.

(** ** The metrics and the filter in IEEE arithmetic

    The embedding above reads floats as real numbers. Where rounding
    decides a property, the two accumulating computations of the source
    are embedded a second time, in the arithmetic that the source runs
    them in: [spec_float] with [SFadd], [SFmul], [SFdiv] and [SFsqrt], the
    IEEE 754 specification of the Standard Library (round to nearest, ties
    to even), at the precision of each value. *)

Module Float64.

(** A Python float: binary64. *)
Definition prec : Z := 53.
Definition emax : Z := 1024.

Definition of_Z (n : Z) : spec_float := binary_normalize prec emax n 0 false.

Definition add : spec_float -> spec_float -> spec_float := SFadd prec emax.
Definition sub : spec_float -> spec_float -> spec_float := SFsub prec emax.
Definition mul : spec_float -> spec_float -> spec_float := SFmul prec emax.
Definition div : spec_float -> spec_float -> spec_float := SFdiv prec emax.

(** The literal [n / 10 ^ k] of a Python source, [1 / 10 ^ 1] for [0.1]:
    the float nearest to the decimal, which is the correctly rounded
    quotient of the two integers while both are below [2 ^ 53]. *)
Definition decimal (n : Z) (k : nat) : spec_float :=
  div (of_Z n) (of_Z (10 ^ Z.of_nat k)).

Module LowPassFilter.

Record t : Type := { alpha : spec_float; prev_value : option spec_float }.

Definition __init__ (alpha : spec_float) : result t :=
  Ok {| alpha := alpha; prev_value := None |}.

(** [LowPassFilter.apply] on Python floats: every [*], [-] and [+] of
    [self.alpha * value + (1 - self.alpha) * self.prev_value] rounds. *)
Definition apply (self : t) (value : spec_float) : t * spec_float :=
  let prev :=
    match prev_value self with
    | None => value
    | Some prev =>
        add (mul (alpha self) value) (mul (sub (of_Z 1) (alpha self)) prev)
    end in
  ({| alpha := alpha self; prev_value := Some prev |}, prev).

End LowPassFilter.

(** Successive [apply] calls: the filter after them and the values
    returned, in order. *)
Fixpoint apply_all (f : LowPassFilter.t) (values : list spec_float)
    : LowPassFilter.t * list spec_float :=
  match values with
  | [] => (f, [])
  | x :: values' =>
      let '(f1, y) := LowPassFilter.apply f x in
      let '(f2, ys) := apply_all f1 values' in
      (f2, y :: ys)
  end.

End Float64.

Module Float32.

(** An entry of a tensor of torch's default dtype, the one of
    [torch.zeros(self.num_envs, device=self.device)]: binary32. *)
Definition prec : Z := 24.
Definition emax : Z := 128.

Definition of_Z (n : Z) : spec_float := binary_normalize prec emax n 0 false.

Definition add : spec_float -> spec_float -> spec_float := SFadd prec emax.
Definition sub : spec_float -> spec_float -> spec_float := SFsub prec emax.
Definition mul : spec_float -> spec_float -> spec_float := SFmul prec emax.
Definition div : spec_float -> spec_float -> spec_float := SFdiv prec emax.
Definition sqrt : spec_float -> spec_float := SFsqrt prec emax.

(** A Python float as the scalar operand of a binary32 tensor: rounded to
    binary32. *)
Definition of_float64 (x : spec_float) : spec_float :=
  match x with
  | S754_finite s m e => binary_normalize prec emax (cond_Zopp s (Zpos m)) e s
  | _ => x
  end.

(** A zero of either sign. *)
Definition is_zero (x : spec_float) : bool :=
  match x with
  | S754_zero _ => true
  | _ => false
  end.

(** Zero or finite: neither an infinity nor a NaN. *)
Definition is_finite (x : spec_float) : bool :=
  match x with
  | S754_zero _ | S754_finite _ _ _ => true
  | _ => false
  end.

(** The real number that a finite float stands for. *)
Definition to_R (x : spec_float) : R :=
  match x with
  | S754_finite s m e => IZR (cond_Zopp s (Zpos m)) * powerRZ 2 e
  | _ => 0
  end.

Record vec3 : Type :=
  Vec3 { vx : spec_float; vy : spec_float; vz : spec_float }.

(** The buffers of the generator that [_update_metrics] reads and
    writes. *)
Record UniformBodyVelocityCommand : Type := {
  vel_command_b : list vec3;
  error_vel_xy : list spec_float;
  error_vel_yaw : list spec_float
}.

(** [torch.norm(cmd[:2] - vel[:2])] and [torch.abs(cmd[2] - vel[2])] of
    one environment. *)
Definition err_xy (cmd vel : vec3) : spec_float :=
  let dx := sub (vx cmd) (vx vel) in
  let dy := sub (vy cmd) (vy vel) in
  sqrt (add (mul dx dx) (mul dy dy)).

Definition err_yaw (cmd vel : vec3) : spec_float :=
  SFabs (sub (vz cmd) (vz vel)).

(** [max_command_time / self._env.step_dt], a division of Python floats,
    which raises on a zero divisor of either sign. *)
Definition max_command_step (max_command_time step_dt : spec_float)
    : result spec_float :=
  if SFeqb step_dt (S754_zero false) then Raise ZeroDivisionError
  else Ok (Float64.div max_command_time step_dt).

(** [_update_metrics] from the point where the velocities are at hand:
    [body_lin_vel_d] is what [_get_body_vel_d] returned and [body_ang_vel_w]
    the angular velocity of the reference body, binary32 tensors both (the
    rotation helpers of [math_utils] are not among the sources, so their
    rounding is not modelled). The Python float [max_command_step] divides
    a binary32 tensor as a binary32 scalar, and each [+=] rounds the sum
    into the binary32 buffer. *)
Definition _update_metrics (max_command_time step_dt : spec_float)
    (body_lin_vel_d body_ang_vel_w : list vec3)
    (self : UniformBodyVelocityCommand) : result UniformBodyVelocityCommand :=
  steps ← max_command_step max_command_time step_dt;
  let steps := of_float64 steps in
  dxy ← Tensor.map2 err_xy (vel_command_b self) body_lin_vel_d;
  exy ← Tensor.map2 add (error_vel_xy self)
          ((fun e => div e steps) <$> dxy);
  dyaw ← Tensor.map2 err_yaw (vel_command_b self) body_ang_vel_w;
  eyaw ← Tensor.map2 add (error_vel_yaw self)
           ((fun e => div e steps) <$> dyaw);
  Ok {| vel_command_b := vel_command_b self;
        error_vel_xy := exy;
        error_vel_yaw := eyaw |}.

(** [k] consecutive calls with command and velocities held. *)
Fixpoint run_metrics (k : nat) (max_command_time step_dt : spec_float)
    (body_lin_vel_d body_ang_vel_w : list vec3)
    (self : UniformBodyVelocityCommand) : result UniformBodyVelocityCommand :=
  match k with
  | O => Ok self
  | S k' =>
      self' ← _update_metrics max_command_time step_dt
                body_lin_vel_d body_ang_vel_w self;
      run_metrics k' max_command_time step_dt body_lin_vel_d body_ang_vel_w
        self'
  end.

(** All buffers hold [n] environments. *)
Definition well_shaped (n : nat) (self : UniformBodyVelocityCommand) : Prop :=
  length (vel_command_b self) = n /\
  length (error_vel_xy self) = n /\
  length (error_vel_yaw self) = n.

(** The forward command (1, 0) with zeroed metrics, and two bodies at
    rest. *)
Definition forward_self : UniformBodyVelocityCommand :=
  {| vel_command_b := [Vec3 (of_Z 1) (of_Z 0) (of_Z 0);
                       Vec3 (of_Z 1) (of_Z 0) (of_Z 0)];
     error_vel_xy := [of_Z 0; of_Z 0];
     error_vel_yaw := [of_Z 0; of_Z 0] |}.

Definition at_rest : list vec3 :=
  [Vec3 (of_Z 0) (of_Z 0) (of_Z 0); Vec3 (of_Z 0) (of_Z 0) (of_Z 0)].

(** One environment whose planar metric has reached 1.0 and whose command
    is [2 ^ -20] m/s forwards. *)
Definition creeping_self : UniformBodyVelocityCommand :=
  {| vel_command_b :=
       [Vec3 (S754_finite false 8388608 (-43)) (of_Z 0) (of_Z 0)];
     error_vel_xy := [of_Z 1];
     error_vel_yaw := [of_Z 0] |}.

End Float32.

(** ** The extension's configuration

    The command configuration of the extension's [vehicle_env_cfg.py]:
    heading mode on, reference link [leg1link1], a link that the frame
    correction of the newer module does not know. *)
Definition extension_vehicle_cfg : UniformBodyVelocityCommandCfg :=
  {| asset_name := "robot";
     body_name := "leg1link1";
     resampling_time_range := (10, 10);
     rel_standing_envs := 2 / 100;
     rel_heading_envs := 1;
     heading_command := true;
     heading_control_stiffness := 1 / 2;
     ranges := {| lin_vel_x := (1 / 2, 1 / 2);
                  lin_vel_y := (- (1 / 2), 1 / 2);
                  ang_vel_z := (0, 0);
                  heading := Some (0, 0) |} |}.

(** Commands sampled from the ranges of [vehicle_cfg]; the first
    environment is heading-controlled, none stands. *)
Definition turning_self : UniformBodyVelocityCommand :=
  {| vel_command_b := [Vec3 (1 / 2) 0 0; Vec3 (1 / 2) (1 / 4) 0];
     heading_target := [0; 0];
     is_heading_env := [true; false];
     is_standing_env := [false; false];
     error_vel_xy := [0; 0];
     error_vel_yaw := [0; 0] |}.

(** ** Successive calls of the filter

    [LowPassFilter.apply] called on the values of a list, one call after
    the other on the same filter object: the filter after the last call
    and the values returned, in order. *)
Fixpoint apply_all (self : Extension.LowPassFilter.t) (values : list R)
    : Extension.LowPassFilter.t * list R :=
  match values with
  | [] => (self, [])
  | value :: values' =>
      let (self1, out) := Extension.LowPassFilter.apply self value in
      let (self', outs) := apply_all self1 values' in
      (self', out :: outs)
  end.

(** ** The yaw helper of the extension

    [quaternion_to_yaw_torch], a function of the extension's
    [velocity_command.py], on one quaternion of the batch. *)
Definition quaternion_to_yaw_torch (q : quat) : R :=
  let '(Quat w x y z) := q in
  math_utils.atan2 (2 * (w * z + x * y)) (1 - 2 * (y ^ 2 + z ^ 2)).

(** ** The debug visualisation markers

    What [_set_debug_vis_impl] reads and writes of the object: the two
    marker attributes, each missing ([None], [hasattr] is false) or
    holding a [VisualizationMarkers] object, of which the visibility is
    kept, and the number of marker objects constructed so far. *)
Record Visualizers : Type := {
  goal_vel_visualizer : option bool;
  current_vel_visualizer : option bool;
  markers_constructed : nat
}.

(** The object as [__init__] leaves it: no marker attribute. *)
Definition no_visualizers : Visualizers :=
  {| goal_vel_visualizer := None;
     current_vel_visualizer := None;
     markers_constructed := 0 |}.

(** The outcome of a call: the object after it, or the [AttributeError]
    of reading an attribute that is missing. *)
Inductive vis_result : Type :=
  | VisOk (self : Visualizers)
  | AttributeError.

(** [_set_debug_vis_impl]. The constructor of [VisualizationMarkers] is
    taken to return; [fresh] is the visibility of a marker as
    constructed. *)
Definition _set_debug_vis_impl (fresh : bool) (self : Visualizers)
    (debug_vis : bool) : vis_result :=
  if debug_vis then
    let self :=
      if is_none (goal_vel_visualizer self) then
        {| goal_vel_visualizer := Some fresh;
           current_vel_visualizer := Some fresh;
           markers_constructed := markers_constructed self + 2 |}
      else self in
    match goal_vel_visualizer self, current_vel_visualizer self with
    | Some _, Some _ =>
        VisOk {| goal_vel_visualizer := Some true;
                 current_vel_visualizer := Some true;
                 markers_constructed := markers_constructed self |}
    | _, _ => AttributeError
    end
  else if negb (is_none (goal_vel_visualizer self)) then
    match current_vel_visualizer self with
    | Some _ =>
        VisOk {| goal_vel_visualizer := Some false;
                 current_vel_visualizer := Some false;
                 markers_constructed := markers_constructed self |}
    | None => AttributeError
    end
  else VisOk self.

(** Successive calls of [_set_debug_vis_impl] on the same object. *)
Fixpoint set_debug_vis_all (fresh : bool) (self : Visualizers)
    (calls : list bool) : vis_result :=
  match calls with
  | [] => VisOk self
  | debug_vis :: calls' =>
      match _set_debug_vis_impl fresh self debug_vis with
      | VisOk self' => set_debug_vis_all fresh self' calls'
      | AttributeError => AttributeError
      end
  end.

(** * Properties *)

(** ** The [result] monad *)

Lemma bind_Ok {A B} (m : result A) (f : A -> result B) (b : B) :
  m ≫= f = Ok b <-> exists a, m = Ok a /\ f a = Ok b.
Proof.
  destruct m as [a|e]; unfold mbind, result_bind; split.
  - intros H; exists a; done.
  - intros (a' & [= <-] & H); done.
  - intros H; discriminate H.
  - intros (a' & H & _); discriminate H.
Qed.

Lemma bind_Ok_l {A B} (a : A) (f : A -> result B) : Ok a ≫= f = f a.
Proof. reflexivity. Qed.

Lemma bind_Raise {A B} (m : result A) (f : A -> result B) (e : exn) :
  m ≫= f = Raise e <->
  m = Raise e \/ exists a, m = Ok a /\ f a = Raise e.
Proof.
  destruct m as [a|e']; unfold mbind, result_bind; split.
  - intros H; right; exists a; done.
  - intros [H|(a' & [= <-] & H)]; [discriminate H|done].
  - intros [= ->]; left; done.
  - intros [[= ->]|(a' & H & _)]; [done|discriminate H].
Qed.

(** Splits a hypothesis [x ← m; k = Ok b] into its first step, named
    [H1] with result [a], and the rest, which keeps the name. *)
Tactic Notation "inv_bind" hyp(H) "as" ident(a) ident(H1) :=
  apply bind_Ok in H; destruct H as (a & H1 & H).

(** ** Tensor operations *)

Section tensor_lemmas.
Context {A B C : Type}.
Implicit Types (t : list A) (ids : list nat) (mask : list bool).

Lemma elem_of_nonzero_from k mask i :
  i ∈ Tensor.nonzero_from k mask <->
  (k <= i)%nat /\ mask !! (i - k)%nat = Some true.
Proof.
  revert k; induction mask as [|b mask IH]; intros k; simpl.
  - rewrite elem_of_nil, lookup_nil. split; [tauto|].
    intros [_ H]; discriminate H.
  - assert (Hstep : (S k <= i)%nat /\ mask !! (i - S k)%nat = Some true <->
                    (k <= i)%nat /\ i <> k /\
                    (b :: mask) !! (i - k)%nat = Some true).
    { split.
      - intros [Hle Hl]. split; [lia|]. split; [lia|].
        replace (i - k)%nat with (S (i - S k)) by lia. done.
      - intros (Hle & Hne & Hl). split; [lia|].
        replace (i - k)%nat with (S (i - S k)) in Hl by lia. done. }
    destruct b.
    + rewrite elem_of_cons, IH, Hstep.
      split.
      * intros [->|(? & ? & ?)]; [|done].
        split; [lia|]. by rewrite Nat.sub_diag.
      * intros [Hle Hl]. destruct (decide (i = k)) as [->|Hne]; [by left|].
        right; done.
    + rewrite IH, Hstep. split; [tauto|].
      intros [Hle Hl]. split; [done|]. split; [|done].
      intros ->. rewrite Nat.sub_diag in Hl. discriminate Hl.
Qed.

Lemma elem_of_nonzero mask i :
  i ∈ Tensor.nonzero mask <-> mask !! i = Some true.
Proof.
  unfold Tensor.nonzero. rewrite elem_of_nonzero_from, Nat.sub_0_r.
  split; [tauto|]. intros H; split; [lia|done].
Qed.

Lemma NoDup_nonzero_from k mask : NoDup (Tensor.nonzero_from k mask).
Proof.
  revert k; induction mask as [|b mask IH]; intros k; simpl.
  - constructor.
  - destruct b; [|apply IH]. constructor; [|apply IH].
    rewrite elem_of_nonzero_from. lia.
Qed.

Lemma NoDup_nonzero mask : NoDup (Tensor.nonzero mask).
Proof. apply NoDup_nonzero_from. Qed.

Lemma nonzero_lt mask :
  Forall (fun i => (i < length mask)%nat) (Tensor.nonzero mask).
Proof.
  apply Forall_forall. intros i Hi. apply elem_of_nonzero in Hi.
  by apply lookup_lt_Some in Hi.
Qed.

Lemma index_select_Ok t ids (vs : list A) :
  Tensor.index_select t ids = Ok vs <->
  Forall2 (fun i v => t !! i = Some v) ids vs.
Proof.
  revert vs; induction ids as [|i ids IH]; intros vs; simpl.
  - split.
    + intros [= <-]. constructor.
    + intros H. by inversion H.
  - destruct (t !! i) as [a|] eqn:Hi.
    + rewrite bind_Ok. split.
      * intros (rest & Hrest & [= <-]). constructor; [done|]. by apply IH.
      * intros H. inversion H as [|? v ? vs' Hv Hvs]; subst.
        exists vs'. split; [by apply IH|]. congruence.
    + split; [discriminate|].
      intros H. inversion H; subst. congruence.
Qed.

Lemma index_select_total t ids :
  Forall (fun i => (i < length t)%nat) ids ->
  exists vs, Tensor.index_select t ids = Ok vs.
Proof.
  induction 1 as [|i ids Hi _ [vs IH]]; simpl.
  - by exists [].
  - apply lookup_lt_is_Some in Hi as [a Ha]. rewrite Ha, IH. simpl.
    by eexists.
Qed.

Lemma map2_Ok (f : A -> B -> C) (l1 : list A) (l2 : list B) (l : list C) :
  Tensor.map2 f l1 l2 = Ok l <->
  length l1 = length l2 /\ l = zip_with f l1 l2.
Proof.
  revert l2 l; induction l1 as [|a l1 IH]; intros [|b l2] l; simpl;
    try (split; [discriminate|intros [[=] _]]).
  - split; [intros [= <-]; done|intros [_ ->]; done].
  - rewrite bind_Ok. split.
    + intros (rest & Hrest & [= <-]). apply IH in Hrest as [-> ->]. done.
    + intros [[= Hlen] ->]. exists (zip_with f l1 l2). split; [|done].
      by apply IH.
Qed.

Lemma map2_total (f : A -> B -> C) (l1 : list A) (l2 : list B) :
  length l1 = length l2 ->
  Tensor.map2 f l1 l2 = Ok (zip_with f l1 l2).
Proof. intros H. by apply map2_Ok. Qed.

Lemma index_put_length (upd : A -> B -> A) t ids (vals : list B) t' :
  Tensor.index_put upd t ids vals = Ok t' -> length t' = length t.
Proof.
  revert t vals; induction ids as [|i ids IH]; intros t [|v vals] H;
    simpl in H; try discriminate H.
  - by injection H as <-.
  - destruct (t !! i) as [a|]; [|discriminate H].
    apply IH in H. by rewrite length_insert in H.
Qed.

Lemma index_put_lookup (upd : A -> B -> A) t ids (vals : list B) t' j :
  Tensor.index_put upd t ids vals = Ok t' ->
  t' !! j = (fun a => foldl upd a (hits j ids vals)) <$> t !! j.
Proof.
  revert t vals; induction ids as [|i ids IH]; intros t [|v vals] H;
    simpl in H; try discriminate H.
  - injection H as <-. simpl. by destruct (t !! j).
  - destruct (t !! i) as [a|] eqn:Hi; [|discriminate H].
    apply IH in H. rewrite H. simpl. destruct (decide (i = j)) as [->|Hne].
    + rewrite list_lookup_insert_eq by (by eapply lookup_lt_Some).
      by rewrite Hi.
    + by rewrite list_lookup_insert_ne.
Qed.

Lemma index_put_total (upd : A -> B -> A) t ids (vals : list B) :
  Forall (fun i => (i < length t)%nat) ids ->
  length vals = length ids ->
  exists t', Tensor.index_put upd t ids vals = Ok t'.
Proof.
  intros Hids; revert t vals Hids.
  induction ids as [|i ids IH]; intros t [|v vals] Hids Hlen;
    simpl in Hlen; try discriminate Hlen; simpl.
  - by eexists.
  - inversion Hids as [|? ? Hi Hids']; subst.
    apply lookup_lt_is_Some in Hi as [a Ha]. rewrite Ha.
    apply IH; [|lia].
    eapply Forall_impl; [exact Hids'|]. intros k Hk.
    by rewrite length_insert.
Qed.

Lemma hits_not_elem_of j ids (vals : list B) :
  j ∉ ids -> hits j ids vals = [].
Proof.
  revert vals; induction ids as [|i ids IH]; intros [|v vals] Hj;
    simpl; try done.
  apply not_elem_of_cons in Hj as [Hne Hj].
  destruct (decide (i = j)); [congruence|]. by apply IH.
Qed.

Lemma hits_elem_of j ids (vals : list B) v :
  v ∈ hits j ids vals ->
  exists p, ids !! p = Some j /\ vals !! p = Some v.
Proof.
  revert vals; induction ids as [|i ids IH]; intros [|v' vals] Hv;
    simpl in Hv; try (by apply elem_of_nil in Hv).
  destruct (decide (i = j)) as [->|Hne].
  - apply elem_of_cons in Hv as [->|Hv].
    + by exists 0%nat.
    + destruct (IH _ Hv) as (p & ? & ?). by exists (S p).
  - destruct (IH _ Hv) as (p & ? & ?). by exists (S p).
Qed.

Lemma hits_NoDup j ids (vals : list B) p v :
  NoDup ids -> ids !! p = Some j -> vals !! p = Some v ->
  hits j ids vals = [v].
Proof.
  intros Hnd; revert vals p; induction Hnd as [|i ids Hi Hnd IH];
    intros [|v' vals] p Hp Hv; try done.
  simpl. destruct p as [|p]; simpl in *.
  - injection Hp as ->. injection Hv as ->.
    rewrite decide_True by done. by rewrite hits_not_elem_of.
  - destruct (decide (i = j)) as [->|Hne].
    + exfalso. apply Hi. by eapply list_elem_of_lookup_2.
    + by eapply IH.
Qed.

End tensor_lemmas.

Lemma index_put_frame {A B} (upd : A -> B -> A) (t : list A) ids
    (vals : list B) t' j :
  Tensor.index_put upd t ids vals = Ok t' -> j ∉ ids -> t' !! j = t !! j.
Proof.
  intros H Hj. rewrite (index_put_lookup _ _ _ _ _ j H).
  rewrite hits_not_elem_of by done. simpl. by destruct (t !! j).
Qed.

(** A scatter at distinct indices writes, at each index of [ids], the value
    of the same position. *)
Lemma index_put_hit {A B} (upd : A -> B -> A) (t : list A) ids
    (vals : list B) t' p j a v :
  Tensor.index_put upd t ids vals = Ok t' -> NoDup ids ->
  ids !! p = Some j -> vals !! p = Some v -> t !! j = Some a ->
  t' !! j = Some (upd a v).
Proof.
  intros H Hnd Hp Hv Ha. rewrite (index_put_lookup _ _ _ _ _ j H).
  rewrite (hits_NoDup j ids vals p v) by done. by rewrite Ha.
Qed.

Lemma length_scaled u n range : length (scaled u n range) = n.
Proof. unfold scaled. by rewrite length_fmap, length_seq. Qed.

Lemma lookup_scaled u n range p x :
  scaled u n range !! p = Some x ->
  (p < n)%nat /\ x = fst range + (snd range - fst range) * u p.
Proof.
  unfold scaled. rewrite list_lookup_fmap. intros H.
  destruct (seq 0 n !! p) as [k|] eqn:Hk; [|discriminate H].
  apply lookup_seq in Hk as [-> Hp]. simpl in H. injection H as <-. done.
Qed.

Lemma Rleb_true (a b : R) : a <= b -> Rleb a b = true.
Proof. intros H. unfold Rleb. by destruct (Rle_dec a b). Qed.

Lemma Rleb_false (a b : R) : b < a -> Rleb a b = false.
Proof. intros H. unfold Rleb. destruct (Rle_dec a b); [lra|done]. Qed.

Lemma Rltb_false (a b : R) : b <= a -> Rltb a b = false.
Proof. intros H. unfold Rltb. destruct (Rlt_dec a b); [lra|done]. Qed.

Lemma uniform_Ok u n range r :
  uniform_ u n range = Ok r <-> range_ok range /\ r = scaled u n range.
Proof.
  unfold uniform_, Rltb, range_ok.
  destruct (Rlt_dec (snd range) (fst range)) as [Hlt|Hge]; split.
  - discriminate.
  - intros [H _]. lra.
  - intros [= <-]. split; [lra|done].
  - intros [_ ->]. done.
Qed.

Lemma uniform_unit u n : uniform_ u n (0, 1) = Ok (scaled u n (0, 1)).
Proof. apply uniform_Ok. split; [unfold range_ok; simpl; lra|done]. Qed.

Lemma uniform_Raise u n range e :
  uniform_ u n range = Raise e -> e = RuntimeError.
Proof.
  unfold uniform_. destruct (Rltb (snd range) (fst range)); [|discriminate].
  by intros [= <-].
Qed.

(** A unit sample scaled to a range with [lo <= hi] lies in the range. *)
Lemma scaled_in_range u n range :
  range_ok range -> (forall p, 0 <= u p < 1) ->
  Forall (fun x => fst range <= x <= snd range) (scaled u n range).
Proof.
  intros Hr Hu. apply Forall_forall. intros x Hx.
  apply list_elem_of_lookup_1 in Hx as [p Hp].
  apply lookup_scaled in Hp as [_ ->].
  unfold range_ok in Hr. destruct (Hu p) as [Hu0 Hu1]. split; nra.
Qed.

(** ** Construction *)

Lemma init_Ok cfg env self :
  __init__ cfg env = Ok self ->
  self = {| vel_command_b := replicate (num_envs env) zero3;
            heading_target := replicate (num_envs env) 0;
            is_heading_env := replicate (num_envs env) false;
            is_standing_env := replicate (num_envs env) false;
            error_vel_xy := replicate (num_envs env) 0;
            error_vel_yaw := replicate (num_envs env) 0 |} /\
  (heading_command cfg = true -> heading (ranges cfg) <> None).
Proof.
  unfold __init__. destruct (heading_command cfg) eqn:Hc;
    destruct (heading (ranges cfg)) as [range|] eqn:Hr; simpl;
    intros [= <-]; done.
Qed.

Lemma init_well_shaped cfg env self :
  __init__ cfg env = Ok self -> well_shaped (num_envs env) self.
Proof.
  intros H. apply init_Ok in H as [-> _].
  split; simpl; apply length_replicate.
Qed.

(** ** Resampling *)

Lemma resample_inv cfg self env_ids d self' :
  _resample_command cfg self env_ids d = Ok self' ->
  exists c1 c2,
    ranges_ok cfg /\
    Tensor.index_put set_vx (vel_command_b self) env_ids
      (scaled (u_lin_vel_x d) (length env_ids) (lin_vel_x (ranges cfg)))
      = Ok c1 /\
    Tensor.index_put set_vy c1 env_ids
      (scaled (u_lin_vel_y d) (length env_ids) (lin_vel_y (ranges cfg)))
      = Ok c2 /\
    Tensor.index_put set_vz c2 env_ids
      (scaled (u_ang_vel_z d) (length env_ids) (ang_vel_z (ranges cfg)))
      = Ok (vel_command_b self') /\
    (if heading_command cfg then
       exists range, heading (ranges cfg) = Some range /\
         Tensor.index_put (fun _ v => v) (heading_target self) env_ids
           (scaled (u_heading d) (length env_ids) range)
           = Ok (heading_target self') /\
         Tensor.index_put (fun _ b => b) (is_heading_env self) env_ids
           ((fun u => Rleb u (rel_heading_envs cfg))
              <$> scaled (u_is_heading d) (length env_ids) (0, 1))
           = Ok (is_heading_env self')
     else heading_target self' = heading_target self /\
          is_heading_env self' = is_heading_env self) /\
    Tensor.index_put (fun _ b => b) (is_standing_env self) env_ids
      ((fun u => Rleb u (rel_standing_envs cfg))
         <$> scaled (u_is_standing d) (length env_ids) (0, 1))
      = Ok (is_standing_env self') /\
    error_vel_xy self' = error_vel_xy self /\
    error_vel_yaw self' = error_vel_yaw self.
Proof.
  unfold _resample_command. intros H.
  inv_bind H as r1 Hr1. apply uniform_Ok in Hr1 as [Hx ->].
  inv_bind H as c1 H1.
  inv_bind H as r2 Hr2. apply uniform_Ok in Hr2 as [Hy ->].
  inv_bind H as c2 H2.
  inv_bind H as r3 Hr3. apply uniform_Ok in Hr3 as [Hz ->].
  inv_bind H as c3 H3.
  inv_bind H as s1 H4.
  inv_bind H as r6 Hr6. apply uniform_Ok in Hr6 as [_ ->].
  inv_bind H as m H5. injection H as <-.
  exists c1, c2. unfold ranges_ok.
  destruct (heading_command cfg).
  - destruct (heading (ranges cfg)) as [range|]; [|discriminate H4].
    inv_bind H4 as r4 Hr4. apply uniform_Ok in Hr4 as [Hh ->].
    inv_bind H4 as h H6.
    inv_bind H4 as r5 Hr5. apply uniform_Ok in Hr5 as [_ ->].
    inv_bind H4 as mh H7. injection H4 as <-.
    simpl. repeat split; try done.
    + by intros _ range' [= <-].
    + exists range. done.
  - injection H4 as <-. simpl. done.
Qed.

Lemma resample_frame cfg self env_ids d self' j :
  _resample_command cfg self env_ids d = Ok self' ->
  j ∉ env_ids -> same_entry j self self'.
Proof.
  intros H Hj.
  destruct (resample_inv _ _ _ _ _ H)
    as (c1 & c2 & _ & H1 & H2 & H3 & H4 & H5 & Hxy & Hyaw).
  unfold same_entry. rewrite Hxy, Hyaw.
  rewrite (index_put_frame _ _ _ _ _ j H3 Hj),
    (index_put_frame _ _ _ _ _ j H2 Hj), (index_put_frame _ _ _ _ _ j H1 Hj),
    (index_put_frame _ _ _ _ _ j H5 Hj).
  destruct (heading_command cfg).
  - destruct H4 as (range & _ & H6 & H7).
    rewrite (index_put_frame _ _ _ _ _ j H6 Hj),
      (index_put_frame _ _ _ _ _ j H7 Hj). done.
  - destruct H4 as [-> ->]. done.
Qed.

Lemma resample_well_shaped cfg n self env_ids d self' :
  _resample_command cfg self env_ids d = Ok self' ->
  well_shaped n self -> well_shaped n self'.
Proof.
  intros H [Hv Ht Hh Hs Hx Hy].
  destruct (resample_inv _ _ _ _ _ H)
    as (c1 & c2 & _ & H1 & H2 & H3 & H4 & H5 & Hxy & Hyaw).
  apply index_put_length in H1, H2, H3, H5.
  split; try congruence.
  - destruct (heading_command cfg).
    + destruct H4 as (range & _ & H6 & _).
      apply index_put_length in H6. congruence.
    + destruct H4 as [-> _]. done.
  - destruct (heading_command cfg).
    + destruct H4 as (range & _ & _ & H7).
      apply index_put_length in H7. congruence.
    + destruct H4 as [_ ->]. done.
Qed.

Lemma resample_total cfg n self env_ids d :
  well_shaped n self ->
  Forall (fun i => (i < n)%nat) env_ids ->
  (heading_command cfg = true -> heading (ranges cfg) <> None) ->
  ranges_ok cfg ->
  exists self', _resample_command cfg self env_ids d = Ok self'.
Proof.
  intros [Hv Ht Hh Hs Hx Hy] Hids Hcfg (Hrx & Hry & Hrz & Hrh).
  unfold _resample_command.
  assert (Hu : forall u range, range_ok range ->
             uniform_ u (length env_ids) range
             = Ok (scaled u (length env_ids) range)).
  { intros u range Hr. by apply uniform_Ok. }
  rewrite (Hu _ _ Hrx), bind_Ok_l.
  destruct (index_put_total set_vx (vel_command_b self) env_ids
              (scaled (u_lin_vel_x d) (length env_ids)
                 (lin_vel_x (ranges cfg)))) as [c1 H1].
  { by rewrite Hv. } { apply length_scaled. }
  rewrite H1, bind_Ok_l, (Hu _ _ Hry), bind_Ok_l.
  destruct (index_put_total set_vy c1 env_ids
              (scaled (u_lin_vel_y d) (length env_ids)
                 (lin_vel_y (ranges cfg)))) as [c2 H2].
  { by rewrite (index_put_length _ _ _ _ _ H1), Hv. }
  { apply length_scaled. }
  rewrite H2, bind_Ok_l, (Hu _ _ Hrz), bind_Ok_l.
  destruct (index_put_total set_vz c2 env_ids
              (scaled (u_ang_vel_z d) (length env_ids)
                 (ang_vel_z (ranges cfg)))) as [c3 H3].
  { by rewrite (index_put_length _ _ _ _ _ H2),
      (index_put_length _ _ _ _ _ H1), Hv. }
  { apply length_scaled. }
  rewrite H3, bind_Ok_l.
  assert (Hst : forall s : UniformBodyVelocityCommand,
             is_standing_env s = is_standing_env self ->
             exists m, Tensor.index_put (fun _ b => b) (is_standing_env s)
                         env_ids
                         ((fun u => Rleb u (rel_standing_envs cfg))
                            <$> scaled (u_is_standing d) (length env_ids)
                                  (0, 1)) = Ok m).
  { intros s ->. apply index_put_total; [by rewrite Hs|].
    by rewrite length_fmap, length_scaled. }
  destruct (heading_command cfg).
  - destruct (heading (ranges cfg)) as [range|]; [|by destruct Hcfg].
    destruct (index_put_total (fun _ (v : R) => v) (heading_target self)
                env_ids (scaled (u_heading d) (length env_ids) range))
      as [h H6].
    { by rewrite Ht. } { apply length_scaled. }
    destruct (index_put_total (fun _ (b : bool) => b) (is_heading_env self)
                env_ids
                ((fun u => Rleb u (rel_heading_envs cfg))
                   <$> scaled (u_is_heading d) (length env_ids) (0, 1)))
      as [mh H7].
    { by rewrite Hh. } { by rewrite length_fmap, length_scaled. }
    simpl. rewrite (Hu _ _ (Hrh eq_refl range eq_refl)), bind_Ok_l.
    rewrite H6, bind_Ok_l, (uniform_unit (u_is_heading d)), bind_Ok_l.
    rewrite H7, !bind_Ok_l, uniform_unit, bind_Ok_l.
    edestruct Hst as [m H5]; [|rewrite H5, bind_Ok_l; by eexists]. done.
  - rewrite bind_Ok_l, uniform_unit, bind_Ok_l.
    edestruct Hst as [m H5]; [|rewrite H5, bind_Ok_l; by eexists]. done.
Qed.

(** ** Claim C6: resampling touches the resampled environments only *)

(** C6. For indices [env_ids] within [0, N) and ranges that are not
    inverted, [_resample_command] returns, keeps one entry per environment
    in every buffer, and leaves every field of every environment outside
    [env_ids] as it was: command vector, heading target, heading flag,
    standing flag and both metrics. *)
Theorem resample_independence cfg n self env_ids d :
  well_shaped n self ->
  Forall (fun i => (i < n)%nat) env_ids ->
  (heading_command cfg = true -> heading (ranges cfg) <> None) ->
  ranges_ok cfg ->
  exists self',
    _resample_command cfg self env_ids d = Ok self' /\
    well_shaped n self' /\
    forall j, j ∉ env_ids -> same_entry j self self'.
Proof.
  intros Hws Hids Hcfg Hr.
  destruct (resample_total cfg n self env_ids d Hws Hids Hcfg Hr)
    as [self' H].
  exists self'. split; [done|]. split.
  - by eapply resample_well_shaped.
  - intros j Hj. by eapply resample_frame.
Qed.

(** ** The frame correction *)

Lemma tf_d_quat_known cfg :
  known_body cfg -> exists tf, tf_d_quat cfg = Ok tf.
Proof.
  unfold tf_d_quat, tf_d_matrix. intros [-> | ->]; simpl; by eexists.
Qed.

Lemma tf_d_quat_unknown cfg :
  ~ known_body cfg -> tf_d_quat cfg = Raise ValueError.
Proof.
  unfold known_body, tf_d_quat, tf_d_matrix. intros Hn.
  destruct (String.eqb_spec (body_name cfg) "leg1link2") as [H2|_];
    [tauto|].
  destruct (String.eqb_spec (body_name cfg) "leg1link4") as [H4|_];
    [tauto|].
  reflexivity.
Qed.

Lemma get_body_quat_d_Ok cfg data quat_d :
  _get_body_quat_d cfg data = Ok quat_d ->
  exists tf, tf_d_quat cfg = Ok tf /\
    quat_d = (fun q => math_utils.quat_mul q tf) <$> body_quat_w data.
Proof.
  unfold _get_body_quat_d. intros H. inv_bind H as tf Htf.
  injection H as <-. by exists tf.
Qed.

Lemma get_body_vel_d_Ok cfg data vel_w vel_d :
  _get_body_vel_d cfg data vel_w = Ok vel_d ->
  exists tf, tf_d_quat cfg = Ok tf /\
    length vel_w = length (body_quat_w data) /\
    vel_d = zip_with
              (fun q v =>
                 math_utils.quat_rotate_inverse (math_utils.quat_mul q tf) v)
              (body_quat_w data) vel_w.
Proof.
  unfold _get_body_vel_d. intros H. inv_bind H as tf Htf.
  apply map2_Ok in H as [Hlen ->]. rewrite length_fmap in Hlen.
  exists tf. split; [done|]. split; [done|].
  by rewrite zip_with_fmap_l.
Qed.

Lemma get_body_vel_d_total cfg n data vel_w :
  known_body cfg -> length (body_quat_w data) = n -> length vel_w = n ->
  exists vel_d, _get_body_vel_d cfg data vel_w = Ok vel_d /\
    length vel_d = n.
Proof.
  intros Hk Hq Hv. destruct (tf_d_quat_known cfg Hk) as [tf Htf].
  unfold _get_body_vel_d. rewrite Htf, bind_Ok_l.
  rewrite map2_total by (by rewrite length_fmap, Hq, Hv).
  eexists. split; [done|].
  rewrite length_zip_with, length_fmap. lia.
Qed.

(** ** Command post-processing *)

(** What [standing_step] returns: only the command changes; a standing
    environment gets the zero command, any other keeps its own. *)
Lemma standing_step_Ok self self' :
  standing_step self = Ok self' ->
  (exists c, self' = with_vel_command_b self c) /\
  forall i v, vel_command_b self !! i = Some v ->
    (is_standing_env self !! i = Some true ->
     vel_command_b self' !! i = Some zero3) /\
    (is_standing_env self !! i <> Some true ->
     vel_command_b self' !! i = Some v).
Proof.
  unfold standing_step, Tensor.index_fill. intros H. inv_bind H as c Hc.
  injection H as <-. split; [by exists c|].
  intros i v Hv. simpl. split.
  - intros Hs. apply elem_of_nonzero in Hs.
    apply list_elem_of_lookup_1 in Hs as [p Hp].
    eapply (index_put_hit _ _ _ _ _ p i v zero3 Hc); try done.
    + apply NoDup_nonzero.
    + apply lookup_replicate_2. by eapply lookup_lt_Some.
  - intros Hs. rewrite (index_put_frame _ _ _ _ _ i Hc); [done|].
    by rewrite elem_of_nonzero.
Qed.

Lemma standing_step_total self :
  length (is_standing_env self) = length (vel_command_b self) ->
  exists self', standing_step self = Ok self'.
Proof.
  intros Hlen. unfold standing_step, Tensor.index_fill.
  destruct (index_put_total (fun _ (c' : vec3) => c') (vel_command_b self)
              (Tensor.nonzero (is_standing_env self))
              (replicate (length (Tensor.nonzero (is_standing_env self)))
                 zero3)) as [c Hc].
  - rewrite <- Hlen. apply nonzero_lt.
  - apply length_replicate.
  - rewrite Hc, bind_Ok_l. by eexists.
Qed.

(** What [heading_step] returns in heading mode: only the command changes;
    a heading environment gets the angular velocity of the heading
    controller in its z component, any other keeps its command. *)
Lemma heading_step_Ok cfg data self self' :
  heading_command cfg = true ->
  heading_step cfg data self = Ok self' ->
  exists quat_d,
    _get_body_quat_d cfg data = Ok quat_d /\
    (exists c, self' = with_vel_command_b self c) /\
    forall i v, vel_command_b self !! i = Some v ->
      (is_heading_env self !! i = Some true ->
       exists target q,
         heading_target self !! i = Some target /\
         quat_d !! i = Some q /\
         vel_command_b self' !! i =
           Some (set_vz v (heading_ang_vel cfg target
                             (math_utils.euler_z_from_quat q)))) /\
      (is_heading_env self !! i <> Some true ->
       vel_command_b self' !! i = Some v).
Proof.
  unfold heading_step. intros -> H.
  inv_bind H as target Ht. inv_bind H as quat_d Hq. inv_bind H as yaw Hy.
  inv_bind H as ang Ha. inv_bind H as c Hc. injection H as <-.
  exists quat_d. split; [done|]. split; [by exists c|].
  apply index_select_Ok in Ht, Hy. apply map2_Ok in Ha as [Hlen ->].
  intros i v Hv. simpl. split.
  - intros Hh. apply elem_of_nonzero in Hh.
    apply list_elem_of_lookup_1 in Hh as [p Hp].
    destruct (Forall2_lookup_l _ _ _ _ _ Ht Hp) as (tg & Htg & Htg').
    destruct (Forall2_lookup_l _ _ _ _ _ Hy Hp) as (y & Hy1 & Hy2).
    rewrite list_lookup_fmap in Hy2.
    destruct (quat_d !! i) as [q|] eqn:Hqi; [|discriminate Hy2].
    injection Hy2 as <-.
    exists tg, q. split; [done|]. split; [done|].
    eapply (index_put_hit _ _ _ _ _ p i v _ Hc); try done.
    + apply NoDup_nonzero.
    + rewrite lookup_zip_with, Htg. simpl. by rewrite Hy1.
  - intros Hh. rewrite (index_put_frame _ _ _ _ _ i Hc); [done|].
    by rewrite elem_of_nonzero.
Qed.

Lemma heading_step_off cfg data self :
  heading_command cfg = false -> heading_step cfg data self = Ok self.
Proof. unfold heading_step. by intros ->. Qed.

Lemma heading_step_total cfg n data self :
  well_shaped n self -> data_shaped n data ->
  (heading_command cfg = true -> known_body cfg) ->
  exists self', heading_step cfg data self = Ok self'.
Proof.
  intros [Hv Ht Hh Hs Hx Hy] [Hq Hl Ha] Hk. unfold heading_step.
  destruct (heading_command cfg); [|by eexists].
  destruct (tf_d_quat_known cfg (Hk eq_refl)) as [tf Htf].
  destruct (index_select_total (heading_target self)
              (Tensor.nonzero (is_heading_env self))) as [target Htg].
  { rewrite Ht, <- Hh. apply nonzero_lt. }
  rewrite Htg, bind_Ok_l. unfold _get_body_quat_d. rewrite Htf, !bind_Ok_l.
  destruct (index_select_total
              (math_utils.euler_z_from_quat
                 <$> ((fun q => math_utils.quat_mul q tf)
                        <$> body_quat_w data))
              (Tensor.nonzero (is_heading_env self))) as [yaw Hyaw].
  { rewrite !length_fmap, Hq, <- Hh. apply nonzero_lt. }
  rewrite Hyaw, bind_Ok_l.
  assert (Hlen : length target = length yaw).
  { apply index_select_Ok in Htg, Hyaw.
    apply Forall2_length in Htg, Hyaw. congruence. }
  rewrite (map2_total _ _ _ Hlen), bind_Ok_l.
  destruct (index_put_total set_vz (vel_command_b self)
              (Tensor.nonzero (is_heading_env self))
              (zip_with (heading_ang_vel cfg) target yaw)) as [c Hc].
  { rewrite Hv, <- Hh. apply nonzero_lt. }
  { rewrite length_zip_with. apply index_select_Ok, Forall2_length in Htg.
    lia. }
  rewrite Hc, bind_Ok_l. by eexists.
Qed.

Lemma heading_step_well_shaped cfg n data self self' :
  heading_step cfg data self = Ok self' ->
  well_shaped n self -> well_shaped n self'.
Proof.
  unfold heading_step. intros H Hws.
  destruct (heading_command cfg); [|by injection H as <-].
  inv_bind H as target Ht. inv_bind H as quat_d Hq. inv_bind H as yaw Hy.
  inv_bind H as ang Ha. inv_bind H as c Hc. injection H as <-.
  apply index_put_length in Hc. destruct Hws. split; simpl; congruence.
Qed.

Lemma standing_step_well_shaped n self self' :
  standing_step self = Ok self' ->
  well_shaped n self -> well_shaped n self'.
Proof.
  unfold standing_step, Tensor.index_fill. intros H Hws.
  inv_bind H as c Hc. injection H as <-.
  apply index_put_length in Hc. destruct Hws. split; simpl; congruence.
Qed.

Lemma update_command_total cfg n data self :
  well_shaped n self -> data_shaped n data ->
  (heading_command cfg = true -> known_body cfg) ->
  exists self1 self',
    heading_step cfg data self = Ok self1 /\
    standing_step self1 = Ok self' /\
    _update_command cfg data self = Ok self'.
Proof.
  intros Hws Hds Hk.
  destruct (heading_step_total cfg n data self Hws Hds Hk) as [self1 H1].
  pose proof (heading_step_well_shaped _ _ _ _ _ H1 Hws) as Hws1.
  destruct (standing_step_total self1) as [self' H2].
  { destruct Hws1. congruence. }
  exists self1, self'. unfold _update_command.
  by rewrite H1, bind_Ok_l.
Qed.

Lemma update_command_well_shaped cfg n data self self' :
  _update_command cfg data self = Ok self' ->
  well_shaped n self -> well_shaped n self'.
Proof.
  unfold _update_command. intros H Hws. inv_bind H as self1 H1.
  eapply standing_step_well_shaped; [done|].
  by eapply heading_step_well_shaped.
Qed.

Lemma heading_step_flags cfg data self self' :
  heading_step cfg data self = Ok self' ->
  heading_target self' = heading_target self /\
  is_heading_env self' = is_heading_env self /\
  is_standing_env self' = is_standing_env self /\
  error_vel_xy self' = error_vel_xy self /\
  error_vel_yaw self' = error_vel_yaw self /\
  length (vel_command_b self') = length (vel_command_b self).
Proof.
  unfold heading_step. intros H.
  destruct (heading_command cfg); [|by injection H as <-].
  inv_bind H as target Ht. inv_bind H as quat_d Hq. inv_bind H as yaw Hy.
  inv_bind H as ang Ha. inv_bind H as c Hc. injection H as <-.
  apply index_put_length in Hc. done.
Qed.

Lemma clip_in_range (x lo hi : R) : lo <= hi -> lo <= clip x lo hi <= hi.
Proof.
  intros H. unfold clip. split.
  - apply Rmin_glb; [apply Rmax_r|done].
  - apply Rmin_r.
Qed.

Lemma heading_step_bounds cfg data self self' i v :
  heading_step cfg data self = Ok self' ->
  vel_command_b self !! i = Some v -> in_bounds cfg v ->
  exists v1, vel_command_b self' !! i = Some v1 /\ in_bounds cfg v1.
Proof.
  intros H Hv Hb. destruct (heading_command cfg) eqn:Hc.
  - destruct (heading_step_Ok _ _ _ _ Hc H) as (quat_d & _ & _ & Hall).
    destruct (Hall i v Hv) as [Hon Hoff].
    destruct (decide (is_heading_env self !! i = Some true)) as [Hh|Hh].
    + destruct (Hon Hh) as (target & q & _ & _ & ->).
      eexists. split; [done|].
      destruct Hb as (Hx & Hy & Hz). repeat split; simpl; try tauto;
        apply clip_in_range; lra.
    + exists v. split; [by apply Hoff|done].
  - rewrite heading_step_off in H by done. injection H as <-. by exists v.
Qed.

(** ** Claim C2: standing takes precedence *)

(** C2. [_update_command] returns, as the heading step followed by the
    standing step, and the finalized command of every environment whose
    standing flag is set is exactly (0, 0, 0), whatever its heading flag,
    heading target and command were. *)
Theorem standing_precedence cfg n data self :
  well_shaped n self -> data_shaped n data ->
  (heading_command cfg = true -> known_body cfg) ->
  exists self1 self',
    heading_step cfg data self = Ok self1 /\
    standing_step self1 = Ok self' /\
    _update_command cfg data self = Ok self' /\
    forall i, is_standing_env self !! i = Some true ->
      command self' !! i = Some zero3.
Proof.
  intros Hws Hds Hk.
  destruct (update_command_total cfg n data self Hws Hds Hk)
    as (self1 & self' & H1 & H2 & H).
  exists self1, self'. repeat split; try done.
  intros i Hs.
  destruct (heading_step_flags _ _ _ _ H1) as (_ & _ & Hst & _ & _ & Hlen).
  assert (is_Some (vel_command_b self1 !! i)) as [v1 Hv1].
  { apply lookup_lt_is_Some. rewrite Hlen.
    apply lookup_lt_Some in Hs. destruct Hws. congruence. }
  destruct (standing_step_Ok _ _ H2) as [_ Hall].
  apply (Hall i v1 Hv1). by rewrite Hst.
Qed.

(** ** Claim C3: the heading controller *)

(** C3. In heading mode, the heading step of [_update_command] (the state
    before the standing override) sets the angular-z command of every
    environment whose heading flag is set to
    clip(stiffness * wrap_to_pi(target - yaw), min, max) of the angular
    range, the yaw being read off the corrected body orientation; its x and
    y components, and the whole command of an environment whose flag is
    not set, stay as sampled. *)
Theorem heading_control cfg n data self :
  heading_command cfg = true -> known_body cfg ->
  well_shaped n self -> data_shaped n data ->
  exists quat_d self1,
    _get_body_quat_d cfg data = Ok quat_d /\
    heading_step cfg data self = Ok self1 /\
    _update_command cfg data self = standing_step self1 /\
    forall i v, vel_command_b self !! i = Some v ->
      (is_heading_env self !! i = Some true ->
       exists target q,
         heading_target self !! i = Some target /\
         quat_d !! i = Some q /\
         vel_command_b self1 !! i =
           Some (Vec3 (vx v) (vy v)
                   (clip (heading_control_stiffness cfg
                          * math_utils.wrap_to_pi
                              (target - math_utils.euler_z_from_quat q))
                      (fst (ang_vel_z (ranges cfg)))
                      (snd (ang_vel_z (ranges cfg)))))) /\
      (is_heading_env self !! i = Some false ->
       vel_command_b self1 !! i = Some v).
Proof.
  intros Hc Hk Hws Hds.
  destruct (heading_step_total cfg n data self Hws Hds (fun _ => Hk))
    as [self1 H1].
  destruct (heading_step_Ok _ _ _ _ Hc H1) as (quat_d & Hq & _ & Hall).
  exists quat_d, self1. repeat split; try done.
  - unfold _update_command. by rewrite H1, bind_Ok_l.
  - intros Hh. by apply (Hall i v H).
  - intros Hh. apply (Hall i v H). by rewrite Hh.
Qed.

(** ** Claim C1: bounds of the finalized command *)

(** C1 (amended). [_update_command] returns, and for an environment whose
    command was within the configured ranges before it: the finalized
    command is (0, 0, 0) when the standing flag is set, and it lies within
    the ranges, axis by axis, when the standing flag is not set or when
    (0, 0, 0) itself lies within the ranges. *)
Theorem bounds_unless_standing cfg n data self :
  well_shaped n self -> data_shaped n data ->
  (heading_command cfg = true -> known_body cfg) ->
  exists self',
    _update_command cfg data self = Ok self' /\
    forall i v, vel_command_b self !! i = Some v -> in_bounds cfg v ->
      exists v',
        command self' !! i = Some v' /\
        (is_standing_env self !! i = Some true -> v' = zero3) /\
        (is_standing_env self !! i = Some false \/ in_bounds cfg zero3 ->
         in_bounds cfg v').
Proof.
  intros Hws Hds Hk.
  destruct (update_command_total cfg n data self Hws Hds Hk)
    as (self1 & self' & H1 & H2 & H).
  exists self'. split; [done|]. intros i v Hv Hb.
  destruct (heading_step_bounds _ _ _ _ _ _ H1 Hv Hb) as (v1 & Hv1 & Hb1).
  destruct (heading_step_flags _ _ _ _ H1) as (_ & _ & Hst & _).
  destruct (standing_step_Ok _ _ H2) as [_ Hall].
  destruct (Hall i v1 Hv1) as [Hon Hoff]. rewrite Hst in Hon, Hoff.
  destruct (decide (is_standing_env self !! i = Some true)) as [Hs|Hs].
  - exists zero3. split; [by apply Hon|]. split; [done|].
    intros [Hf|Hz]; [congruence|done].
  - exists v1. split; [by apply Hoff|]. split; [done|]. done.
Qed.

(** ** Claim C4: the heading error is the wrapped difference *)

Lemma two_PI_pos : 0 < 2 * PI.
Proof. pose proof PI_RGT_0. lra. Qed.

(** The reduction modulo 2 pi lands in [0, 2 pi). *)
Lemma mod_2PI_bound (x : R) :
  0 <= x - 2 * PI * IZR (Zfloor (x / (2 * PI))) < 2 * PI.
Proof.
  pose proof two_PI_pos as Hpos.
  destruct (Zfloor_bound (x / (2 * PI))) as [Hlo Hhi].
  assert (Hx : x = 2 * PI * (x / (2 * PI))) by (field; lra).
  split.
  - apply (Rmult_le_compat_l (2 * PI)) in Hlo; lra.
  - apply (Rmult_lt_compat_l (2 * PI)) in Hhi; lra.
Qed.

Lemma wrap_to_pi_range (x : R) :
  - PI < math_utils.wrap_to_pi x <= PI.
Proof.
  unfold math_utils.wrap_to_pi. pose proof (mod_2PI_bound x) as [Hlo Hhi].
  pose proof PI_RGT_0.
  destruct (Rlt_dec PI _) as [Hgt|Hle]; lra.
Qed.

Lemma wrap_to_pi_congruent (x : R) :
  exists k : Z, math_utils.wrap_to_pi x = x + 2 * PI * IZR k.
Proof.
  unfold math_utils.wrap_to_pi.
  destruct (Rlt_dec PI _) as [Hgt|Hle].
  - exists (- Zfloor (x / (2 * PI)) - 1)%Z.
    rewrite minus_IZR, opp_IZR. lra.
  - exists (- Zfloor (x / (2 * PI)))%Z. rewrite opp_IZR. lra.
Qed.

(** Two angles of (-pi, pi] that differ by a multiple of 2 pi are equal. *)
Lemma wrapped_unique (a b : R) (k : Z) :
  - PI < a <= PI -> - PI < b <= PI -> a = b + 2 * PI * IZR k -> a = b.
Proof.
  intros Ha Hb Hab. pose proof PI_RGT_0 as Hpi.
  assert (Hk : (-1 < k < 1)%Z).
  { split; apply lt_IZR.
    - apply (Rmult_lt_reg_l (2 * PI)); [lra|]. lra.
    - apply (Rmult_lt_reg_l (2 * PI)); [lra|]. lra. }
  assert (k = 0%Z) as -> by lia. lra.
Qed.

Lemma wrap_to_pi_unique (x e : R) :
  - PI < e <= PI -> (exists k : Z, e = x + 2 * PI * IZR k) ->
  e = math_utils.wrap_to_pi x.
Proof.
  intros He [k Hk]. destruct (wrap_to_pi_congruent x) as [k' Hk'].
  apply (wrapped_unique _ _ (k - k')%Z); [done|apply wrap_to_pi_range|].
  rewrite minus_IZR. lra.
Qed.

(** Four decimals of pi, from the Machin-like series of the library. *)
Lemma PI_bounds : 3.1415 < PI < 3.1416.
Proof.
  pose proof (PI_2_3_7_ineq 2) as [Hlo Hhi].
  unfold PI_2_3_7_tg, tg_alt, Ratan_seq in Hlo, Hhi.
  simpl in Hlo, Hhi.
  split; lra.
Qed.

(** C4. The heading error that the controller scales and clips is
    [wrap_to_pi (target - yaw)]; it lies in (-pi, pi], differs from
    [target - yaw] by a multiple of 2 pi, and is the only such value. For
    the target 3.0 and the yaw -3.0 it is 6 - 2 pi, about -0.283. *)
Theorem heading_wrap_correct :
  (forall cfg target yaw,
     heading_ang_vel cfg target yaw =
     clip (heading_control_stiffness cfg
           * math_utils.wrap_to_pi (target - yaw))
       (fst (ang_vel_z (ranges cfg))) (snd (ang_vel_z (ranges cfg)))) /\
  (forall target yaw : R,
     - PI < math_utils.wrap_to_pi (target - yaw) <= PI /\
     (exists k : Z,
        math_utils.wrap_to_pi (target - yaw)
        = target - yaw + 2 * PI * IZR k) /\
     (forall e : R,
        - PI < e <= PI ->
        (exists k : Z, e = target - yaw + 2 * PI * IZR k) ->
        e = math_utils.wrap_to_pi (target - yaw))) /\
  math_utils.wrap_to_pi (3 - (-3)) = 6 - 2 * PI /\
  -0.2832 < math_utils.wrap_to_pi (3 - (-3)) < -0.2830.
Proof.
  pose proof PI_bounds as Hpi.
  assert (Hex : math_utils.wrap_to_pi (3 - (-3)) = 6 - 2 * PI).
  { symmetry. apply wrap_to_pi_unique; [lra|]. exists (-1)%Z. lra. }
  split; [done|]. split; [|split; [done|rewrite Hex; lra]].
  intros target yaw. split; [apply wrap_to_pi_range|].
  split; [apply wrap_to_pi_congruent|]. apply wrap_to_pi_unique.
Qed.

(** ** Claim C5: the configuration check of the constructor *)

Lemma index_put_Raise {A B} (upd : A -> B -> A) (t : list A) ids
    (vals : list B) e :
  Tensor.index_put upd t ids vals = Raise e ->
  e = IndexError \/ e = RuntimeError.
Proof.
  revert t vals; induction ids as [|i ids IH]; intros t [|v vals] H;
    simpl in H; try (injection H as <-; tauto); try discriminate H.
  destruct (t !! i) as [a|]; [by eapply IH|].
  injection H as <-; tauto.
Qed.

(** The only exceptions of [_resample_command] are those of indexing, of
    an inverted range and of unpacking a missing heading range. *)
Lemma resample_Raise cfg self env_ids d e :
  _resample_command cfg self env_ids d = Raise e ->
  e = IndexError \/ e = RuntimeError \/ e = TypeError.
Proof.
  unfold _resample_command. intros H.
  repeat match type of H with
  | uniform_ _ _ _ ≫= _ = Raise _ =>
      apply bind_Raise in H as [H|(? & _ & H)];
        [apply uniform_Raise in H; tauto|]
  | Tensor.index_put _ _ _ _ ≫= _ = Raise _ =>
      apply bind_Raise in H as [H|(? & _ & H)];
        [apply index_put_Raise in H; tauto|]
  end.
  apply bind_Raise in H as [H|(? & _ & H)].
  - destruct (heading_command cfg); [|discriminate H].
    destruct (heading (ranges cfg)); [|injection H as <-; tauto].
    repeat match type of H with
    | uniform_ _ _ _ ≫= _ = Raise _ =>
        apply bind_Raise in H as [H|(? & _ & H)];
          [apply uniform_Raise in H; tauto|]
    | Tensor.index_put _ _ _ _ ≫= _ = Raise _ =>
        apply bind_Raise in H as [H|(? & _ & H)];
          [apply index_put_Raise in H; tauto|]
    end.
    discriminate H.
  - repeat match type of H with
    | uniform_ _ _ _ ≫= _ = Raise _ =>
        apply bind_Raise in H as [H|(? & _ & H)];
          [apply uniform_Raise in H; tauto|]
    | Tensor.index_put _ _ _ _ ≫= _ = Raise _ =>
        apply bind_Raise in H as [H|(? & _ & H)];
          [apply index_put_Raise in H; tauto|]
    end.
    discriminate H.
Qed.

(** C5. With heading mode on and no heading range, the constructor raises
    [ValueError] and returns no generator. The check belongs to the
    constructor alone: [_resample_command] never raises [ValueError]. *)
Theorem construction_failure cfg env :
  heading_command cfg = true -> heading (ranges cfg) = None ->
  __init__ cfg env = Raise ValueError /\
  (forall self, __init__ cfg env <> Ok self) /\
  (forall self env_ids d,
     _resample_command cfg self env_ids d <> Raise ValueError).
Proof.
  intros Hc Hr.
  assert (Hinit : __init__ cfg env = Raise ValueError).
  { unfold __init__. by rewrite Hc, Hr. }
  split; [done|]. split.
  - intros self. by rewrite Hinit.
  - intros self env_ids d H. apply resample_Raise in H.
    destruct H as [H|[H|H]]; discriminate H.
Qed.

(** Any other configuration is accepted. *)
Lemma construction_success cfg env :
  (heading_command cfg = true -> heading (ranges cfg) <> None) ->
  exists self, __init__ cfg env = Ok self /\
    well_shaped (num_envs env) self.
Proof.
  intros H. unfold __init__.
  destruct (heading_command cfg); [destruct (heading (ranges cfg))|];
    simpl.
  - eexists. split; [done|]. split; apply length_replicate.
  - by destruct H.
  - eexists. split; [done|]. split; apply length_replicate.
Qed.

(** A heading range without heading mode is only worth an advisory. *)
Lemma construction_advisory cfg env :
  init_warns cfg = true ->
  exists self, __init__ cfg env = Ok self /\ heading_command cfg = false.
Proof.
  unfold init_warns, __init__.
  destruct (heading_command cfg); destruct (heading (ranges cfg));
    simpl; try discriminate.
  intros _. by eexists.
Qed.

(** ** Claim C9: the low-pass filter accepts any smoothing factor *)

(** C9 (amended). The constructor of the filter performs no check: for
    every smoothing factor, inside (0, 1] or not, it returns a filter that
    stores the factor and has no previous value; no factor is rejected. *)
Theorem filter_init_total (a : R) :
  exists f,
    Extension.LowPassFilter.__init__ a = Ok f /\
    Extension.LowPassFilter.alpha f = a /\
    Extension.LowPassFilter.prev_value f = None /\
    ~ filter_rejects a.
Proof.
  eexists. split; [reflexivity|]. split; [reflexivity|].
  split; [reflexivity|]. intros [e He]. discriminate He.
Qed.

(** The factors 0 and 2, outside (0, 1], are not rejected. *)
Lemma filter_init_out_of_range :
  ~ (0 < 0 <= 1) /\ ~ filter_rejects 0 /\
  ~ (0 < 2 <= 1) /\ ~ filter_rejects 2.
Proof.
  unfold filter_rejects.
  repeat split; try lra; intros [e He]; discriminate He.
Qed.

(** The first call of the filter returns its input; a later call blends
    the input with the previous output. *)
Lemma filter_apply_first a (f : Extension.LowPassFilter.t) (value : R) :
  Extension.LowPassFilter.__init__ a = Ok f ->
  Extension.LowPassFilter.apply f value =
  ({| Extension.LowPassFilter.alpha := a;
      Extension.LowPassFilter.prev_value := Some value |}, value).
Proof. intros [= <-]. reflexivity. Qed.

Lemma filter_apply_next a prev (value : R) :
  snd (Extension.LowPassFilter.apply
         {| Extension.LowPassFilter.alpha := a;
            Extension.LowPassFilter.prev_value := Some prev |} value)
  = a * value + (1 - a) * prev.
Proof. reflexivity. Qed.

(** ** Tracking metrics *)

Lemma Reqb_false (a b : R) : a <> b -> Reqb a b = false.
Proof. intros H. unfold Reqb. by destruct (Req_dec_T a b). Qed.

Lemma max_command_step_Ok cfg env steps :
  max_command_step cfg env = Ok steps <->
  step_dt env <> 0 /\
  steps = snd (resampling_time_range cfg) / step_dt env.
Proof.
  unfold max_command_step, Reqb.
  destruct (Req_dec_T (step_dt env) 0) as [Hz|Hnz]; split.
  - discriminate.
  - intros [H _]; done.
  - intros [= <-]; done.
  - intros [_ ->]; done.
Qed.

Lemma update_metrics_Ok cfg env data self self' :
  _update_metrics cfg env data self = Ok self' ->
  exists lin_d,
    step_dt env <> 0 /\
    _get_body_vel_d cfg data (body_lin_vel_w data) = Ok lin_d /\
    length (vel_command_b self) = length lin_d /\
    length (vel_command_b self) = length (body_ang_vel_w data) /\
    length (error_vel_xy self) = length (vel_command_b self) /\
    length (error_vel_yaw self) = length (vel_command_b self) /\
    self' = accumulate (snd (resampling_time_range cfg) / step_dt env)
              self lin_d (body_ang_vel_w data).
Proof.
  unfold _update_metrics. intros H.
  inv_bind H as steps Hs. apply max_command_step_Ok in Hs as [Hdt ->].
  inv_bind H as lin_d Hlin. inv_bind H as dxy Hdxy. inv_bind H as exy Hexy.
  inv_bind H as dyaw Hdyaw. inv_bind H as eyaw Heyaw. injection H as <-.
  apply map2_Ok in Hdxy as [Hl1 ->]. apply map2_Ok in Hexy as [Hl2 ->].
  apply map2_Ok in Hdyaw as [Hl3 ->]. apply map2_Ok in Heyaw as [Hl4 ->].
  rewrite length_fmap, length_zip_with in Hl2, Hl4.
  exists lin_d. repeat split; try done; lia.
Qed.

Lemma update_metrics_total cfg env n data self :
  known_body cfg -> step_dt env <> 0 ->
  well_shaped n self -> data_shaped n data ->
  exists lin_d,
    _get_body_vel_d cfg data (body_lin_vel_w data) = Ok lin_d /\
    length lin_d = n /\
    _update_metrics cfg env data self
    = Ok (accumulate (snd (resampling_time_range cfg) / step_dt env)
            self lin_d (body_ang_vel_w data)).
Proof.
  intros Hk Hdt [Hv Ht Hh Hs Hx Hy] [Hq Hl Ha].
  destruct (get_body_vel_d_total cfg n data (body_lin_vel_w data) Hk Hq Hl)
    as (lin_d & Hlin & Hlen).
  exists lin_d. split; [done|]. split; [done|]. unfold _update_metrics.
  assert (Hs' : max_command_step cfg env
                = Ok (snd (resampling_time_range cfg) / step_dt env))
    by (by apply max_command_step_Ok).
  rewrite Hs', bind_Ok_l, Hlin, bind_Ok_l.
  rewrite (map2_total err_xy) by congruence. rewrite bind_Ok_l.
  rewrite (map2_total Rplus)
    by (rewrite length_fmap, length_zip_with; lia).
  rewrite bind_Ok_l.
  rewrite (map2_total err_yaw) by congruence. rewrite bind_Ok_l.
  rewrite (map2_total Rplus)
    by (rewrite length_fmap, length_zip_with; lia).
  done.
Qed.

Lemma accumulate_well_shaped n steps self lin ang :
  well_shaped n self -> length lin = n -> length ang = n ->
  well_shaped n (accumulate steps self lin ang).
Proof.
  intros [Hv Ht Hh Hs Hx Hy] Hl Ha. split; simpl; try done.
  - rewrite length_zip_with, length_fmap, length_zip_with. lia.
  - rewrite length_zip_with, length_fmap, length_zip_with. lia.
Qed.

Lemma update_metrics_well_shaped cfg env n data self self' :
  _update_metrics cfg env data self = Ok self' ->
  well_shaped n self -> well_shaped n self'.
Proof.
  intros H Hws.
  destruct (update_metrics_Ok _ _ _ _ _ H)
    as (lin_d & _ & _ & Hl1 & Hl2 & _ & _ & ->).
  destruct Hws as [Hv Ht Hh Hs Hx Hy].
  apply accumulate_well_shaped; [done|congruence|congruence].
Qed.

(** The two entries of one environment after [accumulate]. *)
Lemma accumulate_lookup steps self lin ang i c v w exy eyaw :
  vel_command_b self !! i = Some c ->
  lin !! i = Some v -> ang !! i = Some w ->
  error_vel_xy self !! i = Some exy ->
  error_vel_yaw self !! i = Some eyaw ->
  error_vel_xy (accumulate steps self lin ang) !! i
    = Some (exy + err_xy c v / steps) /\
  error_vel_yaw (accumulate steps self lin ang) !! i
    = Some (eyaw + err_yaw c w / steps).
Proof.
  intros Hc Hv Hw Hx Hy. unfold accumulate. simpl.
  rewrite !lookup_zip_with, !list_lookup_fmap, !lookup_zip_with.
  rewrite Hc, Hv, Hw, Hx, Hy. done.
Qed.

(** ** The calls of the stepping loop keep the shape of the buffers *)

Lemma step_well_shaped cfg env n self c self' :
  step cfg env self c = Ok self' ->
  well_shaped n self -> well_shaped n self'.
Proof.
  destruct c as [env_ids d|data|data]; simpl.
  - apply resample_well_shaped.
  - apply update_command_well_shaped.
  - apply update_metrics_well_shaped.
Qed.

Lemma run_well_shaped cfg env n self calls self' :
  run cfg env self calls = Ok self' ->
  well_shaped n self -> well_shaped n self'.
Proof.
  revert self; induction calls as [|c calls IH]; intros self H Hws;
    simpl in H.
  - by injection H as <-.
  - inv_bind H as self1 H1. eapply IH; [done|].
    by eapply step_well_shaped.
Qed.

(** ** Claim C10: heading mode off *)

Lemma step_heading_off cfg env self c self' :
  heading_command cfg = false ->
  step cfg env self c = Ok self' ->
  heading_target self' = heading_target self /\
  is_heading_env self' = is_heading_env self.
Proof.
  intros Hc. destruct c as [env_ids d|data|data]; simpl; intros H.
  - destruct (resample_inv _ _ _ _ _ H)
      as (c1 & c2 & _ & _ & _ & _ & H4 & _). by rewrite Hc in H4.
  - unfold _update_command in H. inv_bind H as self1 H1.
    destruct (standing_step_Ok _ _ H) as [[c ->] _]. simpl.
    destruct (heading_step_flags _ _ _ _ H1) as (-> & -> & _). done.
  - destruct (update_metrics_Ok _ _ _ _ _ H)
      as (lin_d & _ & _ & _ & _ & _ & _ & ->).
    done.
Qed.

Lemma run_heading_off cfg env self calls self' :
  heading_command cfg = false ->
  run cfg env self calls = Ok self' ->
  heading_target self' = heading_target self /\
  is_heading_env self' = is_heading_env self.
Proof.
  intros Hc. revert self; induction calls as [|c calls IH]; intros self H;
    simpl in H.
  - by injection H as <-.
  - inv_bind H as self1 H1.
    destruct (step_heading_off _ _ _ _ _ Hc H1) as [<- <-]. by apply IH.
Qed.

(** C10. With heading mode off, after the constructor and any sequence of
    resample, update and metric calls that returns, every heading target
    is still 0 and every heading flag still false; the heading step of
    [_update_command] changes nothing, and [_update_command] returns with
    the zero command for a standing environment and the unchanged (sampled)
    command, angular-z included, for any other. *)
Theorem heading_disabled cfg env self0 calls self :
  heading_command cfg = false ->
  __init__ cfg env = Ok self0 ->
  run cfg env self0 calls = Ok self ->
  heading_target self = replicate (num_envs env) 0 /\
  is_heading_env self = replicate (num_envs env) false /\
  forall data,
    heading_step cfg data self = Ok self /\
    exists self',
      _update_command cfg data self = Ok self' /\
      forall i v, vel_command_b self !! i = Some v ->
        (is_standing_env self !! i = Some true ->
         command self' !! i = Some zero3) /\
        (is_standing_env self !! i = Some false ->
         command self' !! i = Some v).
Proof.
  intros Hc Hinit Hrun.
  destruct (run_heading_off _ _ _ _ _ Hc Hrun) as [Ht Hh].
  pose proof (run_well_shaped _ _ _ _ _ _ Hrun
                (init_well_shaped _ _ _ Hinit)) as Hws.
  apply init_Ok in Hinit as [-> _]. simpl in Ht, Hh.
  split; [done|]. split; [done|]. intros data.
  pose proof (heading_step_off cfg data self Hc) as H1.
  split; [done|].
  destruct (standing_step_total self) as [self' H2].
  { destruct Hws. congruence. }
  exists self'. split.
  - unfold _update_command. by rewrite H1, bind_Ok_l.
  - intros i v Hv. destruct (standing_step_Ok _ _ H2) as [_ Hall].
    destruct (Hall i v Hv) as [Hon Hoff]. split; [done|].
    intros Hf. apply Hoff. by rewrite Hf.
Qed.

(** ** The extension's copy of the post-processing *)

Lemma extension_heading_step_Ok cfg data self self' :
  heading_command cfg = true ->
  Extension.heading_step cfg data self = Ok self' ->
  (exists c, self' = with_vel_command_b self c) /\
  forall i v, vel_command_b self !! i = Some v ->
    (is_heading_env self !! i = Some true ->
     exists target q,
       heading_target self !! i = Some target /\
       body_quat_w data !! i = Some q /\
       vel_command_b self' !! i =
         Some (set_vz v (heading_ang_vel cfg target
                           (math_utils.euler_z_from_quat q)))) /\
    (is_heading_env self !! i <> Some true ->
     vel_command_b self' !! i = Some v).
Proof.
  unfold Extension.heading_step. intros -> H.
  inv_bind H as target Ht. inv_bind H as yaw Hy.
  inv_bind H as ang Ha. inv_bind H as c Hc. injection H as <-.
  split; [by exists c|].
  apply index_select_Ok in Ht, Hy. apply map2_Ok in Ha as [Hlen ->].
  intros i v Hv. simpl. split.
  - intros Hh. apply elem_of_nonzero in Hh.
    apply list_elem_of_lookup_1 in Hh as [p Hp].
    destruct (Forall2_lookup_l _ _ _ _ _ Ht Hp) as (tg & Htg & Htg').
    destruct (Forall2_lookup_l _ _ _ _ _ Hy Hp) as (y & Hy1 & Hy2).
    rewrite list_lookup_fmap in Hy2.
    destruct (body_quat_w data !! i) as [q|] eqn:Hqi; [|discriminate Hy2].
    injection Hy2 as <-.
    exists tg, q. split; [done|]. split; [done|].
    eapply (index_put_hit _ _ _ _ _ p i v _ Hc); try done.
    + apply NoDup_nonzero.
    + rewrite lookup_zip_with, Htg. simpl. by rewrite Hy1.
  - intros Hh. rewrite (index_put_frame _ _ _ _ _ i Hc); [done|].
    by rewrite elem_of_nonzero.
Qed.

Lemma extension_heading_step_flags cfg data self self' :
  Extension.heading_step cfg data self = Ok self' ->
  is_standing_env self' = is_standing_env self /\
  length (vel_command_b self') = length (vel_command_b self).
Proof.
  unfold Extension.heading_step. intros H.
  destruct (heading_command cfg); [|by injection H as <-].
  inv_bind H as target Ht. inv_bind H as yaw Hy.
  inv_bind H as ang Ha. inv_bind H as c Hc. injection H as <-.
  apply index_put_length in Hc. done.
Qed.

Lemma extension_heading_step_total cfg n data self :
  well_shaped n self -> data_shaped n data ->
  exists self', Extension.heading_step cfg data self = Ok self'.
Proof.
  intros [Hv Ht Hh Hs Hx Hy] [Hq Hl Ha]. unfold Extension.heading_step.
  destruct (heading_command cfg); [|by eexists].
  destruct (index_select_total (heading_target self)
              (Tensor.nonzero (is_heading_env self))) as [target Htg].
  { rewrite Ht, <- Hh. apply nonzero_lt. }
  rewrite Htg, bind_Ok_l.
  destruct (index_select_total
              (math_utils.euler_z_from_quat <$> body_quat_w data)
              (Tensor.nonzero (is_heading_env self))) as [yaw Hyaw].
  { rewrite length_fmap, Hq, <- Hh. apply nonzero_lt. }
  rewrite Hyaw, bind_Ok_l.
  assert (Hlen : length target = length yaw).
  { apply index_select_Ok in Htg, Hyaw.
    apply Forall2_length in Htg, Hyaw. congruence. }
  rewrite (map2_total _ _ _ Hlen), bind_Ok_l.
  destruct (index_put_total set_vz (vel_command_b self)
              (Tensor.nonzero (is_heading_env self))
              (zip_with (heading_ang_vel cfg) target yaw)) as [c Hc].
  { rewrite Hv, <- Hh. apply nonzero_lt. }
  { rewrite length_zip_with. apply index_select_Ok, Forall2_length in Htg.
    lia. }
  rewrite Hc, bind_Ok_l. by eexists.
Qed.

(** X19: the extension's [_update_command] never fails on well-shaped
    buffers, zeroes the standing environments and applies the same
    controller, with the yaw read off the world-frame orientation of the
    body. *)
Lemma extension_update_command cfg n data self :
  well_shaped n self -> data_shaped n data ->
  exists self1 self',
    Extension.heading_step cfg data self = Ok self1 /\
    Extension._update_command cfg data self = Ok self' /\
    (forall i, is_standing_env self !! i = Some true ->
       command self' !! i = Some zero3) /\
    (heading_command cfg = true ->
     forall i v, vel_command_b self !! i = Some v ->
       (is_heading_env self !! i = Some true ->
        exists target q,
          heading_target self !! i = Some target /\
          body_quat_w data !! i = Some q /\
          vel_command_b self1 !! i =
            Some (set_vz v (heading_ang_vel cfg target
                              (math_utils.euler_z_from_quat q)))) /\
       (is_heading_env self !! i <> Some true ->
        vel_command_b self1 !! i = Some v)).
Proof.
  intros Hws Hds.
  destruct (extension_heading_step_total cfg n data self Hws Hds)
    as [self1 H1].
  destruct (extension_heading_step_flags _ _ _ _ H1) as [Hst Hlen].
  destruct (standing_step_total self1) as [self' H2].
  { destruct Hws. congruence. }
  exists self1, self'. split; [done|]. split.
  { unfold Extension._update_command. by rewrite H1, bind_Ok_l. }
  split.
  - intros i Hs.
    assert (is_Some (vel_command_b self1 !! i)) as [v1 Hv1].
    { apply lookup_lt_is_Some. rewrite Hlen.
      apply lookup_lt_Some in Hs. destruct Hws. congruence. }
    destruct (standing_step_Ok _ _ H2) as [_ Hall].
    apply (Hall i v1 Hv1). by rewrite Hst.
  - intros Hc. by apply extension_heading_step_Ok.
Qed.

(** ** Sampled commands lie within the ranges *)

Lemma index_put_written {A B} (upd : A -> B -> A) (get : A -> B)
    (P : B -> Prop) (t : list A) ids (vals : list B) t' j a' :
  (forall a v, get (upd a v) = v) ->
  Tensor.index_put upd t ids vals = Ok t' ->
  Forall P vals -> j ∈ ids -> t' !! j = Some a' -> P (get a').
Proof.
  intros Hget. revert t vals.
  induction ids as [|i ids IH]; intros t [|v vals] H Hvals Hj Ha';
    simpl in H; try discriminate H.
  - by apply elem_of_nil in Hj.
  - destruct (t !! i) as [a|] eqn:Hi; [|discriminate H].
    inversion Hvals as [|? ? Hv Hvals']; subst.
    destruct (decide (j ∈ ids)) as [Hin|Hnin].
    + by eapply IH.
    + apply elem_of_cons in Hj as [->|Hj]; [|done].
      rewrite (index_put_frame _ _ _ _ _ i H Hnin) in Ha'.
      rewrite list_lookup_insert_eq in Ha' by (by eapply lookup_lt_Some).
      injection Ha' as <-. by rewrite Hget.
Qed.

Lemma index_put_kept {A B C} (upd : A -> B -> A) (get : A -> C)
    (t : list A) ids (vals : list B) t' j a a' :
  (forall a v, get (upd a v) = get a) ->
  Tensor.index_put upd t ids vals = Ok t' ->
  t !! j = Some a -> t' !! j = Some a' -> get a' = get a.
Proof.
  intros Hget H Ha Ha'.
  rewrite (index_put_lookup _ _ _ _ _ j H), Ha in Ha'.
  injection Ha' as <-.
  clear Ha. generalize (hits j ids vals). intros l. revert a.
  induction l as [|v l IH]; intros a; simpl; [done|].
  by rewrite IH.
Qed.

(** After a resample whose unit samples lie in [0, 1), every resampled
    environment has a command within the ranges. *)
Lemma resample_in_bounds cfg self env_ids d self' j v :
  _resample_command cfg self env_ids d = Ok self' ->
  (forall p, 0 <= u_lin_vel_x d p < 1) ->
  (forall p, 0 <= u_lin_vel_y d p < 1) ->
  (forall p, 0 <= u_ang_vel_z d p < 1) ->
  j ∈ env_ids -> vel_command_b self' !! j = Some v -> in_bounds cfg v.
Proof.
  intros H Hux Huy Huz Hj Hv.
  destruct (resample_inv _ _ _ _ _ H)
    as (c1 & c2 & (Hrx & Hry & Hrz & _) & H1 & H2 & H3 & _).
  assert (is_Some (c2 !! j)) as [v2 Hv2].
  { apply lookup_lt_is_Some. rewrite <- (index_put_length _ _ _ _ _ H3).
    by eapply lookup_lt_Some. }
  assert (is_Some (c1 !! j)) as [v1 Hv1].
  { apply lookup_lt_is_Some. rewrite <- (index_put_length _ _ _ _ _ H2).
    by eapply lookup_lt_Some. }
  pose proof (index_put_written set_vx vx _ _ _ _ _ j v1
                (fun _ _ => eq_refl) H1
                (scaled_in_range _ _ _ Hrx Hux) Hj Hv1) as Bx.
  pose proof (index_put_written set_vy vy _ _ _ _ _ j v2
                (fun _ _ => eq_refl) H2
                (scaled_in_range _ _ _ Hry Huy) Hj Hv2) as By.
  pose proof (index_put_written set_vz vz _ _ _ _ _ j v
                (fun _ _ => eq_refl) H3
                (scaled_in_range _ _ _ Hrz Huz) Hj Hv) as Bz.
  pose proof (index_put_kept set_vy vx _ _ _ _ j v1 v2
                (fun _ _ => eq_refl) H2 Hv1 Hv2) as Kx2.
  pose proof (index_put_kept set_vz vx _ _ _ _ j v2 v
                (fun _ _ => eq_refl) H3 Hv2 Hv) as Kx3.
  pose proof (index_put_kept set_vz vy _ _ _ _ j v2 v
                (fun _ _ => eq_refl) H3 Hv2 Hv) as Ky3.
  unfold in_bounds. rewrite Kx3, Kx2, Ky3. done.
Qed.

(** ** The bounds at every point of a run *)

Lemma standing_step_flags self self' :
  standing_step self = Ok self' ->
  is_heading_env self' = is_heading_env self /\
  is_standing_env self' = is_standing_env self.
Proof.
  intros H. destruct (standing_step_Ok _ _ H) as [[c ->] _]. done.
Qed.

Lemma step_bounded cfg env self c self' :
  unit_call c -> step cfg env self c = Ok self' ->
  (forall i, bounded cfg self i) -> forall i, bounded cfg self' i.
Proof.
  intros Hu H Hb i v' Hv'. destruct c as [env_ids d|data|data]; simpl in *.
  - destruct (decide (i ∈ env_ids)) as [Hin|Hnin].
    + left. destruct Hu as (Hux & Huy & Huz).
      by eapply resample_in_bounds.
    + destruct (resample_frame _ _ _ _ _ i H Hnin)
        as (Hv & _ & _ & Hs & _).
      rewrite Hs. apply Hb. by rewrite <- Hv.
  - unfold _update_command in H. inv_bind H as self1 H1.
    destruct (heading_step_flags _ _ _ _ H1)
      as (_ & _ & Hs1 & _ & _ & Hlen).
    destruct (standing_step_flags _ _ H) as [_ Hs2].
    destruct (standing_step_Ok _ _ H) as [_ Hall].
    assert (is_Some (vel_command_b self !! i)) as [v Hv].
    { apply lookup_lt_is_Some. rewrite <- Hlen.
      destruct (standing_step_Ok _ _ H) as [[c ->] _]. simpl in Hv'.
      unfold standing_step, Tensor.index_fill in H. inv_bind H as c' Hc'.
      injection H as <-. rewrite <- (index_put_length _ _ _ _ _ Hc').
      by eapply lookup_lt_Some. }
    rewrite Hs2, Hs1.
    destruct (decide (is_standing_env self !! i = Some true)) as [Hst|Hst].
    + right. split; [|done].
      assert (is_Some (vel_command_b self1 !! i)) as [v1 Hv1].
      { apply lookup_lt_is_Some. rewrite Hlen. by eapply lookup_lt_Some. }
      destruct (Hall i v1 Hv1) as [Hon _]. rewrite Hs1 in Hon.
      rewrite (Hon Hst) in Hv'. by injection Hv' as <-.
    + left. destruct (Hb i v Hv) as [Hin|[_ Hst']]; [|done].
      destruct (heading_step_bounds _ _ _ _ _ _ H1 Hv Hin)
        as (v1 & Hv1 & Hb1).
      destruct (Hall i v1 Hv1) as [_ Hoff]. rewrite Hs1 in Hoff.
      rewrite (Hoff Hst) in Hv'. by injection Hv' as <-.
  - destruct (update_metrics_Ok _ _ _ _ _ H)
      as (lin_d & _ & _ & _ & _ & _ & _ & ->).
    by apply Hb.
Qed.

Lemma run_bounded cfg env self calls self' :
  Forall unit_call calls -> run cfg env self calls = Ok self' ->
  (forall i, bounded cfg self i) -> forall i, bounded cfg self' i.
Proof.
  intros Hu. revert self. induction Hu as [|c calls Hc _ IH];
    intros self H Hb; simpl in H.
  - by injection H as <-.
  - inv_bind H as self1 H1. eapply IH; [done|].
    by eapply step_bounded.
Qed.

(** X11: after the constructor and a resample of all environments, at every
    point of every run whose unit samples lie in [0, 1), the command of an
    environment lies within the ranges, unless the environment stands and
    its command is (0, 0, 0). *)
Lemma bounds_every_tick cfg env self0 d0 calls self :
  __init__ cfg env = Ok self0 ->
  unit_call (Resample (seq 0 (num_envs env)) d0) -> Forall unit_call calls ->
  run cfg env self0 (Resample (seq 0 (num_envs env)) d0 :: calls) = Ok self ->
  forall i v, vel_command_b self !! i = Some v ->
    in_bounds cfg v \/
    (v = zero3 /\ is_standing_env self !! i = Some true).
Proof.
  intros Hinit Hu0 Hu H. simpl in H. inv_bind H as self1 H1.
  intros i. eapply run_bounded; [done|done|].
  clear i. intros i v Hv. left.
  destruct Hu0 as (Hux & Huy & Huz).
  eapply resample_in_bounds; try done.
  apply elem_of_seq. split; [lia|]. simpl.
  apply lookup_lt_Some in Hv.
  pose proof (resample_well_shaped _ _ _ _ _ _ H1
                (init_well_shaped _ _ _ Hinit)) as [Hlen _ _ _ _ _].
  lia.
Qed.

(** ** The quaternions of the frame correction *)

Lemma sqrt_positive_part_pos (x : R) :
  0 < x -> math_utils.sqrt_positive_part x = sqrt x.
Proof.
  intros H. unfold math_utils.sqrt_positive_part.
  by destruct (Rlt_dec 0 x).
Qed.

Lemma sqrt_positive_part_0 (x : R) :
  x <= 0 -> math_utils.sqrt_positive_part x = 0.
Proof.
  intros H. unfold math_utils.sqrt_positive_part.
  destruct (Rlt_dec 0 x); [lra|done].
Qed.

Lemma quat_from_matrix_leg1link4 :
  math_utils.quat_from_matrix
    (Mat3 (Vec3 0 0 (-1)) (Vec3 (-1) 0 0) (Vec3 0 1 0))
  = Quat (1 / 2) (1 / 2) (- (1 / 2)) (- (1 / 2)).
Proof.
  unfold math_utils.quat_from_matrix.
  replace (1 + 0 + 0 + 0) with 1 by lra.
  replace (1 + 0 - 0 - 0) with 1 by lra.
  replace (1 - 0 + 0 - 0) with 1 by lra.
  replace (1 - 0 - 0 + 0) with 1 by lra.
  rewrite sqrt_positive_part_pos by lra. rewrite sqrt_1.
  rewrite !Rleb_true by lra. simpl.
  rewrite Rmax_left by lra.
  f_equal; lra.
Qed.

Lemma quat_from_matrix_leg1link2 :
  math_utils.quat_from_matrix
    (Mat3 (Vec3 (-1) 0 0) (Vec3 0 0 1) (Vec3 0 1 0))
  = Quat 0 0 (sqrt 2 / 2) (sqrt 2 / 2).
Proof.
  unfold math_utils.quat_from_matrix.
  replace (1 + -1 + 0 + 0) with 0 by lra.
  replace (1 + -1 - 0 - 0) with 0 by lra.
  replace (1 - -1 + 0 - 0) with 2 by lra.
  replace (1 - -1 - 0 + 0) with 2 by lra.
  rewrite (sqrt_positive_part_0 0) by lra.
  rewrite (sqrt_positive_part_pos 2) by lra.
  assert (H2 : 1 <= sqrt 2).
  { rewrite <- sqrt_1 at 1. apply sqrt_le_1; lra. }
  assert (Hsq : sqrt 2 * sqrt 2 = 2) by (apply sqrt_sqrt; lra).
  rewrite (Rleb_true 0 0) by lra. rewrite (Rleb_false (sqrt 2) 0) by lra.
  rewrite (Rleb_true (sqrt 2) (sqrt 2)) by lra. simpl.
  rewrite Rmax_left by lra. rewrite Hsq.
  f_equal; try lra; (field_simplify_eq; [nra | lra]).
Qed.

Lemma frame_correction_is_rotation name m v :
  tf_d_matrix name = Ok m ->
  math_utils.quat_rotate (math_utils.quat_from_matrix m) v = mat_apply m v.
Proof.
  unfold tf_d_matrix.
  destruct (String.eqb name "leg1link2");
    [|destruct (String.eqb name "leg1link4")]; intros [= <-].
  - rewrite quat_from_matrix_leg1link2.
    assert (Hsq : sqrt 2 * sqrt 2 = 2) by (apply sqrt_sqrt; lra).
    destruct v as [a b c].
    unfold math_utils.quat_rotate, mat_apply, math_utils.dot,
      math_utils.cross; simpl.
    generalize dependent (sqrt 2). intros s Hsq.
    assert (Hs2 : s ^ 2 = 2) by (rewrite <- Hsq; ring).
    f_equal; field_simplify_eq; rewrite ?Hs2; lra.
  - rewrite quat_from_matrix_leg1link4. destruct v as [a b c].
    unfold math_utils.quat_rotate, mat_apply, math_utils.dot,
      math_utils.cross; simpl.
    f_equal; lra.
Qed.

(** On orientations, the modelled helpers are rotations: the inverse
    rotation undoes the rotation, and the product of two orientations
    rotates by the second, then by the first. *)
Lemma quat_rotate_round_trip q v :
  unit_quat q ->
  math_utils.quat_rotate_inverse q (math_utils.quat_rotate q v) = v.
Proof.
  destruct q as [w x y z], v as [a b c]. unfold unit_quat. simpl.
  intros H.
  unfold math_utils.quat_rotate_inverse, math_utils.quat_rotate,
    math_utils.cross, math_utils.dot. simpl.
  f_equal; nsatz.
Qed.

Lemma quat_rotate_mul q1 q2 v :
  unit_quat q1 -> unit_quat q2 ->
  math_utils.quat_rotate (math_utils.quat_mul q1 q2) v
  = math_utils.quat_rotate q1 (math_utils.quat_rotate q2 v).
Proof.
  destruct q1 as [w1 x1 y1 z1], q2 as [w2 x2 y2 z2], v as [a b c].
  unfold unit_quat. simpl. intros H1 H2.
  unfold math_utils.quat_rotate, math_utils.quat_mul,
    math_utils.cross, math_utils.dot. simpl.
  f_equal; nsatz.
Qed.

Lemma quat_rotate_inverse_mul q1 q2 v :
  unit_quat q1 -> unit_quat q2 ->
  math_utils.quat_rotate_inverse (math_utils.quat_mul q1 q2) v
  = math_utils.quat_rotate_inverse q2
      (math_utils.quat_rotate_inverse q1 v).
Proof.
  destruct q1 as [w1 x1 y1 z1], q2 as [w2 x2 y2 z2], v as [a b c].
  unfold unit_quat. simpl. intros H1 H2.
  unfold math_utils.quat_rotate_inverse, math_utils.quat_mul,
    math_utils.cross, math_utils.dot. simpl.
  f_equal; nsatz.
Qed.

Lemma tf_d_quat_leg1link4 cfg :
  body_name cfg = "leg1link4"%string ->
  tf_d_quat cfg = Ok (Quat (1 / 2) (1 / 2) (- (1 / 2)) (- (1 / 2))).
Proof.
  intros H. unfold tf_d_quat. rewrite H.
  change (tf_d_matrix "leg1link4")
    with (Ok (Mat3 (Vec3 0 0 (-1)) (Vec3 (-1) 0 0) (Vec3 0 1 0))).
  by rewrite bind_Ok_l, quat_from_matrix_leg1link4.
Qed.

Lemma quat_rotate_inverse_zero q :
  math_utils.quat_rotate_inverse q zero3 = zero3.
Proof.
  unfold math_utils.quat_rotate_inverse, zero3, math_utils.cross,
    math_utils.dot. simpl. f_equal; ring.
Qed.

(** ** Claim C7: what the tracking metrics compare *)

(** C7 (amended). [_update_metrics] returns, and for every environment it
    adds to the linear accumulator the norm of the xy difference between
    the command and the linear velocity of the reference body expressed in
    the desired frame, and to the angular accumulator the absolute
    difference between the commanded angular z and the z component of the
    world-frame angular velocity of the body, each divided by the number
    of steps of the longest resampling interval. *)
Theorem tracking_metrics cfg env n data self :
  known_body cfg -> step_dt env <> 0 ->
  snd (resampling_time_range cfg) <> 0 ->
  well_shaped n self -> data_shaped n data ->
  exists tf self',
    tf_d_quat cfg = Ok tf /\
    _update_metrics cfg env data self = Ok self' /\
    forall i c q v w exy eyaw,
      vel_command_b self !! i = Some c ->
      body_quat_w data !! i = Some q ->
      body_lin_vel_w data !! i = Some v ->
      body_ang_vel_w data !! i = Some w ->
      error_vel_xy self !! i = Some exy ->
      error_vel_yaw self !! i = Some eyaw ->
      error_vel_xy self' !! i
        = Some (exy
                + err_xy c (math_utils.quat_rotate_inverse
                              (math_utils.quat_mul q tf) v)
                  / (snd (resampling_time_range cfg) / step_dt env)) /\
      error_vel_yaw self' !! i
        = Some (eyaw
                + Rabs (vz c - vz w)
                  / (snd (resampling_time_range cfg) / step_dt env)).
Proof.
  intros Hk Hdt _ Hws Hds.
  destruct (update_metrics_total cfg env n data self Hk Hdt Hws Hds)
    as (lin_d & Hlin & Hlen & H).
  destruct (get_body_vel_d_Ok _ _ _ _ Hlin) as (tf & Htf & _ & ->).
  exists tf. eexists. split; [done|]. split; [done|].
  intros i c q v w exy eyaw Hc Hq Hv Hw Hx Hy.
  apply accumulate_lookup; try done.
  rewrite lookup_zip_with, Hq. simpl. by rewrite Hv.
Qed.

(** The extension's copy compares both terms with world-frame
    velocities. *)
Lemma extension_update_metrics_Ok cfg env data self self' :
  Extension._update_metrics cfg env data self = Ok self' ->
  self' = accumulate (snd (resampling_time_range cfg) / step_dt env)
            self (body_lin_vel_w data) (body_ang_vel_w data).
Proof.
  unfold Extension._update_metrics. intros H.
  inv_bind H as steps Hs. apply max_command_step_Ok in Hs as [Hdt ->].
  inv_bind H as dxy Hdxy. inv_bind H as exy Hexy.
  inv_bind H as dyaw Hdyaw. inv_bind H as eyaw Heyaw. injection H as <-.
  apply map2_Ok in Hdxy as [Hl1 ->]. apply map2_Ok in Hexy as [Hl2 ->].
  apply map2_Ok in Hdyaw as [Hl3 ->]. apply map2_Ok in Heyaw as [Hl4 ->].
  done.
Qed.

Lemma spec_update_metrics_total cfg env n data self :
  known_body cfg -> step_dt env <> 0 ->
  well_shaped n self -> data_shaped n data ->
  exists lin_d ang_d,
    _get_body_vel_d cfg data (body_lin_vel_w data) = Ok lin_d /\
    _get_body_vel_d cfg data (body_ang_vel_w data) = Ok ang_d /\
    spec_update_metrics cfg env data self
    = Ok (accumulate (snd (resampling_time_range cfg) / step_dt env)
            self lin_d ang_d).
Proof.
  intros Hk Hdt [Hv Ht Hh Hs Hx Hy] [Hq Hl Ha].
  destruct (get_body_vel_d_total cfg n data (body_lin_vel_w data) Hk Hq Hl)
    as (lin_d & Hlin & Hlen).
  destruct (get_body_vel_d_total cfg n data (body_ang_vel_w data) Hk Hq Ha)
    as (ang_d & Hang & Hlen').
  exists lin_d, ang_d. split; [done|]. split; [done|].
  unfold spec_update_metrics.
  assert (Hs' : max_command_step cfg env
                = Ok (snd (resampling_time_range cfg) / step_dt env))
    by (by apply max_command_step_Ok).
  rewrite Hs', bind_Ok_l, Hlin, bind_Ok_l, Hang, bind_Ok_l.
  rewrite (map2_total err_xy) by congruence. rewrite bind_Ok_l.
  rewrite (map2_total Rplus)
    by (rewrite length_fmap, length_zip_with; lia).
  rewrite bind_Ok_l.
  rewrite (map2_total err_yaw) by congruence. rewrite bind_Ok_l.
  rewrite (map2_total Rplus)
    by (rewrite length_fmap, length_zip_with; lia).
  done.
Qed.

Import Examples.

(** With the body at the identity orientation and rolling at 1 rad/s about
    its world x axis, which is the -z axis of the desired frame of
    "leg1link4", the code adds 0 to the angular accumulator of a zero
    command, where the comparison in the desired frame adds 1/200. *)
Lemma tracking_metrics_counterexample :
  exists self_code self_spec,
    _update_metrics vehicle_cfg env2 data2 rest_self = Ok self_code /\
    spec_update_metrics vehicle_cfg env2 data2 rest_self = Ok self_spec /\
    error_vel_yaw self_code !! 0%nat = Some 0 /\
    error_vel_yaw self_spec !! 0%nat = Some (1 / 200) /\
    error_vel_yaw self_code <> error_vel_yaw self_spec.
Proof.
  cut (exists self_code self_spec,
    _update_metrics vehicle_cfg env2 data2 rest_self = Ok self_code /\
    spec_update_metrics vehicle_cfg env2 data2 rest_self = Ok self_spec /\
    error_vel_yaw self_code !! 0%nat = Some 0 /\
    error_vel_yaw self_spec !! 0%nat = Some (1 / 200)).
  { intros (sc & ss & H1 & H2 & H3 & H4). exists sc, ss.
    repeat split; try done. intros Heq. rewrite Heq, H4 in H3.
    injection H3. lra. }
  assert (Hk : known_body vehicle_cfg) by (by right).
  assert (Hdt : step_dt env2 <> 0) by (simpl; lra).
  assert (Hws : well_shaped 2 rest_self) by (by split).
  assert (Hds : data_shaped 2 data2) by (by split).
  destruct (update_metrics_total _ _ _ _ _ Hk Hdt Hws Hds)
    as (lin_d & Hlin & _ & Hcode).
  destruct (spec_update_metrics_total _ _ _ _ _ Hk Hdt Hws Hds)
    as (lin_d' & ang_d & Hlin' & Hang & Hspec).
  eexists _, _. split; [exact Hcode|]. split; [exact Hspec|].
  destruct (get_body_vel_d_Ok _ _ _ _ Hlin) as (tf & Htf & _ & ->).
  destruct (get_body_vel_d_Ok _ _ _ _ Hang) as (tf' & Htf' & _ & ->).
  rewrite tf_d_quat_leg1link4 in Htf, Htf' by done.
  injection Htf as <-. injection Htf' as <-.
  simpl. unfold err_yaw, math_utils.quat_rotate_inverse,
    math_utils.cross, math_utils.dot. simpl.
  split; f_equal.
  - rewrite Rminus_diag, Rabs_R0. lra.
  - match goal with |- context [Rabs ?x] => replace x with 1 by lra end.
    rewrite Rabs_R1. lra.
Qed.

(** ** Claim C8: 200 ticks of unit error *)

Lemma update_metrics_with cfg env n data self lin_d :
  step_dt env <> 0 -> well_shaped n self ->
  length (body_ang_vel_w data) = n ->
  _get_body_vel_d cfg data (body_lin_vel_w data) = Ok lin_d ->
  length lin_d = n ->
  _update_metrics cfg env data self
  = Ok (accumulate (snd (resampling_time_range cfg) / step_dt env)
          self lin_d (body_ang_vel_w data)).
Proof.
  intros Hdt [Hv Ht Hh Hs Hx Hy] Ha Hlin Hlen. unfold _update_metrics.
  assert (Hs' : max_command_step cfg env
                = Ok (snd (resampling_time_range cfg) / step_dt env))
    by (by apply max_command_step_Ok).
  rewrite Hs', bind_Ok_l, Hlin, bind_Ok_l.
  rewrite (map2_total err_xy) by congruence. rewrite bind_Ok_l.
  rewrite (map2_total Rplus)
    by (rewrite length_fmap, length_zip_with; lia).
  rewrite bind_Ok_l.
  rewrite (map2_total err_yaw) by congruence. rewrite bind_Ok_l.
  rewrite (map2_total Rplus)
    by (rewrite length_fmap, length_zip_with; lia).
  done.
Qed.

Lemma err_xy_unit (c v : vec3) :
  vx c = 1 /\ vy c = 0 -> vx v = 0 /\ vy v = 0 -> err_xy c v = 1.
Proof.
  intros [Hcx Hcy] [Hvx Hvy]. unfold err_xy.
  rewrite Hcx, Hcy, Hvx, Hvy.
  replace ((1 - 0) * (1 - 0) + (0 - 0) * (0 - 0)) with 1 by lra.
  apply sqrt_1.
Qed.

Lemma zip_err_xy_unit n (cmds lin : list vec3) :
  length cmds = n -> length lin = n ->
  Forall (fun c => vx c = 1 /\ vy c = 0) cmds ->
  Forall (fun v => vx v = 0 /\ vy v = 0) lin ->
  zip_with err_xy cmds lin = replicate n 1.
Proof.
  intros Hc Hl Hcmds. revert n lin Hc Hl.
  induction Hcmds as [|c cmds Hc0 _ IH]; intros n lin Hc Hl Hlin;
    destruct Hlin as [|v lin Hv0 Hlin]; simpl in *; subst n;
    try discriminate Hl; [done|].
  rewrite (err_xy_unit c v) by done. simpl. f_equal.
  apply IH; [done|lia|done].
Qed.

(** One call with unit linear error adds [1 / steps] to every linear
    accumulator. *)
Lemma accumulate_unit n steps self lin ang a :
  well_shaped n self -> length lin = n ->
  Forall (fun c => vx c = 1 /\ vy c = 0) (vel_command_b self) ->
  Forall (fun v => vx v = 0 /\ vy v = 0) lin ->
  error_vel_xy self = replicate n a ->
  error_vel_xy (accumulate steps self lin ang)
  = replicate n (a + 1 / steps).
Proof.
  intros [Hv _ _ _ _ _] Hl Hc Hlin Hx. unfold accumulate. simpl.
  rewrite (zip_err_xy_unit n) by done.
  by rewrite fmap_replicate, Hx, zip_with_replicate.
Qed.

Lemma run_ticks cfg env n data lin_d k :
  step_dt env <> 0 -> data_shaped n data ->
  _get_body_vel_d cfg data (body_lin_vel_w data) = Ok lin_d ->
  Forall (fun v => vx v = 0 /\ vy v = 0) lin_d ->
  forall self a,
    well_shaped n self ->
    Forall (fun c => vx c = 1 /\ vy c = 0) (vel_command_b self) ->
    error_vel_xy self = replicate n a ->
    exists self',
      run cfg env self (replicate k (UpdateMetrics data)) = Ok self' /\
      error_vel_xy self'
      = replicate n
          (a + INR k / (snd (resampling_time_range cfg) / step_dt env)).
Proof.
  intros Hdt Hds Hlin Hzero.
  assert (Hlen : length lin_d = n).
  { destruct (get_body_vel_d_Ok _ _ _ _ Hlin) as (tf & _ & Hl & ->).
    rewrite length_zip_with. destruct Hds. lia. }
  induction k as [|k IH]; intros self a Hws Hcmd Hx; simpl.
  - exists self. split; [done|]. rewrite Hx. f_equal. lra.
  - rewrite (update_metrics_with cfg env n data self lin_d)
      by (try done; by destruct Hds).
    rewrite bind_Ok_l.
    destruct (IH (accumulate
                    (snd (resampling_time_range cfg) / step_dt env)
                    self lin_d (body_ang_vel_w data))
                 (a + 1 / (snd (resampling_time_range cfg) / step_dt env)))
      as (self' & Hrun & Hx').
    + apply accumulate_well_shaped; [done|done|by destruct Hds].
    + done.
    + by apply accumulate_unit.
    + exists self'. split; [done|]. rewrite Hx'. f_equal.
      destruct k; [simpl; lra|]. unfold Rdiv. ring.
Qed.

(** The accumulation scenario in exact real arithmetic: when the longest
    resampling interval is 200 steps, the commanded linear velocity is
    (1, 0) and the linear velocity measured in the desired frame is (0, 0),
    200 calls of [_update_metrics] return and take every linear accumulator
    from 0 to 1, the sum of 200 terms 1 / 200 without rounding. *)
Lemma metric_accumulation_exact cfg env n data self lin_d :
  snd (resampling_time_range cfg) / step_dt env = 200 ->
  well_shaped n self -> data_shaped n data ->
  _get_body_vel_d cfg data (body_lin_vel_w data) = Ok lin_d ->
  Forall (fun c => vx c = 1 /\ vy c = 0) (vel_command_b self) ->
  Forall (fun v => vx v = 0 /\ vy v = 0) lin_d ->
  error_vel_xy self = replicate n 0 ->
  exists self',
    run cfg env self (replicate 200 (UpdateMetrics data)) = Ok self' /\
    error_vel_xy self' = replicate n 1.
Proof.
  intros Hsteps Hws Hds Hlin Hcmd Hzero Hx.
  assert (Hdt : step_dt env <> 0).
  { intros Hz. unfold Rdiv in Hsteps. rewrite Hz, Rinv_0 in Hsteps. lra. }
  destruct (run_ticks cfg env n data lin_d 200 Hdt Hds Hlin Hzero
              self 0 Hws Hcmd Hx) as (self' & Hrun & Hx').
  exists self'. split; [done|]. rewrite Hx', Hsteps. f_equal.
  rewrite INR_IZR_INZ. change (Z.of_nat 200) with 200%Z. lra.
Qed.

(** ** The metric accumulation in binary32 *)

(** The error of the command (1, 0) against a body at rest is 1.0, for
    zeros of either sign. *)
Lemma err_xy_unit32 (c v : Float32.vec3) :
  Float32.vx c = Float32.of_Z 1 /\ Float32.is_zero (Float32.vy c) = true ->
  Float32.is_zero (Float32.vx v) = true /\
  Float32.is_zero (Float32.vy v) = true ->
  Float32.err_xy c v = Float32.of_Z 1.
Proof.
  intros [Hcx Hcy] [Hvx Hvy]. unfold Float32.err_xy. rewrite Hcx.
  destruct (Float32.vy c) as [[|]| | |]; try discriminate Hcy;
    destruct (Float32.vx v) as [[|]| | |]; try discriminate Hvx;
    destruct (Float32.vy v) as [[|]| | |]; try discriminate Hvy;
    reflexivity.
Qed.

Lemma zip_err_xy_unit32 n (cmds lin : list Float32.vec3) :
  length cmds = n -> length lin = n ->
  Forall (fun c => Float32.vx c = Float32.of_Z 1 /\
                   Float32.is_zero (Float32.vy c) = true) cmds ->
  Forall (fun v => Float32.is_zero (Float32.vx v) = true /\
                   Float32.is_zero (Float32.vy v) = true) lin ->
  zip_with Float32.err_xy cmds lin = replicate n (Float32.of_Z 1).
Proof.
  intros Hc Hl Hcmds. revert n lin Hc Hl.
  induction Hcmds as [|c cmds Hc0 _ IH]; intros n lin Hc Hl Hlin;
    destruct Hlin as [|v lin Hv0 Hlin]; simpl in *; subst n;
    try discriminate Hl; [done|].
  rewrite (err_xy_unit32 c v) by done. simpl. f_equal.
  apply IH; [done|lia|done].
Qed.

(** One call with unit linear error and 200 steps in the longest interval
    adds the binary32 quotient of 1 by 200 to every linear accumulator,
    rounding each sum. *)
Lemma update_metrics_unit32 n max_command_time step_dt lin ang self a :
  Float32.max_command_step max_command_time step_dt
  = Ok (Float64.of_Z 200) ->
  Float32.well_shaped n self -> length lin = n -> length ang = n ->
  Forall (fun c => Float32.vx c = Float32.of_Z 1 /\
                   Float32.is_zero (Float32.vy c) = true)
    (Float32.vel_command_b self) ->
  Forall (fun v => Float32.is_zero (Float32.vx v) = true /\
                   Float32.is_zero (Float32.vy v) = true) lin ->
  Float32.error_vel_xy self = replicate n a ->
  exists self',
    Float32._update_metrics max_command_time step_dt lin ang self
    = Ok self' /\
    Float32.well_shaped n self' /\
    Float32.vel_command_b self' = Float32.vel_command_b self /\
    Float32.error_vel_xy self'
    = replicate n
        (Float32.add a (Float32.div (Float32.of_Z 1) (Float32.of_Z 200))).
Proof.
  intros Hsteps (Hv & Hx & Hy) Hl Ha Hcmd Hlin Hxy.
  unfold Float32._update_metrics. rewrite Hsteps, bind_Ok_l.
  rewrite (map2_total Float32.err_xy) by congruence. rewrite bind_Ok_l.
  rewrite (zip_err_xy_unit32 n) by done.
  rewrite (map2_total Float32.add)
    by (rewrite length_fmap, length_replicate; congruence).
  rewrite bind_Ok_l.
  rewrite (map2_total Float32.err_yaw) by congruence. rewrite bind_Ok_l.
  rewrite (map2_total Float32.add)
    by (rewrite length_fmap, length_zip_with; lia).
  rewrite bind_Ok_l. eexists. split; [reflexivity|].
  rewrite fmap_replicate, Hxy, zip_with_replicate.
  split; [|by split].
  repeat split; simpl; [done|apply length_replicate|].
  rewrite length_zip_with, length_fmap, length_zip_with. lia.
Qed.

Lemma run_metrics_unit32 n max_command_time step_dt lin ang k :
  Float32.max_command_step max_command_time step_dt
  = Ok (Float64.of_Z 200) ->
  length lin = n -> length ang = n ->
  Forall (fun v => Float32.is_zero (Float32.vx v) = true /\
                   Float32.is_zero (Float32.vy v) = true) lin ->
  forall self a,
    Float32.well_shaped n self ->
    Forall (fun c => Float32.vx c = Float32.of_Z 1 /\
                     Float32.is_zero (Float32.vy c) = true)
      (Float32.vel_command_b self) ->
    Float32.error_vel_xy self = replicate n a ->
    exists self',
      Float32.run_metrics k max_command_time step_dt lin ang self
      = Ok self' /\
      Float32.error_vel_xy self'
      = replicate n
          (Nat.iter k
             (fun x => Float32.add x
                         (Float32.div (Float32.of_Z 1) (Float32.of_Z 200)))
             a).
Proof.
  intros Hsteps Hl Ha Hlin.
  induction k as [|k IH]; intros self a Hws Hcmd Hxy.
  - exists self. by split.
  - destruct (update_metrics_unit32 n _ _ lin ang self a
                Hsteps Hws Hl Ha Hcmd Hlin Hxy)
      as (self1 & H1 & Hws1 & Hc1 & Hx1).
    rewrite <- Hc1 in Hcmd.
    destruct (IH self1 _ Hws1 Hcmd Hx1) as (self' & Hrun & Hx').
    exists self'. split.
    + simpl. by rewrite H1, bind_Ok_l.
    + by rewrite Hx', Nat.iter_succ_r.
Qed.

(** C8. With 200 steps in the longest resampling interval, the commanded
    linear velocity (1, 0), the linear velocity measured in the desired
    frame (0, 0), zeros of either sign, and zeroed metrics, 200 calls of
    [_update_metrics] in the binary32 arithmetic of the metric buffer
    return and leave every linear accumulator at 16777203 / 2 ^ 24, that
    is 13 / 2 ^ 24 (less than a millionth) below 1. *)
Theorem metric_accumulation_float32 n max_command_time step_dt lin_d ang_w
    self :
  Float32.max_command_step max_command_time step_dt
  = Ok (Float64.of_Z 200) ->
  Float32.well_shaped n self -> length lin_d = n -> length ang_w = n ->
  Forall (fun c => Float32.vx c = Float32.of_Z 1 /\
                   Float32.is_zero (Float32.vy c) = true)
    (Float32.vel_command_b self) ->
  Forall (fun v => Float32.is_zero (Float32.vx v) = true /\
                   Float32.is_zero (Float32.vy v) = true) lin_d ->
  Float32.error_vel_xy self = replicate n (Float32.of_Z 0) ->
  exists self',
    Float32.run_metrics 200 max_command_time step_dt lin_d ang_w self
    = Ok self' /\
    Float32.error_vel_xy self'
    = replicate n (S754_finite false 16777203 (-24)) /\
    Float32.to_R (S754_finite false 16777203 (-24)) = 1 - 13 / 2 ^ 24 /\
    13 / 2 ^ 24 < 1 / 1000000.
Proof.
  intros Hsteps Hws Hl Ha Hcmd Hlin Hxy.
  destruct (run_metrics_unit32 n _ _ lin_d ang_w 200 Hsteps Hl Ha Hlin
              self _ Hws Hcmd Hxy) as (self' & Hrun & Hx').
  exists self'. split; [done|]. split.
  - rewrite Hx'. vm_compute. reflexivity.
  - split; [unfold Float32.to_R; simpl|]; lra.
Qed.

(** The scenario on two environments, with a longest interval of 10 s and
    steps of 0.05 s: the accumulators end below 1.0. *)
Lemma metric_accumulation_counterexample :
  exists self' x,
    Float32.run_metrics 200 (Float64.of_Z 10) (Float64.decimal 5 2)
      Float32.at_rest Float32.at_rest Float32.forward_self = Ok self' /\
    Float32.error_vel_xy self' = [x; x] /\
    SFcompare x (Float32.of_Z 1) = Some Lt /\
    Float32.to_R x <> 1.
Proof.
  eexists. exists (S754_finite false 16777203 (-24)).
  split; [vm_compute; reflexivity|]. split; [reflexivity|].
  split; [reflexivity|]. unfold Float32.to_R. simpl. lra.
Qed.

(** ** Counterexample to the bounds claim *)

Lemma bounds_counterexample :
  Forall (in_bounds play_cfg) (vel_command_b standing_self) /\
  _update_command play_cfg data2 standing_self
  = Ok (with_vel_command_b standing_self [zero3; Vec3 (1 / 10) 0 0]) /\
  ~ in_bounds play_cfg zero3.
Proof.
  split; [|split].
  - repeat constructor; simpl; lra.
  - reflexivity.
  - unfold in_bounds. simpl. lra.
Qed.

(** ** The theorems at concrete inputs *)

Lemma well_shaped_heading_self : well_shaped 2 heading_self.
Proof. by split. Qed.

Lemma data_shaped_data2 : data_shaped 2 data2.
Proof. by split. Qed.

Lemma known_body_vehicle_cfg : known_body vehicle_cfg.
Proof. by right. Qed.

Lemma ranges_ok_vehicle_cfg : ranges_ok vehicle_cfg.
Proof.
  unfold ranges_ok, range_ok. simpl. repeat split; try lra.
  intros _ range [= <-]. simpl. lra.
Qed.

Lemma uniform_scaled u n range :
  range_ok range -> uniform_ u n range = Ok (scaled u n range).
Proof. intros H. by apply uniform_Ok. Qed.

Lemma bounds_unless_standing_witness :
  exists self',
    _update_command vehicle_cfg data2 heading_self = Ok self' /\
    forall i v, vel_command_b heading_self !! i = Some v ->
      in_bounds vehicle_cfg v ->
      exists v',
        command self' !! i = Some v' /\
        (is_standing_env heading_self !! i = Some true -> v' = zero3) /\
        (is_standing_env heading_self !! i = Some false
         \/ in_bounds vehicle_cfg zero3 -> in_bounds vehicle_cfg v').
Proof.
  apply (bounds_unless_standing vehicle_cfg 2 data2 heading_self).
  - exact well_shaped_heading_self.
  - exact data_shaped_data2.
  - intros _. exact known_body_vehicle_cfg.
Defined.

Lemma standing_precedence_witness :
  exists self1 self',
    heading_step vehicle_cfg data2 heading_self = Ok self1 /\
    standing_step self1 = Ok self' /\
    _update_command vehicle_cfg data2 heading_self = Ok self' /\
    forall i, is_standing_env heading_self !! i = Some true ->
      command self' !! i = Some zero3.
Proof.
  apply (standing_precedence vehicle_cfg 2 data2 heading_self).
  - exact well_shaped_heading_self.
  - exact data_shaped_data2.
  - intros _. exact known_body_vehicle_cfg.
Defined.

Lemma heading_control_witness :
  exists quat_d self1,
    _get_body_quat_d vehicle_cfg data2 = Ok quat_d /\
    heading_step vehicle_cfg data2 heading_self = Ok self1 /\
    _update_command vehicle_cfg data2 heading_self = standing_step self1 /\
    forall i v, vel_command_b heading_self !! i = Some v ->
      (is_heading_env heading_self !! i = Some true ->
       exists target q,
         heading_target heading_self !! i = Some target /\
         quat_d !! i = Some q /\
         vel_command_b self1 !! i =
           Some (Vec3 (vx v) (vy v)
                   (clip (heading_control_stiffness vehicle_cfg
                          * math_utils.wrap_to_pi
                              (target - math_utils.euler_z_from_quat q))
                      (fst (ang_vel_z (ranges vehicle_cfg)))
                      (snd (ang_vel_z (ranges vehicle_cfg)))))) /\
      (is_heading_env heading_self !! i = Some false ->
       vel_command_b self1 !! i = Some v).
Proof.
  apply (heading_control vehicle_cfg 2 data2 heading_self).
  - reflexivity.
  - exact known_body_vehicle_cfg.
  - exact well_shaped_heading_self.
  - exact data_shaped_data2.
Defined.

Lemma construction_failure_witness :
  __init__ no_range_cfg env2 = Raise ValueError /\
  (forall self, __init__ no_range_cfg env2 <> Ok self) /\
  (forall self env_ids d,
     _resample_command no_range_cfg self env_ids d <> Raise ValueError).
Proof.
  apply (construction_failure no_range_cfg env2); reflexivity.
Defined.

Lemma resample_independence_witness :
  exists self',
    _resample_command vehicle_cfg heading_self [0%nat] half_draws
    = Ok self' /\
    well_shaped 2 self' /\
    forall j, j ∉ [0%nat] -> same_entry j heading_self self'.
Proof.
  apply (resample_independence vehicle_cfg 2 heading_self [0%nat]
           half_draws).
  - exact well_shaped_heading_self.
  - repeat constructor.
  - intros _. discriminate.
  - exact ranges_ok_vehicle_cfg.
Defined.

Lemma tracking_metrics_witness :
  exists tf self',
    tf_d_quat vehicle_cfg = Ok tf /\
    _update_metrics vehicle_cfg env2 data2 rest_self = Ok self' /\
    forall i c q v w exy eyaw,
      vel_command_b rest_self !! i = Some c ->
      body_quat_w data2 !! i = Some q ->
      body_lin_vel_w data2 !! i = Some v ->
      body_ang_vel_w data2 !! i = Some w ->
      error_vel_xy rest_self !! i = Some exy ->
      error_vel_yaw rest_self !! i = Some eyaw ->
      error_vel_xy self' !! i
        = Some (exy
                + err_xy c (math_utils.quat_rotate_inverse
                              (math_utils.quat_mul q tf) v)
                  / (snd (resampling_time_range vehicle_cfg)
                     / step_dt env2)) /\
      error_vel_yaw self' !! i
        = Some (eyaw
                + Rabs (vz c - vz w)
                  / (snd (resampling_time_range vehicle_cfg)
                     / step_dt env2)).
Proof.
  apply (tracking_metrics vehicle_cfg env2 2 data2 rest_self).
  - exact known_body_vehicle_cfg.
  - simpl. lra.
  - simpl. lra.
  - by split.
  - exact data_shaped_data2.
Defined.

Lemma metric_accumulation_exact_witness :
  exists self',
    run vehicle_cfg env2 forward_self (replicate 200 (UpdateMetrics data2))
    = Ok self' /\
    error_vel_xy self' = replicate 2 1.
Proof.
  destruct (get_body_vel_d_total vehicle_cfg 2 data2 (body_lin_vel_w data2)
              known_body_vehicle_cfg eq_refl eq_refl)
    as (lin_d & Hlin & _).
  apply (metric_accumulation_exact vehicle_cfg env2 2 data2 forward_self
           lin_d).
  - simpl. lra.
  - by split.
  - exact data_shaped_data2.
  - exact Hlin.
  - repeat constructor.
  - destruct (get_body_vel_d_Ok _ _ _ _ Hlin) as (tf & _ & _ & ->).
    simpl. rewrite !quat_rotate_inverse_zero. repeat constructor.
  - reflexivity.
Defined.

Lemma metric_accumulation_float32_witness :
  exists self',
    Float32.run_metrics 200 (Float64.of_Z 10) (Float64.decimal 5 2)
      Float32.at_rest Float32.at_rest Float32.forward_self = Ok self' /\
    Float32.error_vel_xy self'
    = replicate 2 (S754_finite false 16777203 (-24)) /\
    Float32.to_R (S754_finite false 16777203 (-24)) = 1 - 13 / 2 ^ 24 /\
    13 / 2 ^ 24 < 1 / 1000000.
Proof.
  apply (metric_accumulation_float32 2 (Float64.of_Z 10)
           (Float64.decimal 5 2) Float32.at_rest Float32.at_rest
           Float32.forward_self).
  - vm_compute. reflexivity.
  - repeat split.
  - reflexivity.
  - reflexivity.
  - repeat constructor.
  - repeat constructor.
  - reflexivity.
Defined.

Lemma heading_disabled_witness :
  exists self0 self,
    __init__ play_cfg env2 = Ok self0 /\
    run play_cfg env2 self0
      [Resample [0%nat] half_draws; UpdateCommand data2] = Ok self /\
    heading_target self = replicate (num_envs env2) 0 /\
    is_heading_env self = replicate (num_envs env2) false /\
    forall data,
      heading_step play_cfg data self = Ok self /\
      exists self',
        _update_command play_cfg data self = Ok self' /\
        forall i v, vel_command_b self !! i = Some v ->
          (is_standing_env self !! i = Some true ->
           command self' !! i = Some zero3) /\
          (is_standing_env self !! i = Some false ->
           command self' !! i = Some v).
Proof.
  assert (Hrun : exists self,
             run play_cfg env2
               {| vel_command_b := replicate (num_envs env2) zero3;
                  heading_target := replicate (num_envs env2) 0;
                  is_heading_env := replicate (num_envs env2) false;
                  is_standing_env := replicate (num_envs env2) false;
                  error_vel_xy := replicate (num_envs env2) 0;
                  error_vel_yaw := replicate (num_envs env2) 0 |}
               [Resample [0%nat] half_draws; UpdateCommand data2]
             = Ok self).
  { cbn [run step]. unfold _resample_command.
    rewrite !uniform_scaled by (unfold range_ok; simpl; lra).
    simpl. rewrite Rleb_false by lra. simpl. by eexists. }
  destruct Hrun as [self Hrun].
  eexists _, self. split; [reflexivity|]. split; [exact Hrun|].
  exact (heading_disabled play_cfg env2 _ _ self eq_refl eq_refl Hrun).
Defined.

(** * Further properties of the generator *)

(** ** Scatter and gather, continued *)

Lemma index_put_Ok_lt {A B} (upd : A -> B -> A) (t : list A) ids
    (vals : list B) t' :
  Tensor.index_put upd t ids vals = Ok t' ->
  Forall (fun i => (i < length t)%nat) ids /\ length vals = length ids.
Proof.
  revert t vals; induction ids as [|i ids IH]; intros t [|v vals] H;
    simpl in H; try discriminate H.
  - done.
  - destruct (t !! i) as [a|] eqn:Hi; [|discriminate H].
    apply IH in H as [Hall Hlen]. rewrite length_insert in Hall.
    split; [|simpl; lia]. constructor; [|done].
    by eapply lookup_lt_Some.
Qed.

Lemma lookup_scaled_lt u n range p :
  (p < n)%nat ->
  scaled u n range !! p = Some (fst range + (snd range - fst range) * u p).
Proof.
  intros Hp. unfold scaled. rewrite list_lookup_fmap.
  by rewrite lookup_seq_lt.
Qed.

(** ** Resampling, position by position *)

(** The command and the flags that a resample writes for the environment
    at position [p] of duplicate-free [env_ids]. *)
Lemma resample_at cfg self env_ids d self' p j :
  _resample_command cfg self env_ids d = Ok self' ->
  NoDup env_ids -> env_ids !! p = Some j ->
  vel_command_b self' !! j
  = Some (Vec3
            (fst (lin_vel_x (ranges cfg))
             + (snd (lin_vel_x (ranges cfg)) - fst (lin_vel_x (ranges cfg)))
               * u_lin_vel_x d p)
            (fst (lin_vel_y (ranges cfg))
             + (snd (lin_vel_y (ranges cfg)) - fst (lin_vel_y (ranges cfg)))
               * u_lin_vel_y d p)
            (fst (ang_vel_z (ranges cfg))
             + (snd (ang_vel_z (ranges cfg)) - fst (ang_vel_z (ranges cfg)))
               * u_ang_vel_z d p)) /\
  is_standing_env self' !! j
  = Some (Rleb (u_is_standing d p) (rel_standing_envs cfg)) /\
  (heading_command cfg = true ->
   exists range,
     heading (ranges cfg) = Some range /\
     heading_target self' !! j
     = Some (fst range + (snd range - fst range) * u_heading d p) /\
     is_heading_env self' !! j
     = Some (Rleb (u_is_heading d p) (rel_heading_envs cfg))).
Proof.
  intros H Hnd Hp.
  destruct (resample_inv _ _ _ _ _ H)
    as (c1 & c2 & _ & H1 & H2 & H3 & H4 & H5 & _).
  assert (Hpn : (p < length env_ids)%nat) by (by eapply lookup_lt_Some).
  assert (Hunit : forall u, 0 + (1 - 0) * u = u) by (intros; lra).
  assert (Hflag : forall (t t' : list bool) u r,
            Tensor.index_put (fun _ b => b) t env_ids
              ((fun x => Rleb x r) <$> scaled u (length env_ids) (0, 1))
            = Ok t' ->
            t' !! j = Some (Rleb (u p) r)).
  { intros t t' u r Ht.
    destruct (index_put_Ok_lt _ _ _ _ _ Ht) as [Hall _].
    rewrite Forall_forall in Hall.
    destruct (lookup_lt_is_Some_2 t j) as [b Hb].
    { apply Hall. by eapply list_elem_of_lookup_2. }
    rewrite (index_put_hit _ _ _ _ _ p j b (Rleb (u p) r) Ht Hnd Hp);
      [done| |done].
    rewrite list_lookup_fmap, lookup_scaled_lt by done. simpl.
    by rewrite Hunit. }
  split; [|split].
  - destruct (index_put_Ok_lt _ _ _ _ _ H1) as [Hall _].
    rewrite Forall_forall in Hall.
    destruct (lookup_lt_is_Some_2 (vel_command_b self) j) as [a Ha].
    { apply Hall. by eapply list_elem_of_lookup_2. }
    pose proof (index_put_hit _ _ _ _ _ p j a _ H1 Hnd Hp
                  (lookup_scaled_lt _ _ _ _ Hpn) Ha) as Hc1.
    pose proof (index_put_hit _ _ _ _ _ p j _ _ H2 Hnd Hp
                  (lookup_scaled_lt _ _ _ _ Hpn) Hc1) as Hc2.
    pose proof (index_put_hit _ _ _ _ _ p j _ _ H3 Hnd Hp
                  (lookup_scaled_lt _ _ _ _ Hpn) Hc2) as Hc3.
    exact Hc3.
  - by eapply Hflag.
  - intros Hc. rewrite Hc in H4. destruct H4 as (range & Hr & H6 & H7).
    exists range. split; [done|]. split; [|by eapply Hflag].
    destruct (index_put_Ok_lt _ _ _ _ _ H6) as [Hall _].
    rewrite Forall_forall in Hall.
    destruct (lookup_lt_is_Some_2 (heading_target self) j) as [a Ha].
    { apply Hall. by eapply list_elem_of_lookup_2. }
    exact (index_put_hit _ _ _ _ _ p j a _ H6 Hnd Hp
             (lookup_scaled_lt _ _ _ _ Hpn) Ha).
Qed.

Lemma Rleb_unit_true (u r : R) :
  u < 1 -> 1 <= r -> Rleb (0 + (1 - 0) * u) r = true.
Proof. intros Hu Hr. apply Rleb_true. lra. Qed.

Lemma Rleb_unit_false (u r : R) :
  0 <= u -> r < 0 -> Rleb (0 + (1 - 0) * u) r = false.
Proof. intros Hu Hr. apply Rleb_false. lra. Qed.

(** A flag scatter whose values all equal [b] leaves [b] at every written
    index. *)
Lemma flag_put_const (t t' : list bool) ids (vals : list bool) j b :
  Tensor.index_put (fun _ b' => b') t ids vals = Ok t' ->
  Forall (eq b) vals -> j ∈ ids -> t' !! j = Some b.
Proof.
  intros H Hvals Hj.
  destruct (index_put_Ok_lt _ _ _ _ _ H) as [Hall _].
  rewrite Forall_forall in Hall.
  destruct (lookup_lt_is_Some_2 t' j) as [b' Hb'].
  { rewrite (index_put_length _ _ _ _ _ H). by apply Hall. }
  rewrite Hb'. f_equal. symmetry.
  exact (index_put_written (fun _ b' => b') (fun b' => b') (eq b)
           _ _ _ _ j b' (fun _ _ => eq_refl) H Hvals Hj Hb').
Qed.

(** ** The buffers are never resized *)

(** X1: after the constructor, every sequence of resample, update and metric
    calls that returns leaves each of the six buffers with exactly
    [num_envs] entries. *)
Theorem buffers_never_resized cfg env self0 calls self :
  __init__ cfg env = Ok self0 ->
  run cfg env self0 calls = Ok self ->
  well_shaped (num_envs env) self /\
  length (command self) = num_envs env.
Proof.
  intros Hinit Hrun.
  assert (Hws : well_shaped (num_envs env) self).
  { eapply run_well_shaped; [exact Hrun|]. by eapply init_well_shaped. }
  split; [done|]. by destruct Hws.
Qed.

(** ** Resampling no environment *)

(** X2: with ranges that are not inverted, a resample of the empty index
    list returns the generator unchanged. *)
Theorem resample_nothing cfg self d :
  ranges_ok cfg ->
  (heading_command cfg = true -> heading (ranges cfg) <> None) ->
  _resample_command cfg self [] d = Ok self.
Proof.
  intros (Hx & Hy & Hz & Hh) Hcfg. unfold _resample_command.
  rewrite !uniform_scaled by (done || (unfold range_ok; simpl; lra)).
  simpl. destruct (heading_command cfg).
  - destruct (heading (ranges cfg)) as [range|]; [|by destruct Hcfg].
    rewrite !uniform_scaled by
      (by apply Hh || (unfold range_ok; simpl; lra)).
    simpl. by destruct self.
  - simpl. by destruct self.
Qed.

(** ** What a resample writes *)

(** X3: for duplicate-free [env_ids], a resample gives the environment at
    position [p] the [p]-th draw of each quantity (scaled to its range, or
    compared with the standing or heading probability) and leaves every
    other environment as it was. *)
Theorem resample_writes_draws cfg self env_ids d self' :
  _resample_command cfg self env_ids d = Ok self' ->
  NoDup env_ids ->
  forall j,
    (forall p, env_ids !! p = Some j ->
       vel_command_b self' !! j
       = Some (Vec3
                 (fst (lin_vel_x (ranges cfg))
                  + (snd (lin_vel_x (ranges cfg))
                     - fst (lin_vel_x (ranges cfg))) * u_lin_vel_x d p)
                 (fst (lin_vel_y (ranges cfg))
                  + (snd (lin_vel_y (ranges cfg))
                     - fst (lin_vel_y (ranges cfg))) * u_lin_vel_y d p)
                 (fst (ang_vel_z (ranges cfg))
                  + (snd (ang_vel_z (ranges cfg))
                     - fst (ang_vel_z (ranges cfg))) * u_ang_vel_z d p)) /\
       is_standing_env self' !! j
       = Some (Rleb (u_is_standing d p) (rel_standing_envs cfg)) /\
       (heading_command cfg = true ->
        exists range,
          heading (ranges cfg) = Some range /\
          heading_target self' !! j
          = Some (fst range + (snd range - fst range) * u_heading d p) /\
          is_heading_env self' !! j
          = Some (Rleb (u_is_heading d p) (rel_heading_envs cfg)))) /\
    (j ∉ env_ids -> same_entry j self self').
Proof.
  intros H Hnd j. split.
  - intros p Hp. by eapply resample_at.
  - intros Hj. by eapply resample_frame.
Qed.

(** ** The extremes of the standing and heading probabilities *)

(** X4: with unit samples in [0, 1): a standing probability of 1 or more
    makes every resampled environment stand, a negative one makes none
    stand; in heading mode the same holds of the heading probability and the
    heading flag. *)
Theorem probability_extremes cfg self env_ids d self' j :
  _resample_command cfg self env_ids d = Ok self' ->
  (forall p, 0 <= u_is_standing d p < 1) ->
  (forall p, 0 <= u_is_heading d p < 1) ->
  j ∈ env_ids ->
  (1 <= rel_standing_envs cfg -> is_standing_env self' !! j = Some true) /\
  (rel_standing_envs cfg < 0 -> is_standing_env self' !! j = Some false) /\
  (heading_command cfg = true ->
   (1 <= rel_heading_envs cfg -> is_heading_env self' !! j = Some true) /\
   (rel_heading_envs cfg < 0 -> is_heading_env self' !! j = Some false)).
Proof.
  intros H Hus Huh Hj.
  destruct (resample_inv _ _ _ _ _ H)
    as (c1 & c2 & _ & _ & _ & _ & H4 & H5 & _).
  assert (Hall : forall (u : nat -> R) r b,
            (forall p, Rleb (0 + (1 - 0) * u p) r = b) ->
            Forall (eq b)
              ((fun x => Rleb x r) <$> scaled u (length env_ids) (0, 1))).
  { intros u r b Hb. apply Forall_forall. intros x Hx.
    apply list_elem_of_fmap in Hx as (y & -> & Hy).
    apply list_elem_of_lookup_1 in Hy as [p Hp].
    apply lookup_scaled in Hp as [_ ->]. simpl. by rewrite Hb. }
  split; [|split].
  - intros Hr. eapply flag_put_const; [exact H5| |done].
    apply Hall. intros p. apply Rleb_unit_true; [apply Hus|done].
  - intros Hr. eapply flag_put_const; [exact H5| |done].
    apply Hall. intros p. apply Rleb_unit_false; [apply Hus|done].
  - intros Hc. rewrite Hc in H4. destruct H4 as (range & _ & _ & H7).
    split.
    + intros Hr. eapply flag_put_const; [exact H7| |done].
      apply Hall. intros p. apply Rleb_unit_true; [apply Huh|done].
    + intros Hr. eapply flag_put_const; [exact H7| |done].
      apply Hall. intros p. apply Rleb_unit_false; [apply Huh|done].
Qed.

(** ** Sampled values lie within their ranges *)

(** X5: with unit samples in [0, 1), every resampled environment gets a
    command within the three velocity ranges and, in heading mode, a heading
    target within the heading range. *)
Theorem sampled_within_ranges cfg self env_ids d self' j :
  _resample_command cfg self env_ids d = Ok self' ->
  (forall p, 0 <= u_lin_vel_x d p < 1) ->
  (forall p, 0 <= u_lin_vel_y d p < 1) ->
  (forall p, 0 <= u_ang_vel_z d p < 1) ->
  (forall p, 0 <= u_heading d p < 1) ->
  j ∈ env_ids ->
  (exists v, vel_command_b self' !! j = Some v /\ in_bounds cfg v) /\
  (heading_command cfg = true ->
   exists range h,
     heading (ranges cfg) = Some range /\
     heading_target self' !! j = Some h /\
     fst range <= h <= snd range).
Proof.
  intros H Hux Huy Huz Huh Hj. split.
  - destruct (resample_inv _ _ _ _ _ H)
      as (c1 & c2 & _ & _ & _ & H3 & _).
    destruct (index_put_Ok_lt _ _ _ _ _ H3) as [Hall _].
    rewrite Forall_forall in Hall.
    destruct (lookup_lt_is_Some_2 (vel_command_b self') j) as [v Hv].
    { rewrite (index_put_length _ _ _ _ _ H3). by apply Hall. }
    exists v. split; [done|]. by eapply resample_in_bounds.
  - intros Hc.
    destruct (resample_inv _ _ _ _ _ H)
      as (c1 & c2 & (_ & _ & _ & Hrh) & _ & _ & _ & H4 & _).
    rewrite Hc in H4. destruct H4 as (range & Hr & H6 & _).
    destruct (index_put_Ok_lt _ _ _ _ _ H6) as [Hall _].
    rewrite Forall_forall in Hall.
    destruct (lookup_lt_is_Some_2 (heading_target self') j) as [h Hh].
    { rewrite (index_put_length _ _ _ _ _ H6). by apply Hall. }
    exists range, h. split; [done|]. split; [done|].
    exact (index_put_written (fun _ v => v) (fun v => v)
             (fun x => fst range <= x <= snd range)
             _ _ _ _ j h (fun _ _ => eq_refl) H6
             (scaled_in_range _ _ _ (Hrh Hc range Hr) Huh) Hj Hh).
Qed.

(** ** Concrete calls for the theorems above *)

Lemma example_resample :
  exists self',
    _resample_command vehicle_cfg heading_self [0%nat] half_draws = Ok self'.
Proof.
  apply (resample_total vehicle_cfg 2).
  - exact well_shaped_heading_self.
  - repeat constructor.
  - intros _. discriminate.
  - exact ranges_ok_vehicle_cfg.
Qed.

Lemma example_play_run :
  exists self0 self,
    __init__ play_cfg env2 = Ok self0 /\
    run play_cfg env2 self0
      [Resample [0%nat] half_draws; UpdateCommand data2] = Ok self.
Proof.
  eexists _, _. split; [reflexivity|].
  cbn [run step]. unfold _resample_command.
  rewrite !uniform_scaled by (unfold range_ok; simpl; lra).
  simpl. rewrite Rleb_false by lra. simpl. reflexivity.
Qed.

Lemma half_unit : forall p : nat, 0 <= 1 / 2 < 1.
Proof. intros _. lra. Qed.

Lemma buffers_never_resized_witness :
  exists self,
    well_shaped (num_envs env2) self /\
    length (command self) = num_envs env2.
Proof.
  destruct example_play_run as (self0 & self & Hinit & Hrun).
  exists self.
  exact (buffers_never_resized play_cfg env2 self0 _ self Hinit Hrun).
Defined.

Lemma resample_nothing_witness :
  _resample_command vehicle_cfg heading_self [] half_draws = Ok heading_self.
Proof.
  apply (resample_nothing vehicle_cfg heading_self half_draws).
  - exact ranges_ok_vehicle_cfg.
  - intros _. discriminate.
Defined.

Lemma resample_writes_draws_witness :
  exists self',
    vel_command_b self' !! 0%nat
    = Some (Vec3 (1 / 2 + (1 / 2 - 1 / 2) * (1 / 2))
              (- (1 / 2) + (1 / 2 - - (1 / 2)) * (1 / 2))
              (0 + (0 - 0) * (1 / 2))) /\
    same_entry 1 heading_self self'.
Proof.
  destruct example_resample as [self' H]. exists self'.
  destruct (resample_writes_draws vehicle_cfg heading_self [0%nat]
              half_draws self' H (NoDup_singleton 0%nat) 0%nat)
    as [Hat _].
  destruct (resample_writes_draws vehicle_cfg heading_self [0%nat]
              half_draws self' H (NoDup_singleton 0%nat) 1%nat)
    as [_ Hframe].
  split.
  - exact (proj1 (Hat 0%nat eq_refl)).
  - apply Hframe. intros Hin. apply list_elem_of_singleton in Hin.
    discriminate Hin.
Defined.

Lemma probability_extremes_witness :
  exists self',
    (1 <= rel_standing_envs vehicle_cfg ->
     is_standing_env self' !! 0%nat = Some true) /\
    (rel_standing_envs vehicle_cfg < 0 ->
     is_standing_env self' !! 0%nat = Some false) /\
    (heading_command vehicle_cfg = true ->
     (1 <= rel_heading_envs vehicle_cfg ->
      is_heading_env self' !! 0%nat = Some true) /\
     (rel_heading_envs vehicle_cfg < 0 ->
      is_heading_env self' !! 0%nat = Some false)).
Proof.
  destruct example_resample as [self' H]. exists self'.
  apply (probability_extremes vehicle_cfg heading_self [0%nat] half_draws
           self' 0%nat H half_unit half_unit).
  apply list_elem_of_singleton. reflexivity.
Defined.

Lemma sampled_within_ranges_witness :
  exists self',
    (exists v, vel_command_b self' !! 0%nat = Some v
               /\ in_bounds vehicle_cfg v) /\
    (heading_command vehicle_cfg = true ->
     exists range h,
       heading (ranges vehicle_cfg) = Some range /\
       heading_target self' !! 0%nat = Some h /\
       fst range <= h <= snd range).
Proof.
  destruct example_resample as [self' H]. exists self'.
  apply (sampled_within_ranges vehicle_cfg heading_self [0%nat] half_draws
           self' 0%nat H half_unit half_unit half_unit half_unit).
  apply list_elem_of_singleton. reflexivity.
Defined.

(** * Further properties of the post-processing *)

(** ** What [_update_command] does to one environment *)

Lemma update_command_Ok cfg data self self' :
  _update_command cfg data self = Ok self' <->
  exists self1,
    heading_step cfg data self = Ok self1 /\ standing_step self1 = Ok self'.
Proof. unfold _update_command. apply bind_Ok. Qed.

Lemma update_command_flags cfg data self self' :
  _update_command cfg data self = Ok self' ->
  heading_target self' = heading_target self /\
  is_heading_env self' = is_heading_env self /\
  is_standing_env self' = is_standing_env self /\
  error_vel_xy self' = error_vel_xy self /\
  error_vel_yaw self' = error_vel_yaw self /\
  length (vel_command_b self') = length (vel_command_b self).
Proof.
  intros H. apply update_command_Ok in H as (self1 & H1 & H2).
  apply heading_step_flags in H1 as (? & ? & ? & ? & ? & Hlen).
  unfold standing_step, Tensor.index_fill in H2.
  inv_bind H2 as c Hc. injection H2 as <-.
  apply index_put_length in Hc. simpl. repeat split; congruence.
Qed.

(** The command of environment [i] after [_update_command]: zero when the
    environment stands, and otherwise the command [v1] of the first half,
    which is the old command but for the angular velocity of a heading
    environment. *)
Lemma update_command_at cfg data self self' i v :
  _update_command cfg data self = Ok self' ->
  vel_command_b self !! i = Some v ->
  exists v1,
    vel_command_b self' !! i
    = Some (if decide (is_standing_env self !! i = Some true)
            then zero3 else v1) /\
    (heading_command cfg = false \/ is_heading_env self !! i <> Some true ->
     v1 = v) /\
    (heading_command cfg = true -> is_heading_env self !! i = Some true ->
     exists quat_d target q,
       _get_body_quat_d cfg data = Ok quat_d /\
       heading_target self !! i = Some target /\
       quat_d !! i = Some q /\
       v1 = set_vz v (heading_ang_vel cfg target
                        (math_utils.euler_z_from_quat q))).
Proof.
  intros H Hv. apply update_command_Ok in H as (self1 & H1 & H2).
  pose proof (heading_step_flags _ _ _ _ H1) as (_ & _ & Hst & _).
  assert (Hv1 : exists v1,
    vel_command_b self1 !! i = Some v1 /\
    (heading_command cfg = false \/ is_heading_env self !! i <> Some true ->
     v1 = v) /\
    (heading_command cfg = true -> is_heading_env self !! i = Some true ->
     exists quat_d target q,
       _get_body_quat_d cfg data = Ok quat_d /\
       heading_target self !! i = Some target /\
       quat_d !! i = Some q /\
       v1 = set_vz v (heading_ang_vel cfg target
                        (math_utils.euler_z_from_quat q)))).
  { destruct (heading_command cfg) eqn:Hhc.
    - destruct (heading_step_Ok _ _ _ _ Hhc H1) as (quat_d & Hq & _ & Hall).
      destruct (Hall i v Hv) as [Hon Hoff].
      destruct (decide (is_heading_env self !! i = Some true)) as [Hh|Hh].
      + destruct (Hon Hh) as (target & q & Ht & Hqi & Hc).
        eexists. split; [exact Hc|]. split.
        * intros [?|?]; [discriminate|contradiction].
        * intros _ _. by exists quat_d, target, q.
      + exists v. split; [by apply Hoff|]. split; [done|].
        intros _ ?. contradiction.
    - rewrite (heading_step_off _ _ _ Hhc) in H1. injection H1 as <-.
      exists v. split; [done|]. split; [done|]. intros ?. discriminate. }
  destruct Hv1 as (v1 & Hv1 & Hkeep & Hset).
  exists v1. split; [|by split].
  destruct (standing_step_Ok _ _ H2) as [_ Hall].
  destruct (Hall i v1 Hv1) as [Hon Hoff]. rewrite Hst in Hon, Hoff.
  destruct (decide (is_standing_env self !! i = Some true)) as [Hs|Hs].
  - by apply Hon.
  - by apply Hoff.
Qed.

(** A second call finds what the first one needed. *)
Lemma update_command_again cfg data self self' c :
  _update_command cfg data self = Ok self' ->
  length c = length (vel_command_b self) ->
  exists self'', _update_command cfg data (with_vel_command_b self c)
                 = Ok self''.
Proof.
  intros H Hlen. apply update_command_Ok in H as (self1 & H1 & H2).
  assert (Hst : Forall (fun i => (i < length c)%nat)
                  (Tensor.nonzero (is_standing_env self))).
  { pose proof (heading_step_flags _ _ _ _ H1) as (_ & _ & Hs & _ & _ & Hl).
    unfold standing_step, Tensor.index_fill in H2. inv_bind H2 as c2 Hc2.
    apply index_put_Ok_lt in Hc2 as [Hlt _].
    rewrite Hs, Hl, <- Hlen in Hlt. exact Hlt. }
  assert (H1' : exists self1',
            heading_step cfg data (with_vel_command_b self c) = Ok self1').
  { unfold heading_step in *. destruct (heading_command cfg); [|by eexists].
    simpl. inv_bind H1 as target Ht. inv_bind H1 as quat_d Hq.
    inv_bind H1 as yaw Hy. inv_bind H1 as ang Ha. inv_bind H1 as c1 Hc1.
    rewrite Ht, bind_Ok_l, Hq, bind_Ok_l, Hy, bind_Ok_l, Ha, bind_Ok_l.
    apply index_put_Ok_lt in Hc1 as [Hlt Hvals].
    destruct (index_put_total set_vz c
                (Tensor.nonzero (is_heading_env self)) ang) as [c' Hc'].
    - by rewrite Hlen.
    - done.
    - rewrite Hc', bind_Ok_l. by eexists. }
  destruct H1' as [self1' H1'].
  pose proof (heading_step_flags _ _ _ _ H1') as (_ & _ & Hs & _ & _ & Hl).
  simpl in Hs, Hl.
  destruct (index_put_total (fun _ (c' : vec3) => c')
              (vel_command_b self1')
              (Tensor.nonzero (is_standing_env self1'))
              (replicate (length (Tensor.nonzero (is_standing_env self1')))
                 zero3)) as [c2 Hc2].
  { by rewrite Hs, Hl. }
  { apply length_replicate. }
  exists (with_vel_command_b self1' c2). apply update_command_Ok.
  exists self1'. split; [done|].
  unfold standing_step, Tensor.index_fill. by rewrite Hc2, bind_Ok_l.
Qed.

Lemma with_vel_command_b_eta self self' :
  heading_target self' = heading_target self ->
  is_heading_env self' = is_heading_env self ->
  is_standing_env self' = is_standing_env self ->
  error_vel_xy self' = error_vel_xy self ->
  error_vel_yaw self' = error_vel_yaw self ->
  self' = with_vel_command_b self (vel_command_b self').
Proof.
  destruct self, self'. unfold with_vel_command_b. simpl. congruence.
Qed.

Lemma set_vz_set_vz v a b : set_vz (set_vz v a) b = set_vz v b.
Proof. reflexivity. Qed.

(** X6: with the robot state unchanged, a second [_update_command] returns
    and changes nothing. *)
Theorem update_command_idempotent cfg data self self' :
  _update_command cfg data self = Ok self' ->
  _update_command cfg data self' = Ok self'.
Proof.
  intros H.
  pose proof (update_command_flags _ _ _ _ H)
    as (Ht & Hh & Hs & Hx & Hy & Hl).
  pose proof (with_vel_command_b_eta _ _ Ht Hh Hs Hx Hy) as Heta.
  destruct (update_command_again _ _ _ _ (vel_command_b self') H Hl)
    as [self'' H'].
  rewrite <- Heta in H'. rewrite H'. f_equal.
  pose proof (update_command_flags _ _ _ _ H')
    as (Ht' & Hh' & Hs' & Hx' & Hy' & Hl').
  rewrite (with_vel_command_b_eta _ _ Ht' Hh' Hs' Hx' Hy').
  destruct self' as [c' t' h' s' x' y']. unfold with_vel_command_b.
  simpl in *. f_equal.
  apply list_eq. intros i.
  destruct (vel_command_b self !! i) as [v|] eqn:Hv.
  - destruct (update_command_at _ _ _ _ i v H Hv)
      as (v1 & Hv1 & Hk1 & Hset1). simpl in Hv1.
    destruct (update_command_at _ _ _ _ i _ H' Hv1)
      as (v2 & Hv2 & Hk2 & Hset2). simpl in Hv2, Hk2, Hset2.
    rewrite Hv2, Hv1. rewrite Hs. f_equal.
    destruct (decide (is_standing_env self !! i = Some true)); [done|].
    destruct (heading_command cfg) eqn:Hhc;
      [destruct (decide (is_heading_env self !! i = Some true)) as [Hon|Hoff]|].
    + destruct (Hset1 eq_refl Hon) as (qd & tg & q & Hq & Htg & Hqi & ->).
      rewrite Hh, Ht in Hset2.
      destruct (Hset2 eq_refl Hon) as (qd' & tg' & q' & Hq' & Htg' & Hqi' & ->).
      rewrite Hq in Hq'. injection Hq' as <-.
      rewrite Htg in Htg'. injection Htg' as <-.
      rewrite Hqi in Hqi'. injection Hqi' as <-. reflexivity.
    + apply Hk2. right. by rewrite Hh.
    + apply Hk2. by left.
  - apply lookup_ge_None in Hv.
    rewrite (proj2 (lookup_ge_None c' i)) by lia.
    apply lookup_ge_None. lia.
Qed.

(** X7: [_update_command] writes the command only: the heading targets, both
    flags and both metrics are as before, no buffer changes its length, and
    the linear part (x, y) of the command of an environment that does not
    stand is kept. *)
Theorem update_command_keeps cfg data self self' :
  _update_command cfg data self = Ok self' ->
  heading_target self' = heading_target self /\
  is_heading_env self' = is_heading_env self /\
  is_standing_env self' = is_standing_env self /\
  error_vel_xy self' = error_vel_xy self /\
  error_vel_yaw self' = error_vel_yaw self /\
  length (command self') = length (command self) /\
  forall i v, command self !! i = Some v ->
    is_standing_env self !! i <> Some true ->
    exists v', command self' !! i = Some v' /\
      vx v' = vx v /\ vy v' = vy v /\
      (heading_command cfg = false \/ is_heading_env self !! i <> Some true ->
       v' = v).
Proof.
  intros H.
  pose proof (update_command_flags _ _ _ _ H)
    as (Ht & Hh & Hs & Hx & Hy & Hl).
  repeat (split; [assumption|]).
  unfold command. intros i v Hv Hns.
  destruct (update_command_at _ _ _ _ i v H Hv) as (v1 & Hv1 & Hk & Hset).
  destruct (decide (is_standing_env self !! i = Some true)); [done|].
  exists v1. split; [done|].
  destruct (heading_command cfg) eqn:Hhc;
    [destruct (decide (is_heading_env self !! i = Some true)) as [Hon|Hoff]|].
  - destruct (Hset eq_refl Hon) as (qd & tg & q & _ & _ & _ & ->).
    repeat split; try reflexivity.
    intros [?|?]; [discriminate|contradiction].
  - rewrite (Hk (or_intror Hoff)). by repeat split.
  - rewrite (Hk (or_introl eq_refl)). by repeat split.
Qed.

(** X8: when no environment stands and, in heading mode, none is
    heading-controlled, [_update_command] leaves the generator as it is. *)
Theorem update_command_no_flags cfg data self self' :
  (forall i, is_standing_env self !! i <> Some true) ->
  (heading_command cfg = true ->
   forall i, is_heading_env self !! i <> Some true) ->
  _update_command cfg data self = Ok self' -> self' = self.
Proof.
  intros Hns Hnh H.
  pose proof (update_command_flags _ _ _ _ H)
    as (Ht & Hh & Hs & Hx & Hy & Hl).
  rewrite (with_vel_command_b_eta _ _ Ht Hh Hs Hx Hy).
  destruct self as [c t h s x y]. unfold with_vel_command_b. simpl in *.
  f_equal. apply list_eq. intros i.
  destruct (c !! i) as [v|] eqn:Hv.
  - destruct (update_command_at _ _ _ _ i v H Hv) as (v1 & Hv1 & Hk & _).
    simpl in Hv1, Hk. rewrite Hv1.
    destruct (decide (s !! i = Some true)) as [Hon|_];
      [by apply Hns in Hon|].
    f_equal. apply Hk.
    destruct (heading_command cfg); [right; by apply Hnh|by left].
  - apply lookup_ge_None in Hv. apply lookup_ge_None. lia.
Qed.

(** X9: a reference body other than [leg1link2] and [leg1link4] breaks
    [_update_command] exactly in heading mode: there every call raises
    [ValueError], also when no environment is heading-controlled; with
    heading mode off the call returns, the body name is not read. *)
Theorem update_command_body_name cfg n data self :
  well_shaped n self -> ~ known_body cfg ->
  (heading_command cfg = true ->
   _update_command cfg data self = Raise ValueError) /\
  (heading_command cfg = false ->
   exists self', _update_command cfg data self = Ok self').
Proof.
  intros Hws Hk. split; intros Hhc.
  - unfold _update_command, heading_step. rewrite Hhc.
    destruct (index_select_total (heading_target self)
                (Tensor.nonzero (is_heading_env self))) as [target Htg].
    { destruct Hws as [_ Ht Hh _ _ _]. rewrite Ht, <- Hh. apply nonzero_lt. }
    rewrite Htg, bind_Ok_l. unfold _get_body_quat_d.
    by rewrite (tf_d_quat_unknown _ Hk).
  - unfold _update_command. rewrite (heading_step_off _ _ _ Hhc), bind_Ok_l.
    apply standing_step_total. destruct Hws. congruence.
Qed.

(** X10: the command that a policy reads after a resampling event,
    [_resample_command] followed by [_update_command]. The environment at
    position [p] of a duplicate-free [env_ids] has the zero command when its
    standing draw is at most [rel_standing_envs]; otherwise its linear
    command is the one sampled, and its angular command is the one sampled
    unless heading mode is on and its heading draw is at most
    [rel_heading_envs], when the sampled value is replaced by the output of
    the heading controller for the sampled heading target. *)
Theorem resample_then_update cfg data self env_ids d self1 self2 p j :
  _resample_command cfg self env_ids d = Ok self1 ->
  _update_command cfg data self1 = Ok self2 ->
  NoDup env_ids -> env_ids !! p = Some j ->
  (u_is_standing d p <= rel_standing_envs cfg ->
   command self2 !! j = Some zero3) /\
  (rel_standing_envs cfg < u_is_standing d p ->
   exists v,
     command self2 !! j = Some v /\
     vx v = fst (lin_vel_x (ranges cfg))
            + (snd (lin_vel_x (ranges cfg)) - fst (lin_vel_x (ranges cfg)))
              * u_lin_vel_x d p /\
     vy v = fst (lin_vel_y (ranges cfg))
            + (snd (lin_vel_y (ranges cfg)) - fst (lin_vel_y (ranges cfg)))
              * u_lin_vel_y d p /\
     (heading_command cfg = false \/ rel_heading_envs cfg < u_is_heading d p ->
      vz v = fst (ang_vel_z (ranges cfg))
             + (snd (ang_vel_z (ranges cfg)) - fst (ang_vel_z (ranges cfg)))
               * u_ang_vel_z d p) /\
     (heading_command cfg = true ->
      u_is_heading d p <= rel_heading_envs cfg ->
      exists range quat_d q,
        heading (ranges cfg) = Some range /\
        _get_body_quat_d cfg data = Ok quat_d /\
        quat_d !! j = Some q /\
        vz v = heading_ang_vel cfg
                 (fst range + (snd range - fst range) * u_heading d p)
                 (math_utils.euler_z_from_quat q))).
Proof.
  intros H1 H2 Hnd Hp. unfold command.
  destruct (resample_at _ _ _ _ _ p j H1 Hnd Hp) as (Hv & Hs & Hhead).
  destruct (update_command_at _ _ _ _ j _ H2 Hv) as (v1 & Hv1 & Hk & Hset).
  rewrite Hs in Hv1. split.
  - intros Hle. rewrite Hv1, (Rleb_true _ _ Hle).
    by destruct (decide (Some true = Some true)).
  - intros Hlt. rewrite (Rleb_false _ _ Hlt) in Hv1.
    destruct (decide (Some false = Some true)) as [?|_]; [discriminate|].
    exists v1. split; [done|].
    assert (Hxy : vx v1 = fst (lin_vel_x (ranges cfg))
            + (snd (lin_vel_x (ranges cfg)) - fst (lin_vel_x (ranges cfg)))
              * u_lin_vel_x d p /\
            vy v1 = fst (lin_vel_y (ranges cfg))
            + (snd (lin_vel_y (ranges cfg)) - fst (lin_vel_y (ranges cfg)))
              * u_lin_vel_y d p).
    { destruct (heading_command cfg) eqn:Hhc;
        [destruct (decide (is_heading_env self1 !! j = Some true))
           as [Hon|Hoff]|].
      - destruct (Hset eq_refl Hon) as (? & ? & ? & _ & _ & _ & ->).
        by split.
      - rewrite (Hk (or_intror Hoff)). by split.
      - rewrite (Hk (or_introl eq_refl)). by split. }
    destruct Hxy as [Hx Hy]. split; [done|]. split; [done|]. split.
    + intros Hoff. rewrite Hk; [done|].
      destruct Hoff as [Hhc|Hgt]; [by left|].
      destruct (heading_command cfg) eqn:Hhc; [|by left]. right.
      destruct (Hhead eq_refl) as (range & _ & _ & ->).
      rewrite (Rleb_false _ _ Hgt). discriminate.
    + intros Hhc Hle.
      destruct (Hhead Hhc) as (range & Hr & Htg & Hflag).
      rewrite (Rleb_true _ _ Hle) in Hflag.
      destruct (Hset Hhc Hflag) as (qd & tg & q & Hq & Htg' & Hqi & ->).
      rewrite Htg in Htg'. injection Htg' as <-.
      exists range, qd, q. by repeat split.
Qed.

(** ** Concrete calls for the theorems above *)

Lemma well_shaped_rest_self : well_shaped 2 rest_self.
Proof. by split. Qed.

Lemma example_vehicle_update :
  exists self', _update_command vehicle_cfg data2 heading_self = Ok self'.
Proof.
  destruct (update_command_total vehicle_cfg 2 data2 heading_self)
    as (self1 & self' & _ & _ & H).
  - exact well_shaped_heading_self.
  - exact data_shaped_data2.
  - intros _. exact known_body_vehicle_cfg.
  - by exists self'.
Qed.

Lemma example_rest_update :
  exists self', _update_command vehicle_cfg data2 rest_self = Ok self'.
Proof.
  destruct (update_command_total vehicle_cfg 2 data2 rest_self)
    as (self1 & self' & _ & _ & H).
  - exact well_shaped_rest_self.
  - exact data_shaped_data2.
  - intros _. exact known_body_vehicle_cfg.
  - by exists self'.
Qed.

Lemma example_resample_update :
  exists self1 self2,
    _resample_command vehicle_cfg heading_self [0%nat] half_draws = Ok self1 /\
    _update_command vehicle_cfg data2 self1 = Ok self2.
Proof.
  destruct example_resample as [self1 H1].
  destruct (update_command_total vehicle_cfg 2 data2 self1)
    as (? & self2 & _ & _ & H2).
  - eapply resample_well_shaped; [exact H1|exact well_shaped_heading_self].
  - exact data_shaped_data2.
  - intros _. exact known_body_vehicle_cfg.
  - by exists self1, self2.
Qed.

Lemma example_play_run_all :
  exists self0 self,
    __init__ play_cfg env2 = Ok self0 /\
    run play_cfg env2 self0
      [Resample (seq 0 (num_envs env2)) half_draws; UpdateCommand data2]
    = Ok self.
Proof.
  eexists _, _. split; [reflexivity|].
  cbn [run step]. unfold _resample_command.
  rewrite !uniform_scaled by (unfold range_ok; simpl; lra).
  simpl. rewrite !Rleb_false by lra. simpl. reflexivity.
Qed.

Lemma no_flag_rest_self (i : nat) (m : list bool) :
  m = [false; false] -> m !! i <> Some true.
Proof. intros ->. by destruct i as [|[|i]]. Qed.

Lemma update_command_idempotent_witness :
  exists self', _update_command vehicle_cfg data2 self' = Ok self'.
Proof.
  destruct example_vehicle_update as [self' H]. exists self'.
  exact (update_command_idempotent vehicle_cfg data2 heading_self self' H).
Defined.

Lemma update_command_keeps_witness :
  exists self',
    heading_target self' = heading_target heading_self /\
    is_heading_env self' = is_heading_env heading_self /\
    is_standing_env self' = is_standing_env heading_self /\
    error_vel_xy self' = error_vel_xy heading_self /\
    error_vel_yaw self' = error_vel_yaw heading_self /\
    length (command self') = length (command heading_self).
Proof.
  destruct example_vehicle_update as [self' H]. exists self'.
  destruct (update_command_keeps vehicle_cfg data2 heading_self self' H)
    as (Ht & Hh & Hs & Hx & Hy & Hl & _).
  repeat split; assumption.
Defined.

Lemma update_command_no_flags_witness :
  exists self',
    _update_command vehicle_cfg data2 rest_self = Ok self' /\
    self' = rest_self.
Proof.
  destruct example_rest_update as [self' H]. exists self'.
  split; [exact H|].
  apply (update_command_no_flags vehicle_cfg data2 rest_self self').
  - intros i. by apply no_flag_rest_self.
  - intros _ i. by apply no_flag_rest_self.
  - exact H.
Defined.

Lemma update_command_body_name_witness :
  _update_command extension_vehicle_cfg data2 heading_self
  = Raise ValueError.
Proof.
  apply (update_command_body_name extension_vehicle_cfg 2 data2 heading_self).
  - exact well_shaped_heading_self.
  - unfold known_body. simpl. intros [H|H]; discriminate H.
  - reflexivity.
Defined.

Lemma resample_then_update_witness :
  exists self2 v,
    command self2 !! 0%nat = Some v /\
    vx v = 1 / 2 + (1 / 2 - 1 / 2) * (1 / 2) /\
    vy v = - (1 / 2) + (1 / 2 - - (1 / 2)) * (1 / 2).
Proof.
  destruct example_resample_update as (self1 & self2 & H1 & H2).
  destruct (resample_then_update vehicle_cfg data2 heading_self [0%nat]
              half_draws self1 self2 0%nat 0%nat H1 H2
              (NoDup_singleton 0%nat) eq_refl) as [_ Hmove].
  destruct Hmove as (v & Hv & Hx & Hy & _).
  - simpl. lra.
  - exists self2, v. repeat split; assumption.
Defined.

Lemma bounds_every_tick_witness :
  exists self,
    forall i v, vel_command_b self !! i = Some v ->
      in_bounds play_cfg v \/
      (v = zero3 /\ is_standing_env self !! i = Some true).
Proof.
  destruct example_play_run_all as (self0 & self & Hinit & Hrun).
  exists self.
  apply (bounds_every_tick play_cfg env2 self0 half_draws
           [UpdateCommand data2] self Hinit).
  - simpl. repeat split; lra.
  - repeat constructor.
  - exact Hrun.
Defined.

(** * Further properties of the tracking metrics *)

Lemma err_xy_nonneg c v : 0 <= err_xy c v.
Proof. unfold err_xy. apply sqrt_pos. Qed.

Lemma err_yaw_nonneg c w : 0 <= err_yaw c w.
Proof. unfold err_yaw. apply Rabs_pos. Qed.

Lemma err_xy_zero c v : err_xy c v = 0 <-> vx c = vx v /\ vy c = vy v.
Proof.
  unfold err_xy. split.
  - intros H. apply sqrt_eq_0 in H;
      [|apply Rplus_le_le_0_compat; apply Rle_0_sqr].
    destruct (Rplus_sqr_eq_0 (vx c - vx v) (vy c - vy v)) as [Hx Hy];
      [exact H|]. split; lra.
  - intros [-> ->].
    replace ((vx v - vx v) * (vx v - vx v) + (vy v - vy v) * (vy v - vy v))
      with 0 by ring.
    apply sqrt_0.
Qed.

Lemma err_yaw_zero c w : err_yaw c w = 0 <-> vz c = vz w.
Proof.
  unfold err_yaw. split.
  - intros H. destruct (Req_dec (vz c - vz w) 0) as [|Hne]; [lra|].
    apply Rabs_no_R0 in Hne. contradiction.
  - intros ->. replace (vz w - vz w) with 0 by ring. apply Rabs_R0.
Qed.

(** The entries of [accumulate], read backwards: an entry of the new
    metric comes from an entry of the old one and one error term. *)
Lemma accumulate_lookup_xy steps self lin ang i e' :
  error_vel_xy (accumulate steps self lin ang) !! i = Some e' ->
  exists e c v,
    error_vel_xy self !! i = Some e /\ vel_command_b self !! i = Some c /\
    lin !! i = Some v /\ e' = e + err_xy c v / steps.
Proof.
  unfold accumulate. simpl. intros H.
  apply lookup_zip_with_Some in H as (e & x & -> & He & Hx).
  rewrite list_lookup_fmap in Hx.
  destruct (zip_with err_xy (vel_command_b self) lin !! i) as [r|] eqn:Hr;
    [|discriminate Hx].
  injection Hx as <-.
  apply lookup_zip_with_Some in Hr as (c & v & -> & Hc & Hv).
  by exists e, c, v.
Qed.

Lemma accumulate_lookup_yaw steps self lin ang i e' :
  error_vel_yaw (accumulate steps self lin ang) !! i = Some e' ->
  exists e c w,
    error_vel_yaw self !! i = Some e /\ vel_command_b self !! i = Some c /\
    ang !! i = Some w /\ e' = e + err_yaw c w / steps.
Proof.
  unfold accumulate. simpl. intros H.
  apply lookup_zip_with_Some in H as (e & x & -> & He & Hx).
  rewrite list_lookup_fmap in Hx.
  destruct (zip_with err_yaw (vel_command_b self) ang !! i) as [r|] eqn:Hr;
    [|discriminate Hx].
  injection Hx as <-.
  apply lookup_zip_with_Some in Hr as (c & w & -> & Hc & Hw).
  by exists e, c, w.
Qed.

Lemma steps_pos cfg env :
  0 < step_dt env -> 0 < snd (resampling_time_range cfg) ->
  0 < snd (resampling_time_range cfg) / step_dt env.
Proof. intros. by apply Rdiv_lt_0_compat. Qed.

Lemma steps_neq_0 cfg env :
  step_dt env <> 0 -> snd (resampling_time_range cfg) <> 0 ->
  snd (resampling_time_range cfg) / step_dt env <> 0.
Proof.
  intros Hd Hm. unfold Rdiv. apply Rmult_integral_contrapositive.
  split; [done|]. by apply Rinv_neq_0_compat.
Qed.

(** X12: [_update_metrics] raises [ZeroDivisionError] when the step of the
    environment is zero, whatever the rest; with a step that is not zero and
    buffers of one entry per environment it raises [ValueError] for a
    reference body that the frame correction does not know and returns for
    the two it knows. *)
Theorem update_metrics_raises cfg env n data self :
  well_shaped n self -> data_shaped n data ->
  (step_dt env = 0 ->
   _update_metrics cfg env data self = Raise ZeroDivisionError) /\
  (step_dt env <> 0 -> ~ known_body cfg ->
   _update_metrics cfg env data self = Raise ValueError) /\
  (step_dt env <> 0 -> known_body cfg ->
   exists self', _update_metrics cfg env data self = Ok self').
Proof.
  intros Hws Hds. split; [|split].
  - intros H0. unfold _update_metrics, max_command_step. rewrite H0.
    unfold Reqb. by destruct (Req_dec_T 0 0).
  - intros Hd Hk. unfold _update_metrics, max_command_step.
    rewrite (Reqb_false _ _ Hd), bind_Ok_l. unfold _get_body_vel_d.
    by rewrite (tf_d_quat_unknown _ Hk).
  - intros Hd Hk.
    destruct (update_metrics_total cfg env n data self Hk Hd Hws Hds)
      as (lin_d & _ & _ & H).
    by eexists.
Qed.

(** X13: a call of [_update_metrics] writes the two metrics only, and with a
    positive step and a positive resampling interval no entry of a metric
    ever decreases. *)
Theorem metrics_never_decrease cfg env data self self' :
  0 < step_dt env -> 0 < snd (resampling_time_range cfg) ->
  _update_metrics cfg env data self = Ok self' ->
  vel_command_b self' = vel_command_b self /\
  heading_target self' = heading_target self /\
  is_heading_env self' = is_heading_env self /\
  is_standing_env self' = is_standing_env self /\
  length (error_vel_xy self') = length (error_vel_xy self) /\
  length (error_vel_yaw self') = length (error_vel_yaw self) /\
  forall i,
    (forall e', error_vel_xy self' !! i = Some e' ->
       exists e, error_vel_xy self !! i = Some e /\ e <= e') /\
    (forall e', error_vel_yaw self' !! i = Some e' ->
       exists e, error_vel_yaw self !! i = Some e /\ e <= e').
Proof.
  intros Hd Hm H. pose proof (steps_pos cfg env Hd Hm) as Hsteps.
  apply update_metrics_Ok in H
    as (lin_d & _ & _ & Hl1 & Hl2 & Hl3 & Hl4 & ->).
  repeat (split; [reflexivity|]).
  split; [|split].
  - unfold accumulate. simpl.
    rewrite length_zip_with, length_fmap, length_zip_with. lia.
  - unfold accumulate. simpl.
    rewrite length_zip_with, length_fmap, length_zip_with. lia.
  - intros i. split; intros e' He'.
    + apply accumulate_lookup_xy in He' as (e & c & v & He & _ & _ & ->).
      exists e. split; [done|].
      pose proof (err_xy_nonneg c v).
      assert (0 <= err_xy c v / (snd (resampling_time_range cfg)
                                  / step_dt env)).
      { apply Rmult_le_pos; [done|]. left. by apply Rinv_0_lt_compat. }
      lra.
    + apply accumulate_lookup_yaw in He' as (e & c & w & He & _ & _ & ->).
      exists e. split; [done|].
      pose proof (err_yaw_nonneg c w).
      assert (0 <= err_yaw c w / (snd (resampling_time_range cfg)
                                   / step_dt env)).
      { apply Rmult_le_pos; [done|]. left. by apply Rinv_0_lt_compat. }
      lra.
Qed.

(** X14: in the exact real arithmetic of the embedding, a metric entry stays
    as it is over a call of [_update_metrics] exactly when the environment
    tracks its command: the planar metric when the x and y velocities in the
    desired frame are those commanded, the yaw metric when the world-frame
    angular velocity about z is the one commanded. Rounding is outside this
    statement. In the binary32 buffers of the source a tracked environment
    leaves its entries as they are as well ([tracked_unchanged32]), but the
    converse fails there: an error term below half a unit in the last place
    of the entry is rounded away ([small_error_absorbed32]). *)
Theorem metric_unchanged_iff_tracked cfg env data self self' lin_d
    i c v w exy eyaw :
  snd (resampling_time_range cfg) <> 0 ->
  _update_metrics cfg env data self = Ok self' ->
  _get_body_vel_d cfg data (body_lin_vel_w data) = Ok lin_d ->
  vel_command_b self !! i = Some c ->
  lin_d !! i = Some v ->
  body_ang_vel_w data !! i = Some w ->
  error_vel_xy self !! i = Some exy ->
  error_vel_yaw self !! i = Some eyaw ->
  (error_vel_xy self' !! i = Some exy <-> vx c = vx v /\ vy c = vy v) /\
  (error_vel_yaw self' !! i = Some eyaw <-> vz c = vz w).
Proof.
  intros Hm H Hlin Hc Hv Hw Hexy Heyaw.
  apply update_metrics_Ok in H as (lin_d' & Hd & Hlin' & _ & _ & _ & _ & ->).
  rewrite Hlin in Hlin'. injection Hlin' as <-.
  pose proof (steps_neq_0 cfg env Hd Hm) as Hsteps.
  destruct (accumulate_lookup (snd (resampling_time_range cfg) / step_dt env)
              self lin_d (body_ang_vel_w data) i c v w exy eyaw
              Hc Hv Hw Hexy Heyaw) as [-> ->].
  rewrite <- err_xy_zero, <- err_yaw_zero.
  split; split.
  - intros [= Heq].
    assert (Hz : err_xy c v / (snd (resampling_time_range cfg) / step_dt env)
                 = 0) by lra.
    apply Rmult_integral in Hz as [Hz|Hz]; [done|].
    by apply Rinv_neq_0_compat in Hsteps.
  - intros ->. f_equal. unfold Rdiv. ring.
  - intros [= Heq].
    assert (Hz : err_yaw c w / (snd (resampling_time_range cfg) / step_dt env)
                 = 0) by lra.
    apply Rmult_integral in Hz as [Hz|Hz]; [done|].
    by apply Rinv_neq_0_compat in Hsteps.
  - intros ->. f_equal. unfold Rdiv. ring.
Qed.

Lemma run_update_metrics cfg env data lin_d self calls self' :
  _get_body_vel_d cfg data (body_lin_vel_w data) = Ok lin_d ->
  run cfg env self (UpdateMetrics data :: calls) = Ok self' ->
  run cfg env
    (accumulate (snd (resampling_time_range cfg) / step_dt env)
       self lin_d (body_ang_vel_w data)) calls = Ok self'.
Proof.
  intros Hlin H. simpl in H. inv_bind H as self1 H1.
  apply update_metrics_Ok in H1 as (lin_d' & _ & Hlin' & _ & _ & _ & _ & ->).
  rewrite Hlin in Hlin'. by injection Hlin' as <-.
Qed.

Lemma metrics_after_ticks_aux cfg env data lin_d k :
  _get_body_vel_d cfg data (body_lin_vel_w data) = Ok lin_d ->
  forall self self' i c v w exy eyaw,
    run cfg env self (replicate k (UpdateMetrics data)) = Ok self' ->
    vel_command_b self !! i = Some c ->
    lin_d !! i = Some v ->
    body_ang_vel_w data !! i = Some w ->
    error_vel_xy self !! i = Some exy ->
    error_vel_yaw self !! i = Some eyaw ->
    vel_command_b self' = vel_command_b self /\
    error_vel_xy self' !! i
    = Some (exy + INR k * (err_xy c v
                           / (snd (resampling_time_range cfg)
                              / step_dt env))) /\
    error_vel_yaw self' !! i
    = Some (eyaw + INR k * (err_yaw c w
                            / (snd (resampling_time_range cfg)
                               / step_dt env))).
Proof.
  intros Hlin. induction k as [|k IH];
    intros self self' i c v w exy eyaw H Hc Hv Hw Hexy Heyaw.
  - simpl in H. injection H as <-. split; [done|].
    rewrite Hexy, Heyaw. split; f_equal; simpl; ring.
  - change (replicate (S k) (UpdateMetrics data))
      with (UpdateMetrics data :: replicate k (UpdateMetrics data)) in H.
    apply (run_update_metrics _ _ _ lin_d) in H; [|done].
    destruct (accumulate_lookup
                (snd (resampling_time_range cfg) / step_dt env)
                self lin_d (body_ang_vel_w data) i c v w exy eyaw
                Hc Hv Hw Hexy Heyaw) as [Hx1 Hy1].
    destruct (IH _ _ i c v w _ _ H Hc Hv Hw Hx1 Hy1) as (Hcmd & Hx & Hy).
    split; [done|]. rewrite Hx, Hy, S_INR. split; f_equal; ring.
Qed.

(** X15: with the command and the robot state held, [k] calls of
    [_update_metrics] add [k] times the same term to each metric entry, the
    tracking error divided by the number of steps of the longest resampling
    interval; over exactly that many calls the entry grows by the tracking
    error itself. The command is not touched. *)
Theorem metrics_after_ticks cfg env data lin_d k self self'
    i c v w exy eyaw :
  step_dt env <> 0 -> snd (resampling_time_range cfg) <> 0 ->
  _get_body_vel_d cfg data (body_lin_vel_w data) = Ok lin_d ->
  run cfg env self (replicate k (UpdateMetrics data)) = Ok self' ->
  vel_command_b self !! i = Some c ->
  lin_d !! i = Some v ->
  body_ang_vel_w data !! i = Some w ->
  error_vel_xy self !! i = Some exy ->
  error_vel_yaw self !! i = Some eyaw ->
  command self' = command self /\
  error_vel_xy self' !! i
  = Some (exy + INR k * (err_xy c v
                         / (snd (resampling_time_range cfg) / step_dt env))) /\
  error_vel_yaw self' !! i
  = Some (eyaw + INR k * (err_yaw c w
                          / (snd (resampling_time_range cfg)
                             / step_dt env))) /\
  (INR k = snd (resampling_time_range cfg) / step_dt env ->
   error_vel_xy self' !! i = Some (exy + err_xy c v) /\
   error_vel_yaw self' !! i = Some (eyaw + err_yaw c w)).
Proof.
  intros Hd Hm Hlin H Hc Hv Hw Hexy Heyaw.
  pose proof (steps_neq_0 cfg env Hd Hm) as Hsteps.
  destruct (metrics_after_ticks_aux cfg env data lin_d k Hlin
              self self' i c v w exy eyaw H Hc Hv Hw Hexy Heyaw)
    as (Hcmd & Hx & Hy).
  split; [done|]. split; [done|]. split; [done|].
  intros Hk. rewrite Hx, Hy, <- Hk. rewrite <- Hk in Hsteps.
  split; f_equal; field; done.
Qed.

(** X16: the newer module is the extension's module run on a corrected robot
    state. For a reference link that the frame correction knows,
    [_update_command] is the extension's [_update_command] on the body
    orientations composed with the correction, and [_update_metrics] is the
    extension's [_update_metrics] on the linear velocities expressed in the
    desired frame, the angular velocities being left in the world frame. *)
Theorem newer_module_corrects_state cfg env data self tf lin_d :
  tf_d_quat cfg = Ok tf ->
  _get_body_vel_d cfg data (body_lin_vel_w data) = Ok lin_d ->
  _update_command cfg data self
  = Extension._update_command cfg
      {| body_quat_w := (fun q => math_utils.quat_mul q tf)
                          <$> body_quat_w data;
         body_lin_vel_w := body_lin_vel_w data;
         body_ang_vel_w := body_ang_vel_w data |} self /\
  _update_metrics cfg env data self
  = Extension._update_metrics cfg env
      {| body_quat_w := body_quat_w data;
         body_lin_vel_w := lin_d;
         body_ang_vel_w := body_ang_vel_w data |} self.
Proof.
  intros Htf Hlin. split.
  - unfold _update_command, Extension._update_command.
    f_equal. unfold heading_step, Extension.heading_step.
    destruct (heading_command cfg); [|done].
    unfold _get_body_quat_d. rewrite Htf. simpl.
    destruct (Tensor.index_select (heading_target self)
                (Tensor.nonzero (is_heading_env self))); [|done].
    by rewrite !bind_Ok_l.
  - unfold _update_metrics, Extension._update_metrics.
    destruct (max_command_step cfg env); [|done].
    by rewrite !bind_Ok_l, Hlin, bind_Ok_l.
Qed.

(** ** Concrete calls for the theorems above *)

Lemma example_lin_d :
  _get_body_vel_d vehicle_cfg data2 (body_lin_vel_w data2)
  = Ok [zero3; zero3].
Proof.
  destruct (get_body_vel_d_total vehicle_cfg 2 data2 (body_lin_vel_w data2)
              known_body_vehicle_cfg eq_refl eq_refl)
    as (lin_d & Hlin & _).
  rewrite Hlin. f_equal.
  destruct (get_body_vel_d_Ok _ _ _ _ Hlin) as (tf & _ & _ & ->).
  simpl. by rewrite !quat_rotate_inverse_zero.
Qed.

Lemma example_update_metrics self :
  well_shaped 2 self ->
  exists self', _update_metrics vehicle_cfg env2 data2 self = Ok self'.
Proof.
  intros Hws.
  destruct (update_metrics_total vehicle_cfg env2 2 data2 self)
    as (lin_d & _ & _ & H).
  - exact known_body_vehicle_cfg.
  - simpl. lra.
  - exact Hws.
  - exact data_shaped_data2.
  - by eexists.
Qed.

Lemma unknown_body_extension_vehicle_cfg : ~ known_body extension_vehicle_cfg.
Proof. unfold known_body. simpl. intros [H|H]; discriminate H. Qed.

Lemma example_ticks :
  exists self',
    run vehicle_cfg env2 forward_self (replicate 200 (UpdateMetrics data2))
    = Ok self'.
Proof.
  destruct (run_ticks vehicle_cfg env2 2 data2 [zero3; zero3] 200)
    with (self := forward_self) (a := 0) as (self' & H & _).
  - simpl. lra.
  - exact data_shaped_data2.
  - exact example_lin_d.
  - repeat constructor.
  - by split.
  - repeat constructor.
  - reflexivity.
  - by exists self'.
Qed.

Lemma update_metrics_raises_witness :
  _update_metrics extension_vehicle_cfg env2 data2 heading_self
  = Raise ValueError /\
  exists self', _update_metrics vehicle_cfg env2 data2 heading_self = Ok self'.
Proof.
  split.
  - apply (update_metrics_raises extension_vehicle_cfg env2 2 data2
             heading_self well_shaped_heading_self data_shaped_data2).
    + simpl. lra.
    + exact unknown_body_extension_vehicle_cfg.
  - apply (update_metrics_raises vehicle_cfg env2 2 data2
             heading_self well_shaped_heading_self data_shaped_data2).
    + simpl. lra.
    + exact known_body_vehicle_cfg.
Defined.

Lemma metrics_never_decrease_witness :
  exists self',
    forall i,
      (forall e', error_vel_xy self' !! i = Some e' ->
         exists e, error_vel_xy heading_self !! i = Some e /\ e <= e') /\
      (forall e', error_vel_yaw self' !! i = Some e' ->
         exists e, error_vel_yaw heading_self !! i = Some e /\ e <= e').
Proof.
  destruct (example_update_metrics heading_self well_shaped_heading_self)
    as [self' H].
  exists self'.
  apply (metrics_never_decrease vehicle_cfg env2 data2 heading_self self').
  - simpl. lra.
  - simpl. lra.
  - exact H.
Defined.

Lemma metric_unchanged_iff_tracked_witness :
  exists self',
    error_vel_xy self' !! 0%nat = Some 0 /\
    error_vel_yaw self' !! 0%nat = Some 0.
Proof.
  destruct (example_update_metrics rest_self well_shaped_rest_self)
    as [self' H].
  exists self'.
  destruct (metric_unchanged_iff_tracked vehicle_cfg env2 data2 rest_self
              self' [zero3; zero3] 0%nat zero3 zero3 (Vec3 1 0 0) 0 0)
    as [Hxy Hyaw].
  - simpl. lra.
  - exact H.
  - exact example_lin_d.
  - reflexivity.
  - reflexivity.
  - reflexivity.
  - reflexivity.
  - reflexivity.
  - split; [by apply Hxy|by apply Hyaw].
Defined.

Lemma metrics_after_ticks_witness :
  exists self',
    error_vel_xy self' !! 0%nat = Some (0 + err_xy (Vec3 1 0 0) zero3).
Proof.
  destruct example_ticks as [self' H]. exists self'.
  destruct (metrics_after_ticks vehicle_cfg env2 data2 [zero3; zero3] 200
              forward_self self' 0%nat (Vec3 1 0 0) zero3 (Vec3 1 0 0) 0 0)
    as (_ & _ & _ & Hfull).
  - simpl. lra.
  - simpl. lra.
  - exact example_lin_d.
  - exact H.
  - reflexivity.
  - reflexivity.
  - reflexivity.
  - reflexivity.
  - reflexivity.
  - apply Hfull. rewrite INR_IZR_INZ.
    change (Z.of_nat 200) with 200%Z. simpl. lra.
Defined.

Lemma newer_module_corrects_state_witness :
  _update_command vehicle_cfg data2 heading_self
  = Extension._update_command vehicle_cfg
      {| body_quat_w :=
           (fun q => math_utils.quat_mul q
                       (Quat (1 / 2) (1 / 2) (- (1 / 2)) (- (1 / 2))))
             <$> body_quat_w data2;
         body_lin_vel_w := body_lin_vel_w data2;
         body_ang_vel_w := body_ang_vel_w data2 |} heading_self /\
  _update_metrics vehicle_cfg env2 data2 heading_self
  = Extension._update_metrics vehicle_cfg env2
      {| body_quat_w := body_quat_w data2;
         body_lin_vel_w := [zero3; zero3];
         body_ang_vel_w := body_ang_vel_w data2 |} heading_self.
Proof.
  apply (newer_module_corrects_state vehicle_cfg env2 data2 heading_self).
  - by apply tf_d_quat_leg1link4.
  - exact example_lin_d.
Defined.

(** ** The same question in binary32

    The metric buffers are binary32 tensors. There a tracked environment
    still leaves its entries as they are, but an entry can also stay as it
    is with an error that is not zero: a term below half a unit in the
    last place of the entry is rounded away. *)

Lemma sub_diag32 x :
  Float32.is_finite x = true -> Float32.sub x x = S754_zero false.
Proof.
  destruct x as [[|]|[|]| |s m e]; try done. intros _.
  unfold Float32.sub. simpl. by rewrite Z.sub_diag.
Qed.

Lemma err_xy_tracked32 (c v : Float32.vec3) :
  Float32.is_finite (Float32.vx c) = true ->
  Float32.is_finite (Float32.vy c) = true ->
  Float32.vx v = Float32.vx c -> Float32.vy v = Float32.vy c ->
  Float32.err_xy c v = S754_zero false.
Proof.
  intros Hx Hy Hvx Hvy. unfold Float32.err_xy.
  by rewrite Hvx, Hvy, (sub_diag32 _ Hx), (sub_diag32 _ Hy).
Qed.

Lemma err_yaw_tracked32 (c w : Float32.vec3) :
  Float32.is_finite (Float32.vz c) = true ->
  Float32.vz w = Float32.vz c ->
  Float32.err_yaw c w = S754_zero false.
Proof.
  intros Hz Hwz. unfold Float32.err_yaw.
  by rewrite Hwz, (sub_diag32 _ Hz).
Qed.

Lemma add_zero_term32 a m e :
  a <> S754_zero true ->
  Float32.add a (Float32.div (S754_zero false) (S754_finite false m e)) = a.
Proof. by destruct a as [[|]|[|]| |s ma ea]. Qed.

(** A tracked environment in binary32: with finite commanded velocities
    equal to the measured ones and a positive number of steps, a call of
    [_update_metrics] leaves the two entries of the environment as they
    are (a negative zero apart, which becomes the positive one). *)
Lemma tracked_unchanged32 max_command_time step_dt lin ang self self'
    steps m e i c v w exy eyaw :
  Float32._update_metrics max_command_time step_dt lin ang self = Ok self' ->
  Float32.max_command_step max_command_time step_dt = Ok steps ->
  Float32.of_float64 steps = S754_finite false m e ->
  Float32.vel_command_b self !! i = Some c ->
  lin !! i = Some v -> ang !! i = Some w ->
  Float32.error_vel_xy self !! i = Some exy ->
  Float32.error_vel_yaw self !! i = Some eyaw ->
  Float32.is_finite (Float32.vx c) = true ->
  Float32.is_finite (Float32.vy c) = true ->
  Float32.is_finite (Float32.vz c) = true ->
  exy <> S754_zero true -> eyaw <> S754_zero true ->
  (Float32.vx v = Float32.vx c -> Float32.vy v = Float32.vy c ->
   Float32.error_vel_xy self' !! i = Some exy) /\
  (Float32.vz w = Float32.vz c ->
   Float32.error_vel_yaw self' !! i = Some eyaw).
Proof.
  intros H Hsteps Hs32 Hc Hv Hw Hexy Heyaw Hfx Hfy Hfz Hnx Hny.
  unfold Float32._update_metrics in H. rewrite Hsteps, bind_Ok_l, Hs32 in H.
  inv_bind H as dxy Hdxy. inv_bind H as exy' Hexy'.
  inv_bind H as dyaw Hdyaw. inv_bind H as eyaw' Heyaw'.
  injection H as <-. simpl.
  apply map2_Ok in Hdxy as [_ ->]. apply map2_Ok in Hexy' as [_ ->].
  apply map2_Ok in Hdyaw as [_ ->]. apply map2_Ok in Heyaw' as [_ ->].
  split.
  - intros Hx Hy.
    rewrite lookup_zip_with, Hexy, list_lookup_fmap, lookup_zip_with, Hc, Hv.
    simpl. rewrite (err_xy_tracked32 c v) by done.
    by rewrite add_zero_term32.
  - intros Hz.
    rewrite lookup_zip_with, Heyaw, list_lookup_fmap, lookup_zip_with, Hc, Hw.
    simpl. rewrite (err_yaw_tracked32 c w) by done.
    by rewrite add_zero_term32.
Qed.

(** An untracked environment whose entry does not move: the metric is at
    1.0, the command is [2 ^ -20] m/s and the body is at rest; the term,
    [2 ^ -20 / 200], is less than half a unit in the last place of 1.0 and
    the binary32 sum is 1.0 again. *)
Lemma small_error_absorbed32 :
  exists self',
    Float32._update_metrics (Float64.of_Z 10) (Float64.decimal 5 2)
      [Float32.Vec3 (Float32.of_Z 0) (Float32.of_Z 0) (Float32.of_Z 0)]
      [Float32.Vec3 (Float32.of_Z 0) (Float32.of_Z 0) (Float32.of_Z 0)]
      Float32.creeping_self = Ok self' /\
    Float32.error_vel_xy self' = Float32.error_vel_xy Float32.creeping_self /\
    SFcompare (S754_zero false)
      (Float32.err_xy (Float32.Vec3 (S754_finite false 8388608 (-43))
                         (Float32.of_Z 0) (Float32.of_Z 0))
         (Float32.Vec3 (Float32.of_Z 0) (Float32.of_Z 0) (Float32.of_Z 0)))
    = Some Lt.
Proof.
  eexists. split; [vm_compute; reflexivity|]. by split.
Qed.

(** * Further properties of the frame correction *)

Lemma tf_d_quat_leg1link2 cfg :
  body_name cfg = "leg1link2"%string ->
  tf_d_quat cfg = Ok (Quat 0 0 (sqrt 2 / 2) (sqrt 2 / 2)).
Proof.
  intros H. unfold tf_d_quat. rewrite H.
  change (tf_d_matrix "leg1link2")
    with (Ok (Mat3 (Vec3 (-1) 0 0) (Vec3 0 0 1) (Vec3 0 1 0))).
  by rewrite bind_Ok_l, quat_from_matrix_leg1link2.
Qed.

Lemma unit_quat_leg1link4 :
  unit_quat (Quat (1 / 2) (1 / 2) (- (1 / 2)) (- (1 / 2))).
Proof. unfold unit_quat. simpl. lra. Qed.

Lemma unit_quat_leg1link2 : unit_quat (Quat 0 0 (sqrt 2 / 2) (sqrt 2 / 2)).
Proof.
  unfold unit_quat. simpl.
  assert (Hsq : sqrt 2 * sqrt 2 = 2) by (apply sqrt_sqrt; lra). nra.
Qed.

(** The correction of a link that [tf_d_quat] knows is one of the two
    quaternions above. *)
Lemma tf_d_quat_Ok cfg tf :
  tf_d_quat cfg = Ok tf ->
  (body_name cfg = "leg1link2"%string /\
   tf = Quat 0 0 (sqrt 2 / 2) (sqrt 2 / 2)) \/
  (body_name cfg = "leg1link4"%string /\
   tf = Quat (1 / 2) (1 / 2) (- (1 / 2)) (- (1 / 2))).
Proof.
  intros H.
  destruct (String.eqb_spec (body_name cfg) "leg1link2") as [H2|N2].
  - left. split; [done|].
    rewrite (tf_d_quat_leg1link2 cfg H2) in H. by injection H.
  - destruct (String.eqb_spec (body_name cfg) "leg1link4") as [H4|N4].
    + right. split; [done|].
      rewrite (tf_d_quat_leg1link4 cfg H4) in H. by injection H.
    + rewrite tf_d_quat_unknown in H; [discriminate|].
      unfold known_body. tauto.
Qed.

Lemma quat_rotate_inverse_leg1link4 u :
  math_utils.quat_rotate_inverse
    (Quat (1 / 2) (1 / 2) (- (1 / 2)) (- (1 / 2))) u
  = Vec3 (- vy u) (vz u) (- vx u).
Proof.
  destruct u as [a b c].
  unfold math_utils.quat_rotate_inverse, math_utils.cross, math_utils.dot.
  simpl. f_equal; lra.
Qed.

Lemma quat_rotate_inverse_leg1link2 u :
  math_utils.quat_rotate_inverse (Quat 0 0 (sqrt 2 / 2) (sqrt 2 / 2)) u
  = Vec3 (- vx u) (vz u) (vy u).
Proof.
  destruct u as [a b c].
  assert (Hsq : sqrt 2 * sqrt 2 = 2) by (apply sqrt_sqrt; lra).
  unfold math_utils.quat_rotate_inverse, math_utils.cross, math_utils.dot.
  simpl. generalize dependent (sqrt 2). intros s Hsq.
  assert (Hs2 : s ^ 2 = 2) by (rewrite <- Hsq; ring).
  f_equal; field_simplify_eq; rewrite ?Hs2; lra.
Qed.

Lemma quat_rotate_inverse_norm q v :
  unit_quat q ->
  math_utils.dot (math_utils.quat_rotate_inverse q v)
    (math_utils.quat_rotate_inverse q v)
  = math_utils.dot v v.
Proof.
  destruct q as [w x y z], v as [a b c]. unfold unit_quat. simpl. intros H.
  unfold math_utils.quat_rotate_inverse, math_utils.cross, math_utils.dot.
  simpl. nsatz.
Qed.

(** X17: what the frame correction of [_get_body_vel_d] does, for a body
    orientation of norm 1. With [u] the velocity in the frame of the
    reference body, the velocity in the desired frame is (-u_y, u_z, -u_x)
    for [leg1link4] and (-u_x, u_z, u_y) for [leg1link2]; in both cases the
    speed is that of the world-frame velocity. *)
Theorem body_vel_d_axes cfg data vel_w vel_d i q v :
  _get_body_vel_d cfg data vel_w = Ok vel_d ->
  body_quat_w data !! i = Some q -> unit_quat q ->
  vel_w !! i = Some v ->
  (body_name cfg = "leg1link4"%string ->
   vel_d !! i
   = Some (Vec3 (- vy (math_utils.quat_rotate_inverse q v))
             (vz (math_utils.quat_rotate_inverse q v))
             (- vx (math_utils.quat_rotate_inverse q v)))) /\
  (body_name cfg = "leg1link2"%string ->
   vel_d !! i
   = Some (Vec3 (- vx (math_utils.quat_rotate_inverse q v))
             (vz (math_utils.quat_rotate_inverse q v))
             (vy (math_utils.quat_rotate_inverse q v)))) /\
  exists v_d, vel_d !! i = Some v_d /\
    math_utils.dot v_d v_d = math_utils.dot v v.
Proof.
  intros H Hq Hu Hv.
  apply get_body_vel_d_Ok in H as (tf & Htf & _ & ->).
  assert (Hlk : zip_with
            (fun q v =>
               math_utils.quat_rotate_inverse (math_utils.quat_mul q tf) v)
            (body_quat_w data) vel_w !! i
          = Some (math_utils.quat_rotate_inverse (math_utils.quat_mul q tf) v)).
  { rewrite lookup_zip_with, Hq. simpl. by rewrite Hv. }
  rewrite Hlk.
  destruct (tf_d_quat_Ok _ _ Htf) as [[Hn ->]|[Hn ->]].
  - rewrite (quat_rotate_inverse_mul _ _ _ Hu unit_quat_leg1link2),
      quat_rotate_inverse_leg1link2.
    split; [rewrite Hn; discriminate|]. split; [done|].
    eexists. split; [done|].
    rewrite <- (quat_rotate_inverse_norm q v Hu).
    unfold math_utils.dot. simpl. ring.
  - rewrite (quat_rotate_inverse_mul _ _ _ Hu unit_quat_leg1link4),
      quat_rotate_inverse_leg1link4.
    split; [done|]. split; [rewrite Hn; discriminate|].
    eexists. split; [done|].
    rewrite <- (quat_rotate_inverse_norm q v Hu).
    unfold math_utils.dot. simpl. ring.
Qed.

Lemma unit_quat_mul q1 q2 :
  unit_quat q1 -> unit_quat q2 -> unit_quat (math_utils.quat_mul q1 q2).
Proof.
  destruct q1 as [w1 x1 y1 z1], q2 as [w2 x2 y2 z2].
  unfold unit_quat, math_utils.quat_mul. simpl. intros H1 H2.
  replace 1 with ((w1 * w1 + x1 * x1 + y1 * y1 + z1 * z1)
                  * (w2 * w2 + x2 * x2 + y2 * y2 + z2 * z2))
    by (rewrite H1, H2; ring).
  ring.
Qed.

(** X18: the orientation that [_get_body_quat_d] returns is the frame in
    which [_get_body_vel_d] expresses a velocity: one entry per environment,
    of norm 1 where the body orientation is, and [_get_body_vel_d] is the
    inverse rotation by it, entry by entry. *)
Theorem body_quat_d_frame cfg data quat_d :
  _get_body_quat_d cfg data = Ok quat_d ->
  length quat_d = length (body_quat_w data) /\
  (forall i q, body_quat_w data !! i = Some q ->
     exists q_d, quat_d !! i = Some q_d /\ (unit_quat q -> unit_quat q_d)) /\
  forall vel_w,
    _get_body_vel_d cfg data vel_w
    = Tensor.map2 math_utils.quat_rotate_inverse quat_d vel_w.
Proof.
  intros H. apply get_body_quat_d_Ok in H as (tf & Htf & ->).
  split; [by rewrite length_fmap|]. split.
  - intros i q Hq. rewrite list_lookup_fmap, Hq. simpl.
    eexists. split; [done|]. intros Hu. apply unit_quat_mul; [done|].
    destruct (tf_d_quat_Ok _ _ Htf) as [[_ ->]|[_ ->]].
    + exact unit_quat_leg1link2.
    + exact unit_quat_leg1link4.
  - intros vel_w. unfold _get_body_vel_d. by rewrite Htf, bind_Ok_l.
Qed.

(** ** Concrete calls for the theorems above *)

Lemma unit_quat_1 : unit_quat (Quat 1 0 0 0).
Proof. unfold unit_quat. simpl. lra. Qed.

Lemma example_ang_d :
  exists ang_d,
    _get_body_vel_d vehicle_cfg data2 (body_ang_vel_w data2) = Ok ang_d.
Proof.
  destruct (get_body_vel_d_total vehicle_cfg 2 data2 (body_ang_vel_w data2)
              known_body_vehicle_cfg eq_refl eq_refl)
    as (ang_d & H & _).
  by exists ang_d.
Qed.

Lemma example_quat_d :
  exists quat_d, _get_body_quat_d vehicle_cfg data2 = Ok quat_d.
Proof.
  unfold _get_body_quat_d.
  rewrite (tf_d_quat_leg1link4 vehicle_cfg eq_refl), bind_Ok_l.
  by eexists.
Qed.

Lemma body_vel_d_axes_witness :
  exists ang_d : list vec3,
    ang_d !! 0%nat
    = Some (Vec3
              (- vy (math_utils.quat_rotate_inverse (Quat 1 0 0 0)
                       (Vec3 1 0 0)))
              (vz (math_utils.quat_rotate_inverse (Quat 1 0 0 0)
                     (Vec3 1 0 0)))
              (- vx (math_utils.quat_rotate_inverse (Quat 1 0 0 0)
                       (Vec3 1 0 0)))).
Proof.
  destruct example_ang_d as [ang_d H]. exists ang_d.
  destruct (body_vel_d_axes vehicle_cfg data2 (body_ang_vel_w data2) ang_d
              0%nat (Quat 1 0 0 0) (Vec3 1 0 0) H eq_refl unit_quat_1
              eq_refl) as (H4 & _ & _).
  by apply H4.
Defined.

Lemma body_quat_d_frame_witness :
  exists quat_d,
    length quat_d = length (body_quat_w data2) /\
    forall vel_w,
      _get_body_vel_d vehicle_cfg data2 vel_w
      = Tensor.map2 math_utils.quat_rotate_inverse quat_d vel_w.
Proof.
  destruct example_quat_d as [quat_d H]. exists quat_d.
  destruct (body_quat_d_frame vehicle_cfg data2 quat_d H) as (Hl & _ & Hv).
  by split.
Defined.

Lemma extension_update_command_witness :
  exists self',
    Extension._update_command extension_vehicle_cfg data2 heading_self
    = Ok self' /\
    forall i, is_standing_env heading_self !! i = Some true ->
      command self' !! i = Some zero3.
Proof.
  destruct (extension_update_command extension_vehicle_cfg 2 data2
              heading_self well_shaped_heading_self data_shaped_data2)
    as (self1 & self' & _ & H & Hs & _).
  by exists self'.
Defined.

(** * Further properties of the low-pass filter *)

Lemma apply_all_cons self value values :
  snd (apply_all self (value :: values))
  = snd (Extension.LowPassFilter.apply self value)
    :: snd (apply_all (fst (Extension.LowPassFilter.apply self value))
              values).
Proof.
  unfold Extension.LowPassFilter.apply. simpl.
  by destruct (apply_all _ values).
Qed.

Lemma apply_all_length self values :
  length (snd (apply_all self values)) = length values.
Proof.
  revert self. induction values as [|x xs IH]; intros self; [done|].
  rewrite apply_all_cons. simpl. by rewrite IH.
Qed.

Lemma filter_init_Ok a f :
  Extension.LowPassFilter.__init__ a = Ok f ->
  f = {| Extension.LowPassFilter.alpha := a;
         Extension.LowPassFilter.prev_value := None |}.
Proof. by intros [= <-]. Qed.

(** An output is a weighted mean of the input and of the previous
    output. *)
Lemma apply_all_within a o values lo hi :
  0 <= a <= 1 ->
  match o with Some p => lo <= p <= hi | None => True end ->
  Forall (fun x => lo <= x <= hi) values ->
  Forall (fun y => lo <= y <= hi)
    (snd (apply_all {| Extension.LowPassFilter.alpha := a;
                       Extension.LowPassFilter.prev_value := o |} values)).
Proof.
  intros Ha Ho Hv. revert o Ho.
  induction Hv as [|x xs Hx _ IH]; intros o Ho; [constructor|].
  rewrite apply_all_cons. unfold Extension.LowPassFilter.apply. simpl.
  assert (Hout : lo <= match o with
                       | Some p => a * x + (1 - a) * p
                       | None => x
                       end <= hi).
  { destruct o as [p|]; [|done]. split; nra. }
  constructor; [exact Hout|]. by apply IH.
Qed.

(** X20: in exact real arithmetic, a filter with a smoothing factor in
    [0, 1] never leaves the range of its inputs: from a new filter, every
    value that successive calls of [apply] return lies in any interval that
    holds all the values passed in; there is one output per input. Rounding
    is outside this statement: on Python floats an output can leave the
    interval by a unit in the last place ([filter_rounding64]). *)
Theorem filter_within_inputs a f values lo hi :
  Extension.LowPassFilter.__init__ a = Ok f ->
  0 <= a <= 1 ->
  Forall (fun x => lo <= x <= hi) values ->
  length (snd (apply_all f values)) = length values /\
  Forall (fun y => lo <= y <= hi) (snd (apply_all f values)).
Proof.
  intros Hf Ha Hv. apply filter_init_Ok in Hf as ->.
  split; [apply apply_all_length|]. by apply apply_all_within.
Qed.

(** The outputs for a constant input: the distance to the input shrinks
    by the factor [1 - alpha] at every call. *)
Lemma apply_all_constant a p v k j out :
  snd (apply_all {| Extension.LowPassFilter.alpha := a;
                    Extension.LowPassFilter.prev_value := Some p |}
         (replicate k v)) !! j = Some out ->
  out = v + (1 - a) ^ (S j) * (p - v).
Proof.
  revert p j. induction k as [|k IH]; intros p j H; [done|].
  change (replicate (S k) v) with (v :: replicate k v) in H.
  rewrite apply_all_cons in H. unfold Extension.LowPassFilter.apply in H.
  simpl in H. destruct j as [|j].
  - injection H as <-. simpl. ring.
  - simpl in H. apply IH in H. rewrite H. simpl. ring.
Qed.

Lemma filter_closed_form a x0 v k j out :
  snd (apply_all {| Extension.LowPassFilter.alpha := a;
                    Extension.LowPassFilter.prev_value := None |}
         (x0 :: replicate k v)) !! j = Some out ->
  out = v + (1 - a) ^ j * (x0 - v).
Proof.
  rewrite apply_all_cons. unfold Extension.LowPassFilter.apply. simpl.
  destruct j as [|j]; simpl.
  - intros [= <-]. ring.
  - intros H. apply apply_all_constant in H. rewrite H. simpl. ring.
Qed.

(** X21: in exact real arithmetic, the response of a new filter to a first
    value [x0] followed by a constant input [v]: the output of call [j] is
    [v + (1 - alpha)^j (x0 - v)]. So the outputs converge to [v] when
    [|1 - alpha| < 1], that is for [0 < alpha < 2], and for any other
    smoothing factor, which the constructor accepts as well, no output is
    closer to [v] than the first value was. Rounding is outside this
    statement: on Python floats the closed form is met up to rounding only
    ([filter_rounding64]) and the outputs can stop short of [v]
    ([filter_stalls64]). *)
Theorem filter_step_response a f x0 v :
  Extension.LowPassFilter.__init__ a = Ok f ->
  (forall k j out,
     snd (apply_all f (x0 :: replicate k v)) !! j = Some out ->
     out = v + (1 - a) ^ j * (x0 - v)) /\
  (Rabs (1 - a) < 1 ->
   forall eps, 0 < eps ->
     exists N, forall k j out, (N <= j)%nat ->
       snd (apply_all f (x0 :: replicate k v)) !! j = Some out ->
       Rabs (out - v) < eps) /\
  (1 <= Rabs (1 - a) ->
   forall k j out,
     snd (apply_all f (x0 :: replicate k v)) !! j = Some out ->
     Rabs (x0 - v) <= Rabs (out - v)).
Proof.
  intros Hf. apply filter_init_Ok in Hf as ->. split; [|split].
  - intros k j out. apply filter_closed_form.
  - intros Ha eps Heps.
    assert (Hd : 0 < Rabs (x0 - v) + 1).
    { pose proof (Rabs_pos (x0 - v)). lra. }
    destruct (pow_lt_1_zero (1 - a) Ha (eps / (Rabs (x0 - v) + 1)))
      as [N HN].
    { by apply Rdiv_lt_0_compat. }
    exists N. intros k j out Hj H. apply filter_closed_form in H as ->.
    replace (v + (1 - a) ^ j * (x0 - v) - v) with ((1 - a) ^ j * (x0 - v))
      by ring.
    rewrite Rabs_mult.
    pose proof (HN j Hj) as Hpow.
    pose proof (Rabs_pos ((1 - a) ^ j)) as Hp0.
    pose proof (Rabs_pos (x0 - v)) as Hx0.
    apply Rle_lt_trans with (Rabs ((1 - a) ^ j) * (Rabs (x0 - v) + 1)).
    + apply Rmult_le_compat_l; [done|lra].
    + apply (Rmult_lt_compat_r (Rabs (x0 - v) + 1)) in Hpow; [|done].
      replace (eps / (Rabs (x0 - v) + 1) * (Rabs (x0 - v) + 1)) with eps
        in Hpow by (field; lra).
      exact Hpow.
  - intros Ha k j out H. apply filter_closed_form in H as ->.
    replace (v + (1 - a) ^ j * (x0 - v) - v) with ((1 - a) ^ j * (x0 - v))
      by ring.
    rewrite Rabs_mult, <- RPow_abs.
    pose proof (pow_R1_Rle (Rabs (1 - a)) j Ha) as Hpow.
    pose proof (Rabs_pos (x0 - v)) as Hx0.
    replace (Rabs (x0 - v)) with (1 * Rabs (x0 - v)) at 1 by ring.
    by apply Rmult_le_compat_r.
Qed.

Lemma apply_all_identity o values :
  snd (apply_all {| Extension.LowPassFilter.alpha := 1;
                    Extension.LowPassFilter.prev_value := o |} values)
  = values.
Proof.
  revert o. induction values as [|x xs IH]; intros o; [done|].
  rewrite apply_all_cons. unfold Extension.LowPassFilter.apply. simpl.
  rewrite IH. f_equal. destruct o; [ring|done].
Qed.

Lemma apply_all_frozen p values :
  snd (apply_all {| Extension.LowPassFilter.alpha := 0;
                    Extension.LowPassFilter.prev_value := Some p |} values)
  = replicate (length values) p.
Proof.
  induction values as [|x xs IH]; [done|].
  rewrite apply_all_cons. unfold Extension.LowPassFilter.apply. simpl.
  replace (0 * x + (1 - 0) * p) with p by ring. by rewrite IH.
Qed.

(** X22: the two ends of the smoothing factor. With [alpha = 1] the filter
    returns every input as it is; with [alpha = 0], which the constructor
    accepts, it returns the first input for ever. *)
Theorem filter_alpha_extremes a f values :
  Extension.LowPassFilter.__init__ a = Ok f ->
  (a = 1 -> snd (apply_all f values) = values) /\
  (a = 0 -> forall x0, head values = Some x0 ->
     snd (apply_all f values) = replicate (length values) x0).
Proof.
  intros Hf. apply filter_init_Ok in Hf as ->. split.
  - intros ->. apply apply_all_identity.
  - intros -> x0 Hx0. destruct values as [|x xs]; [done|].
    injection Hx0 as ->.
    rewrite apply_all_cons. unfold Extension.LowPassFilter.apply. simpl.
    by rewrite apply_all_frozen.
Qed.

(** ** Concrete filters for the theorems above *)

Lemma filter_within_inputs_witness :
  Forall (fun y => 0 <= y <= 1)
    (snd (apply_all {| Extension.LowPassFilter.alpha := 1 / 2;
                       Extension.LowPassFilter.prev_value := None |}
            [0; 1; 1])).
Proof.
  apply (filter_within_inputs (1 / 2) _ [0; 1; 1] 0 1).
  - reflexivity.
  - lra.
  - repeat constructor; lra.
Defined.

Lemma filter_step_response_witness :
  exists out,
    snd (apply_all {| Extension.LowPassFilter.alpha := 1 / 2;
                      Extension.LowPassFilter.prev_value := None |}
           (0 :: replicate 2 1)) !! 1%nat = Some out /\
    out = 1 + (1 - 1 / 2) ^ 1 * (0 - 1).
Proof.
  eexists. split; [reflexivity|].
  apply (proj1 (filter_step_response (1 / 2) _ 0 1 eq_refl) 2%nat 1%nat).
  reflexivity.
Defined.

Lemma filter_alpha_extremes_witness :
  snd (apply_all {| Extension.LowPassFilter.alpha := 1;
                    Extension.LowPassFilter.prev_value := None |}
         [0; 1; 1]) = [0; 1; 1].
Proof.
  apply (filter_alpha_extremes 1 _ [0; 1; 1]); reflexivity.
Defined.

(** ** The filter on Python floats

    In binary64 the three operations of [apply] round, and the bounds and
    the closed form of exact arithmetic hold up to that rounding only. *)

(** With [alpha = 0.1] the inputs 0.3, 0.3 give 0.3 and then
    0.30000000000000004, one unit in the last place above both. *)
Lemma filter_rounding64 :
  exists f y,
    Float64.LowPassFilter.__init__ (Float64.decimal 1 1) = Ok f /\
    snd (Float64.apply_all f [Float64.decimal 3 1; Float64.decimal 3 1])
    = [Float64.decimal 3 1; y] /\
    Float64.decimal 3 1 = S754_finite false 5404319552844595 (-54) /\
    y = S754_finite false 5404319552844596 (-54) /\
    SFcompare (Float64.decimal 3 1) y = Some Lt.
Proof.
  eexists. eexists. split; [reflexivity|].
  split; [vm_compute; reflexivity|]. by repeat split.
Qed.

(** With [alpha = 0.1], a first value 0.0 and then the constant 1.0, the
    outputs stop at 0.9999999999999994, five units in the last place
    below 1.0: that value is returned again for the input 1.0. *)
Lemma filter_stalls64 :
  exists f y,
    Float64.LowPassFilter.__init__ (Float64.decimal 1 1) = Ok f /\
    y = S754_finite false 9007199254740987 (-53) /\
    snd (Float64.apply_all f
           (Float64.of_Z 0 :: replicate 400 (Float64.of_Z 1))) !! 400%nat
    = Some y /\
    snd (Float64.LowPassFilter.apply
           {| Float64.LowPassFilter.alpha := Float64.decimal 1 1;
              Float64.LowPassFilter.prev_value := Some y |}
           (Float64.of_Z 1)) = y /\
    SFcompare y (Float64.of_Z 1) = Some Lt.
Proof.
  eexists. eexists. split; [reflexivity|]. split; [reflexivity|].
  split; [vm_compute; reflexivity|]. by split.
Qed.

(** * Further properties of the yaw helper *)

Lemma tan_shift (x : R) : cos x <> 0 -> tan (x + PI) = tan x.
Proof.
  intros Hc. unfold tan. rewrite neg_sin, neg_cos. field. exact Hc.
Qed.

Ltac case_atan2 :=
  repeat (match goal with
          | |- context [Rlt_dec ?a ?b] => destruct (Rlt_dec a b)
          | |- context [Rle_dec ?a ?b] => destruct (Rle_dec a b)
          end; try lra).

(** [atan2] inverts the polar angle on (-pi, pi]. *)
Lemma atan2_sin_cos (theta : R) :
  - PI < theta <= PI ->
  math_utils.atan2 (sin theta) (cos theta) = theta.
Proof.
  intros [Hlo Hhi]. pose proof PI_RGT_0 as Hpi. unfold math_utils.atan2.
  destruct (Rlt_dec theta (- (PI / 2))) as [HE|HE];
    [|destruct (Req_dec theta (- (PI / 2))) as [HC|HC];
      [|destruct (Rlt_dec theta (PI / 2)) as [HA|HA];
        [|destruct (Req_dec theta (PI / 2)) as [HB|HB]]]].
  - (* (-pi, -pi/2) *)
    assert (Hc : cos theta < 0).
    { rewrite <- cos_neg. apply cos_lt_0; lra. }
    assert (Hs : sin theta < 0) by (apply sin_lt_0_var; lra).
    case_atan2.
    change (sin theta / cos theta) with (tan theta).
    rewrite <- tan_shift by lra. rewrite atan_tan by lra. lra.
  - (* -pi/2 *)
    subst theta. rewrite cos_neg, sin_neg, cos_PI2, sin_PI2. case_atan2.
  - (* (-pi/2, pi/2) *)
    assert (Hc : 0 < cos theta) by (apply cos_gt_0; lra).
    case_atan2.
    change (sin theta / cos theta) with (tan theta).
    apply atan_tan. lra.
  - (* pi/2 *)
    subst theta. rewrite cos_PI2, sin_PI2. case_atan2.
  - (* (pi/2, pi] *)
    assert (Hc : cos theta < 0) by (apply cos_lt_0; lra).
    assert (Hs : 0 <= sin theta) by (apply sin_ge_0; lra).
    case_atan2.
    change (sin theta / cos theta) with (tan theta).
    assert (Hc' : cos (theta - PI) <> 0).
    { replace (theta - PI) with (- (PI - theta)) by ring.
      rewrite cos_neg. apply Rgt_not_eq. apply cos_gt_0; lra. }
    replace (tan theta) with (tan (theta - PI))
      by (rewrite <- (tan_shift (theta - PI) Hc'); f_equal; ring).
    rewrite atan_tan by lra. lra.
Qed.

(** X23: [quaternion_to_yaw_torch] recovers the angle of a rotation about
    the vertical axis. For an angle [theta] in (-pi, pi], the quaternion
    (cos(theta/2), 0, 0, sin(theta/2)) of the rotation by [theta] about z
    has yaw [theta], and so has its negative, which is the same rotation. *)
Theorem quaternion_to_yaw_round_trip (theta : R) :
  - PI < theta <= PI ->
  quaternion_to_yaw_torch (Quat (cos (theta / 2)) 0 0 (sin (theta / 2)))
  = theta /\
  quaternion_to_yaw_torch
    (Quat (- cos (theta / 2)) 0 0 (- sin (theta / 2)))
  = theta.
Proof.
  intros Ht. unfold quaternion_to_yaw_torch.
  assert (Hs : sin theta = 2 * sin (theta / 2) * cos (theta / 2)).
  { rewrite <- sin_2a. f_equal. field. }
  assert (Hc : cos theta = 1 - 2 * sin (theta / 2) * sin (theta / 2)).
  { rewrite <- cos_2a_sin. f_equal. field. }
  split.
  - replace (2 * (cos (theta / 2) * sin (theta / 2) + 0 * 0))
      with (sin theta) by (rewrite Hs; ring).
    replace (1 - 2 * (0 ^ 2 + sin (theta / 2) ^ 2))
      with (cos theta) by (rewrite Hc; ring).
    by apply atan2_sin_cos.
  - replace (2 * (- cos (theta / 2) * - sin (theta / 2) + 0 * 0))
      with (sin theta) by (rewrite Hs; ring).
    replace (1 - 2 * (0 ^ 2 + (- sin (theta / 2)) ^ 2))
      with (cos theta) by (rewrite Hc; ring).
    by apply atan2_sin_cos.
Qed.

(** X24: the yaw of [quaternion_to_yaw_torch] is the direction in which the
    orientation turns the x axis: for a quaternion of norm 1 it is the polar
    angle of the ground projection of the rotated x axis. It is also the yaw
    that the embedding takes for [euler_xyz_from_quat]. *)
Theorem quaternion_to_yaw_heading (q : quat) :
  unit_quat q ->
  quaternion_to_yaw_torch q
  = math_utils.atan2
      (vy (math_utils.quat_rotate q (Vec3 1 0 0)))
      (vx (math_utils.quat_rotate q (Vec3 1 0 0))) /\
  quaternion_to_yaw_torch q = math_utils.euler_z_from_quat q.
Proof.
  destruct q as [w x y z]. unfold unit_quat. simpl. intros H.
  unfold quaternion_to_yaw_torch, math_utils.euler_z_from_quat,
    math_utils.quat_rotate, math_utils.cross, math_utils.dot. simpl.
  split; f_equal; nsatz.
Qed.

(** ** Concrete orientations for the theorems above *)

Lemma quaternion_to_yaw_round_trip_witness :
  quaternion_to_yaw_torch (Quat (cos (0 / 2)) 0 0 (sin (0 / 2))) = 0.
Proof.
  apply (quaternion_to_yaw_round_trip 0).
  pose proof PI_RGT_0. lra.
Defined.

Lemma quaternion_to_yaw_heading_witness :
  quaternion_to_yaw_torch (Quat (1 / 2) (1 / 2) (- (1 / 2)) (- (1 / 2)))
  = math_utils.euler_z_from_quat
      (Quat (1 / 2) (1 / 2) (- (1 / 2)) (- (1 / 2))).
Proof.
  apply (quaternion_to_yaw_heading
           (Quat (1 / 2) (1 / 2) (- (1 / 2)) (- (1 / 2)))).
  exact unit_quat_leg1link4.
Defined.

(** * Properties of the debug visualisation switch *)

(** Once the markers exist, every call sets the visibility of both and
    constructs nothing. *)
Lemma set_debug_vis_all_created fresh v n calls :
  set_debug_vis_all fresh
    {| goal_vel_visualizer := Some v;
       current_vel_visualizer := Some v;
       markers_constructed := n |} calls
  = VisOk {| goal_vel_visualizer := Some (default v (last calls));
             current_vel_visualizer := Some (default v (last calls));
             markers_constructed := n |}.
Proof.
  revert v. induction calls as [|b calls IH]; intros v; [done|].
  cbn [set_debug_vis_all]. rewrite last_cons.
  destruct b; simpl; rewrite IH; by destruct (last calls).
Qed.

Lemma set_debug_vis_all_never fresh calls :
  true ∉ calls ->
  set_debug_vis_all fresh no_visualizers calls = VisOk no_visualizers.
Proof.
  induction calls as [|b calls IH]; intros Hn; [done|].
  destruct b; [exfalso; apply Hn; left|].
  simpl. apply IH. intros Hin. apply Hn. by right.
Qed.

(** X25: the markers of the debug visualisation are created lazily, once and
    together. On an object without markers, as the constructor leaves it, no
    sequence of [_set_debug_vis_impl] calls raises; if no call enables the
    visualisation the object stays without markers and no marker is
    constructed; otherwise exactly two markers have been constructed, by the
    first enabling call, and both have the visibility asked for by the last
    call, whatever the visibility of a marker as constructed. *)
Theorem debug_vis_markers_lazy fresh calls :
  exists self,
    set_debug_vis_all fresh no_visualizers calls = VisOk self /\
    (true ∉ calls -> self = no_visualizers) /\
    (true ∈ calls ->
     markers_constructed self = 2%nat /\
     forall debug_vis, last calls = Some debug_vis ->
       goal_vel_visualizer self = Some debug_vis /\
       current_vel_visualizer self = Some debug_vis).
Proof.
  induction calls as [|b calls IH].
  - exists no_visualizers. split; [done|]. split; [done|].
    intros Hin. by apply elem_of_nil in Hin.
  - destruct b.
    + cbn [set_debug_vis_all]. simpl.
      rewrite set_debug_vis_all_created. eexists. split; [done|].
      split; [intros Hn; exfalso; apply Hn; left|].
      intros _. split; [done|]. intros b Hb. simpl.
      rewrite last_cons in Hb.
      destruct (last calls); simpl; by injection Hb as <-.
    + destruct IH as (self & Hrun & Hnever & Hsome).
      exists self. split; [exact Hrun|]. split.
      * intros Hn. apply Hnever. intros Hin. apply Hn. by right.
      * intros Hin. apply elem_of_cons in Hin as [?|Hin]; [done|].
        destruct (Hsome Hin) as [Hc Hv]. split; [done|].
        intros b Hb. apply Hv.
        destruct calls as [|c calls]; [by apply elem_of_nil in Hin|].
        exact Hb.
Qed.

(** [_set_debug_vis_impl] tests the first marker only: on an object
    that holds the first marker and not the second, either call raises
    [AttributeError]. *)
Lemma set_debug_vis_half fresh v n debug_vis :
  _set_debug_vis_impl fresh
    {| goal_vel_visualizer := Some v;
       current_vel_visualizer := None;
       markers_constructed := n |} debug_vis
  = AttributeError.
Proof. by destruct debug_vis. Qed.

(** * The range of the heading controller *)

Lemma clip_degenerate (x lo hi : R) : hi = lo -> clip x lo hi = hi.
Proof.
  intros ->. unfold clip. apply Rmin_right. apply Rmax_r.
Qed.

(** X26: the heading controller ignores the angular velocity that was
    sampled. After [_update_command] in heading mode, the angular command of
    a heading-controlled environment that does not stand lies within
    [ang_vel_z] whatever it was before, when the range is not inverted; a
    range of one point, as in the vehicle configuration, fixes it. *)
Theorem heading_controller_range cfg data self self' i v :
  heading_command cfg = true ->
  _update_command cfg data self = Ok self' ->
  is_heading_env self !! i = Some true ->
  is_standing_env self !! i <> Some true ->
  command self' !! i = Some v ->
  (fst (ang_vel_z (ranges cfg)) <= snd (ang_vel_z (ranges cfg)) ->
   fst (ang_vel_z (ranges cfg)) <= vz v <= snd (ang_vel_z (ranges cfg))) /\
  (snd (ang_vel_z (ranges cfg)) = fst (ang_vel_z (ranges cfg)) ->
   vz v = snd (ang_vel_z (ranges cfg))).
Proof.
  intros Hhc H Hh Hs Hv. unfold command in Hv.
  pose proof (update_command_flags _ _ _ _ H) as (_ & _ & _ & _ & _ & Hl).
  destruct (vel_command_b self !! i) as [v0|] eqn:Hv0.
  - destruct (update_command_at _ _ _ _ i v0 H Hv0)
      as (v1 & Hv1 & _ & Hset).
    destruct (decide (is_standing_env self !! i = Some true)); [done|].
    rewrite Hv1 in Hv. injection Hv as <-.
    destruct (Hset Hhc Hh) as (qd & tg & q & _ & _ & _ & ->).
    simpl. unfold heading_ang_vel. split.
    + apply clip_in_range.
    + apply clip_degenerate.
  - apply lookup_ge_None in Hv0. apply lookup_lt_Some in Hv. lia.
Qed.

(** ** A concrete call for the theorem above *)

Lemma well_shaped_turning_self : well_shaped 2 turning_self.
Proof. by split. Qed.

Lemma example_turning_update :
  exists self' v,
    _update_command vehicle_cfg data2 turning_self = Ok self' /\
    command self' !! 0%nat = Some v.
Proof.
  destruct (update_command_total vehicle_cfg 2 data2 turning_self)
    as (self1 & self' & _ & _ & H).
  - exact well_shaped_turning_self.
  - exact data_shaped_data2.
  - intros _. exact known_body_vehicle_cfg.
  - pose proof (update_command_flags _ _ _ _ H) as (_ & _ & _ & _ & _ & Hl).
    destruct (command self' !! 0%nat) as [v|] eqn:Hv.
    + by exists self', v.
    + apply lookup_ge_None in Hv. unfold command in Hv.
      rewrite Hl in Hv. simpl in Hv. lia.
Qed.

Lemma heading_controller_range_witness :
  exists self' v, command self' !! 0%nat = Some v /\ vz v = 0.
Proof.
  destruct example_turning_update as (self' & v & H & Hv).
  exists self', v. split; [exact Hv|].
  apply (heading_controller_range vehicle_cfg data2 turning_self self'
           0%nat v eq_refl H eq_refl).
  - discriminate.
  - exact Hv.
  - reflexivity.
Defined.
